(** * Li-GRU forward and backward passes (fast_ligru)

    A shallow embedding of
      - src/lib/ligru_2_0_forward_gpu.cu.cc   (module [ForwardPass]),
      - src/lib/ligru_1_0_backward_gpu.cu.cc  (module [BackwardPass_1_0]),
      - src/lib/ligru_2_0_backward_gpu.cu.cc  (module [BackwardPass_2_0]),
      - src/frameworks/pytorch/ligru.cc       (module [Pytorch]).

    Conventions.
      - The element type [T] of the templates is modelled by the real numbers:
        arithmetic is exact, rounding of half/float/double is not represented.
        Where the order of the floating-point operations decides a property,
        the straight-line arithmetic of the kernels is given a second time
        over an arbitrary scalar type ([Scalar.arithmetic]) and run in IEEE
        binary32 and binary64.
      - A device array is a total map from element index to value.  A
        [const T *] argument pointing into a tensor that the callee never
        writes is passed as the array seen from that pointer ([ptr_add]); a
        pointer into a tensor that is written during the pass is passed as an
        element offset into the corresponding field of the memory record, so
        that aliasing between [h + i * NH] and [h + (i + 1) * NH] is kept.
      - [int] index arithmetic is carried out in [Z]; dimensions are assumed
        small enough for the products not to overflow.  Dimensions are sizes
        of tensors, hence not negative: the grid dimensions, which the
        source computes in [unsigned int], are then the truncating quotients
        written in the [IterateInternal] functions ([grid_dimension]
        below).  For a negative size the unsigned computation wraps, which
        is not represented.
      - All device work of one pass is enqueued on a single stream in program
        order, so streams, events and the cuBLAS handle's stream binding are
        not represented: operations take effect in the order of the calls. *)

From Stdlib Require Import Reals ZArith List Bool String Lia Lra.
From Stdlib Require Import FunctionalExtensionality Permutation.
From Stdlib Require Import SpecFloat.
Import ListNotations.

Open Scope Z_scope.

(** ** Device arrays *)

Definition buffer := Z -> R.

Definition store (p : buffer) (i : Z) (x : R) : buffer :=
  fun k => if k =? i then x else p k.

(** [p.[i]] is the element [i] of the array [p]. *)
Notation "p .[ i ]" := (p i%Z)
  (at level 1, i at level 200, left associativity, only parsing).

(** The array seen from the pointer [p + off]. *)
Definition ptr_add (p : buffer) (off : Z) : buffer :=
  fun k => p (off + k).

(** ** Host loops *)

(** [for (int i = 0; i < n; ++i) s = body(i, s);] *)
Fixpoint for_up {S : Type} (n : nat) (body : Z -> S -> S) (s : S) : S :=
  match n with
  | O => s
  | S k => body (Z.of_nat k) (for_up k body s)
  end.

(** [for (int i = n - 1; i >= 0; --i) s = body(i, s);] *)
Fixpoint for_down {S : Type} (n : nat) (body : Z -> S -> S) (s : S) : S :=
  match n with
  | O => s
  | S k => for_down k body (body (Z.of_nat k) s)
  end.

(** ** Kernel launches *)

Record dim3 := Dim3 { dim_x : Z; dim_y : Z }.

Definition range (n : Z) : list Z := map Z.of_nat (seq 0 (Z.to_nat n)).

(** The (row, col) pairs of the threads of a launch:
    [row = blockDim.x * blockIdx.x + threadIdx.x] ranges over
    [0 .. blockDim.x * gridDim.x - 1], and likewise [col] in y. *)
Definition threads (gridDim blockDim : dim3) : list (Z * Z) :=
  list_prod (range (dim_x blockDim * dim_x gridDim))
            (range (dim_y blockDim * dim_y gridDim)).

(** [kernel<<<gridDim, blockDim, 0, stream>>>(...)]: every thread of the grid
    runs the kernel body.  The bodies below write cells that no other thread
    of the same launch reads or writes, so the threads are run one after the
    other. *)
Definition launch {S : Type} (gridDim blockDim : dim3)
    (kernel : Z -> Z -> S -> S) (m : S) : S :=
  fold_left (fun s rc => kernel (fst rc) (snd rc) s)
    (threads gridDim blockDim) m.

(** [(size + blockDim.x - 1) / blockDim.x] as the source evaluates it:
    [blockDim.x] is an [unsigned int], so [size] is converted and the sum
    and the quotient are taken modulo 2^32. *)
Definition grid_dimension (size blk : Z) : Z :=
  ((size + blk - 1) mod 2 ^ 32) / blk.

(** ** Device faults *)

(** Modelled from the spec: device_assert.h is not available;
    [device_assert_fail] is a hard abort of the device work (the spec's
    "must fail loudly (a hard abort)"), and nothing that is enqueued after it
    runs. *)
Inductive outcome (A : Type) : Type :=
| Ok (a : A)
| device_assert_fail (msg : string).

Arguments Ok {A} a.
Arguments device_assert_fail {A} msg.

Definition bind {A B : Type} (c : outcome A) (f : A -> outcome B) : outcome B :=
  match c with
  | Ok a => f a
  | device_assert_fail msg => device_assert_fail msg
  end.

Notation "x <- c1 ;; c2" := (bind c1 (fun x => c2))
  (at level 61, c1 at next level, right associativity).

(** A launch whose threads may abort. *)
Definition launchM {S : Type} (gridDim blockDim : dim3)
    (kernel : Z -> Z -> S -> outcome S) (m : S) : outcome S :=
  fold_left (fun c rc => s <- c ;; kernel (fst rc) (snd rc) s)
    (threads gridDim blockDim) (Ok m).

Fixpoint for_downM {S : Type} (n : nat) (body : Z -> S -> outcome S) (s : S)
    : outcome S :=
  match n with
  | O => Ok s
  | S k => s' <- body (Z.of_nat k) s ;; for_downM k body s'
  end.

(** The element types the passes are instantiated for. *)
Inductive scalar_t := Double | Float | Half.

Definition is_half (T : scalar_t) : bool :=
  match T with Half => true | _ => false end.

Definition scalar_t_eqb (T1 T2 : scalar_t) : bool :=
  match T1, T2 with
  | Double, Double | Float, Float | Half, Half => true
  | _, _ => false
  end.

(** ** cuBLAS gemm (external): column-major
    [C = alpha * op(A) * op(B) + beta * C], [op(A)] of size m x k,
    [op(B)] of size k x n, [C] of size m x n with leading dimension ldc. *)

Inductive cublasOperation_t := CUBLAS_OP_N | CUBLAS_OP_T.

Definition op (trans : cublasOperation_t) (A : buffer) (ld : Z) (i j : Z) : R :=
  match trans with
  | CUBLAS_OP_N => A (i + j * ld)
  | CUBLAS_OP_T => A (j + i * ld)
  end.

(** [sum_upto k f] is f 0 + ... + f (k - 1). *)
Fixpoint sum_upto (k : nat) (f : Z -> R) : R :=
  match k with
  | O => 0%R
  | S k' => (sum_upto k' f + f (Z.of_nat k'))%R
  end.

Definition gemm_cell (transa transb : cublasOperation_t) (k : Z) (alpha : R)
    (A : buffer) (lda : Z) (B : buffer) (ldb : Z) (beta : R) (C : buffer)
    (c_off ldc : Z) (i j : Z) : R :=
  let c := C (c_off + (i + j * ldc)) in
  (alpha * sum_upto (Z.to_nat k)
             (fun l => op transa A lda i l * op transb B ldb l j)
   + beta * c)%R.

(** The output matrix starts [c_off] elements into the array [C]. *)
Definition gemm (transa transb : cublasOperation_t) (m n k : Z) (alpha : R)
    (A : buffer) (lda : Z) (B : buffer) (ldb : Z) (beta : R) (C : buffer)
    (c_off ldc : Z) : buffer :=
  fold_left
    (fun acc ij =>
       store acc (c_off + (fst ij + snd ij * ldc))
         (gemm_cell transa transb k alpha A lda B ldb beta C c_off ldc
            (fst ij) (snd ij)))
    (list_prod (range m) (range n)) C.

(** ** inline_ops.h *)

(** Modelled from the spec: inline_ops.h is not available; [sigmoid] is the
    logistic function (the spec's "z = sigmoid(0) = 0.5", update gate in
    [0,1]).  It is the exact function, which stays strictly inside (0,1);
    the rounded sigmoid of a [float] or [double] kernel reaches 0 and 1 for
    large arguments, so of its range only the closed interval [0,1] carries
    over to the code.  [tanh] and [sin] are the real functions of those
    names; the remaining helpers ([relu], [leaky_relu] and the four
    derivatives) are parameters of the modules that use them. *)
Definition sigmoid (x : R) : R := (1 / (1 + exp (- x)))%R.

(** ** Forward pass, ligru_2_0 *)

Module ForwardPass.

Record mem := Mem {
  h : buffer;            (* [T+1, B, H] *)
  v : buffer;            (* [T, B, 3H]  *)
  tmp_uh : buffer;
  tmp_uh_norm : buffer
}.

Definition set_h (x : buffer) (m : mem) : mem :=
  Mem x (v m) (tmp_uh m) (tmp_uh_norm m).
Definition set_v (x : buffer) (m : mem) : mem :=
  Mem (h m) x (tmp_uh m) (tmp_uh_norm m).
Definition set_tmp_uh (x : buffer) (m : mem) : mem :=
  Mem (h m) (v m) x (tmp_uh_norm m).
Definition set_tmp_uh_norm (x : buffer) (m : mem) : mem :=
  Mem (h m) (v m) (tmp_uh m) x.

Record private_data := Data {
  training : bool;
  batch_size : Z;
  input_size : Z;
  hidden_size : Z;
  activation : Z
}.

(** The body shared by the four kernels, which differ only in the candidate
    activation [f].  [h_], [h_out] and [v_] are offsets into [h m] and
    [v m]; [wx] and [uh] are read-only. *)
Definition PointwiseOperations (f : R -> R) (Training : bool)
    (batch_dim hidden_dim : Z) (wx uh : buffer) (h_ h_out v_ : Z)
    (row col : Z) (m : mem) : mem :=
  if (row >=? hidden_dim) || (col >=? batch_dim) then m
  else
    let weight_idx := col * (hidden_dim * 2) + row in
    let output_idx := col * hidden_dim + row in
    let a_idx := weight_idx + 0 * hidden_dim in
    let z_idx := weight_idx + 1 * hidden_dim in
    let z := sigmoid (wx z_idx + uh z_idx)%R in
    let a := (wx a_idx + uh a_idx)%R in
    let hcand := f a in
    let m :=
      if Training then
        let base_v_idx := col * (hidden_dim * 3) + row in
        let m := set_v (store (v m) (v_ + (base_v_idx + 1 * hidden_dim)) z) m in
        let m := set_v (store (v m) (v_ + (base_v_idx + 0 * hidden_dim)) a) m in
        set_v (store (v m) (v_ + (base_v_idx + 2 * hidden_dim)) hcand) m
      else m in
    let h_prev := h m (h_ + output_idx) in
    let cur_h_value := (z * h_prev + (1 - z) * hcand)%R in
    set_h (store (h m) (h_out + output_idx) cur_h_value) m.

Section Engine.

(** inline_ops.h *)
Variables relu leaky_relu : R -> R.

(** layer_norm.h: [layer_norm1.RunPartial(stream, batch_size, x, y)] reads
    the array [x] from offset [x_] and returns the new contents of [y],
    written from offset [y_]. *)
Variable layer_norm1 : Z -> buffer -> Z -> buffer -> Z -> buffer.

Definition PointwiseOperationsReLU := PointwiseOperations relu.
Definition PointwiseOperationsLeakyReLU := PointwiseOperations leaky_relu.
Definition PointwiseOperationsTanh := PointwiseOperations tanh.
Definition PointwiseOperationsSin := PointwiseOperations sin.

(** The first two statements of [IterateInternal]: the recurrent projection
    and its normalisation. *)
Definition recurrent_projection (data_ : private_data) (u : buffer)
    (h_ tmp_uh_ tmp_uh_norm_ : Z) (m : mem) : mem :=
  let alpha := 1%R in
  let beta := 0%R in
  let batch_size := batch_size data_ in
  let hidden_size := hidden_size data_ in
  let m :=
    set_tmp_uh
      (gemm CUBLAS_OP_N CUBLAS_OP_N (hidden_size * 2) batch_size hidden_size
         alpha u (hidden_size * 2) (ptr_add (h m) h_) hidden_size beta
         (tmp_uh m) tmp_uh_ (hidden_size * 2)) m in
  set_tmp_uh_norm
    (layer_norm1 batch_size (tmp_uh m) tmp_uh_ (tmp_uh_norm m) tmp_uh_norm_) m.

Definition IterateInternal (data_ : private_data) (u : buffer)
    (h_ h_out v_ : Z) (tmp_wx : buffer) (tmp_uh_ tmp_uh_norm_ : Z)
    (m : mem) : mem :=
  let training := training data_ in
  let batch_size := batch_size data_ in
  let hidden_size := hidden_size data_ in
  let m := recurrent_projection data_ u h_ tmp_uh_ tmp_uh_norm_ m in
  let blockDim := Dim3 32 16 in
  let gridDim :=
    Dim3 ((hidden_size + dim_x blockDim - 1) ÷ dim_x blockDim)
         ((batch_size + dim_y blockDim - 1) ÷ dim_y blockDim) in
  let uh := ptr_add (tmp_uh_norm m) tmp_uh_norm_ in
  if training then
    if activation data_ =? 0 then
      launch gridDim blockDim
        (PointwiseOperationsReLU true batch_size hidden_size tmp_wx uh
           h_ h_out v_) m
    else if activation data_ =? 1 then
      launch gridDim blockDim
        (PointwiseOperationsLeakyReLU true batch_size hidden_size tmp_wx uh
           h_ h_out v_) m
    else if activation data_ =? 2 then
      launch gridDim blockDim
        (PointwiseOperationsSin true batch_size hidden_size tmp_wx uh
           h_ h_out v_) m
    else if activation data_ =? 3 then
      launch gridDim blockDim
        (PointwiseOperationsTanh true batch_size hidden_size tmp_wx uh
           h_ h_out v_) m
    else m
  else
    if activation data_ =? 0 then
      launch gridDim blockDim
        (PointwiseOperationsReLU false batch_size hidden_size tmp_wx uh
           h_ h_out v_) m
    else if activation data_ =? 1 then
      launch gridDim blockDim
        (PointwiseOperationsLeakyReLU false batch_size hidden_size tmp_wx uh
           h_ h_out v_) m
    else if activation data_ =? 3 then
      launch gridDim blockDim
        (PointwiseOperationsTanh false batch_size hidden_size tmp_wx uh
           h_ h_out v_) m
    else m.

(** Iteration [i] of the loop of [Run]. *)
Definition Run_step (data_ : private_data) (wx u : buffer) (i : Z)
    (m : mem) : mem :=
  let NH := batch_size data_ * hidden_size data_ in
  IterateInternal data_ u (i * NH) ((i + 1) * NH) (i * NH * 3)
    (ptr_add wx (i * NH * 2)) (i * NH * 2) 0 m.

(** [h], [v], [tmp_uh_norm] and [tmp_uh] are the base pointers of the four
    fields of [m]; [wx] and [u] are only read. *)
Definition Run (data_ : private_data) (seq_length : Z) (wx u : buffer)
    (m : mem) : mem :=
  for_up (Z.to_nat seq_length) (Run_step data_ wx u) m.

End Engine.

End ForwardPass.

(** ** Backward pass, ligru_1_0 *)

Module BackwardPass_1_0.

Record mem := Mem {
  dwx : buffer;          (* [T, B, 2H] *)
  du : buffer;           (* [H, 2H]    *)
  dh : buffer            (* [B, H]     *)
}.

Definition set_dwx (x : buffer) (m : mem) : mem := Mem x (du m) (dh m).
Definition set_du (x : buffer) (m : mem) : mem := Mem (dwx m) x (dh m).
Definition set_dh (x : buffer) (m : mem) : mem := Mem (dwx m) (du m) x.

Record private_data := Data {
  batch_size : Z;
  input_size : Z;
  hidden_size : Z;
  activation : Z
}.

(** The body shared by the four generic kernels, which differ only in the
    derivative [d_f] of the candidate activation.  [dh_prev] and [dwx_] are
    offsets into [dh m] and [dwx m]; [h], [v] and [grad_out] are read-only. *)
Definition PointwiseOperations (d_f : R -> R) (batch_dim hidden_dim : Z)
    (h v : buffer) (dh_prev : Z) (grad_out : buffer) (dwx_ : Z)
    (row col : Z) (m : mem) : mem :=
  if (row >=? hidden_dim) || (col >=? batch_dim) then m
  else
    let base_idx := col * hidden_dim + row in
    let dh_sum := (grad_out base_idx + dh m (dh_prev + base_idx)%Z)%R in
    let stride3_base_idx := col * (hidden_dim * 3) + row in
    let z_idx := stride3_base_idx + 1 * hidden_dim in
    let a_idx := stride3_base_idx + 0 * hidden_dim in
    let hcand_idx := stride3_base_idx + 2 * hidden_dim in
    let z := v z_idx in
    let a := v a_idx in
    let hcand := v hcand_idx in
    let tmp := ((1 - z) * dh_sum)%R in
    let dat := (d_f a * tmp)%R in
    let dzt := ((h base_idx - hcand) * z * tmp)%R in
    let m := set_dh (store (dh m) (dh_prev + base_idx) (dh_sum * z)%R) m in
    let idx := col * (hidden_dim * 2) + row in
    let m := set_dwx (store (dwx m) (dwx_ + (idx + 1 * hidden_dim)) dzt) m in
    set_dwx (store (dwx m) (dwx_ + (idx + 0 * hidden_dim)) dat) m.

Section Engine.

(** inline_ops.h *)
Variables d_relu d_leaky_relu d_tanh d_sin : R -> R.

(** [__CUDA_ARCH__] of the device code that runs, and the element type. *)
Variable cuda_arch : Z.
Variable T : scalar_t.

(** Lines 166-197: when [__CUDA_ARCH__ < 700] each kernel name has a second
    overload whose array parameters are [half] pointers; it is the more
    specialised one, so it is the one launched for [T = half].  Its body
    has no bounds guard: every thread of the grid asserts. *)
Definition fp16_overload : bool := (cuda_arch <? 700) && is_half T.

Definition PointwiseOperationsReLU (batch_dim hidden_dim : Z) (h v : buffer)
    (dh_prev : Z) (grad_out : buffer) (dwx_ : Z) (row col : Z) (m : mem)
    : outcome mem :=
  if fp16_overload then
    device_assert_fail "FP16 is not supported on compute capability < 7.0."
  else
    Ok (PointwiseOperations d_relu batch_dim hidden_dim h v dh_prev grad_out
          dwx_ row col m).

Definition PointwiseOperationsLeakyReLU (batch_dim hidden_dim : Z)
    (h v : buffer) (dh_prev : Z) (grad_out : buffer) (dwx_ : Z)
    (row col : Z) (m : mem) : outcome mem :=
  if fp16_overload then
    device_assert_fail "FP16 is not supported on compute capability < 7.0."
  else
    Ok (PointwiseOperations d_leaky_relu batch_dim hidden_dim h v dh_prev
          grad_out dwx_ row col m).

Definition PointwiseOperationsTanh (batch_dim hidden_dim : Z) (h v : buffer)
    (dh_prev : Z) (grad_out : buffer) (dwx_ : Z) (row col : Z) (m : mem)
    : outcome mem :=
  if fp16_overload then
    device_assert_fail "FP16 is not supported on compute capability < 7.0."
  else
    Ok (PointwiseOperations d_tanh batch_dim hidden_dim h v dh_prev grad_out
          dwx_ row col m).

Definition PointwiseOperationsSin (batch_dim hidden_dim : Z) (h v : buffer)
    (dh_prev : Z) (grad_out : buffer) (dwx_ : Z) (row col : Z) (m : mem)
    : outcome mem :=
  if fp16_overload then
    device_assert_fail "FP16 is not supported on compute capability < 7.0."
  else
    Ok (PointwiseOperations d_sin batch_dim hidden_dim h v dh_prev grad_out
          dwx_ row col m).

(** The gate-kernel launch of [IterateInternal] (the [if] chain on the
    activation). *)
Definition gate_kernel (data_ : private_data) (h v : buffer) (grad_out : buffer)
    (dh_ dwx_ : Z) (m : mem) : outcome mem :=
  let batch_size := batch_size data_ in
  let hidden_size := hidden_size data_ in
  let blockDim := Dim3 32 16 in
  let gridDim :=
    Dim3 ((hidden_size + dim_x blockDim - 1) ÷ dim_x blockDim)
         ((batch_size + dim_y blockDim - 1) ÷ dim_y blockDim) in
  if activation data_ =? 0 then
    launchM gridDim blockDim
      (PointwiseOperationsReLU batch_size hidden_size h v dh_ grad_out dwx_) m
  else if activation data_ =? 1 then
    launchM gridDim blockDim
      (PointwiseOperationsLeakyReLU batch_size hidden_size h v dh_ grad_out
         dwx_) m
  else if activation data_ =? 2 then
    launchM gridDim blockDim
      (PointwiseOperationsSin batch_size hidden_size h v dh_ grad_out dwx_) m
  else if activation data_ =? 3 then
    launchM gridDim blockDim
      (PointwiseOperationsTanh batch_size hidden_size h v dh_ grad_out dwx_) m
  else Ok m.

(** The recurrent-weight contribution [dh += U . dwx_t] that ends
    [IterateInternal]. *)
Definition recurrent_gemm (data_ : private_data) (u_t : buffer)
    (dh_ dwx_ : Z) (m : mem) : mem :=
  let alpha := 1%R in
  let beta_sum := 1%R in
  let batch_size := batch_size data_ in
  let hidden_size := hidden_size data_ in
  set_dh
    (gemm CUBLAS_OP_N CUBLAS_OP_N hidden_size batch_size (hidden_size * 2)
       alpha u_t hidden_size (ptr_add (dwx m) dwx_) (hidden_size * 2)
       beta_sum (dh m) dh_ hidden_size) m.

Definition IterateInternal (data_ : private_data) (u_t h v grad_out : buffer)
    (dh_ dwx_ : Z) (m : mem) : outcome mem :=
  m <- gate_kernel data_ h v grad_out dh_ dwx_ m ;;
  Ok (recurrent_gemm data_ u_t dh_ dwx_ m).

(** Iteration [i] of the loop of [Run]. *)
Definition Run_step (data_ : private_data) (u_t h v grad_out : buffer)
    (i : Z) (m : mem) : outcome mem :=
  let NH := batch_size data_ * hidden_size data_ in
  IterateInternal data_ u_t (ptr_add h (i * NH)) (ptr_add v (i * NH * 3))
    (ptr_add grad_out ((i + 1) * NH)) 0 (i * NH * 2) m.

(** The reverse scan of [Run]. *)
Definition Run_scan (data_ : private_data) (time_step : Z)
    (u_t h v grad_out : buffer) (m : mem) : outcome mem :=
  for_downM (Z.to_nat time_step) (Run_step data_ u_t h v grad_out) m.

(** The sequence-wide reduction that ends [Run]. *)
Definition Run_reduce (data_ : private_data) (time_step : Z) (h : buffer)
    (m : mem) : mem :=
  let alpha := 1%R in
  let beta_sum := 1%R in
  let batch_size := batch_size data_ in
  let hidden_size := hidden_size data_ in
  set_du
    (gemm CUBLAS_OP_N CUBLAS_OP_T (hidden_size * 2) hidden_size
       (batch_size * time_step) alpha (dwx m) (hidden_size * 2) h hidden_size
       beta_sum (du m) 0 (hidden_size * 2)) m.

(** [dwx], [du] and [dh] are the base pointers of the fields of [m]; [wx_t]
    is not used. *)
Definition Run (data_ : private_data) (time_step : Z)
    (wx_t u_t h v grad_out : buffer) (m : mem) : outcome mem :=
  m <- Run_scan data_ time_step u_t h v grad_out m ;;
  Ok (Run_reduce data_ time_step h m).

End Engine.

End BackwardPass_1_0.

(** ** Backward pass, ligru_2_0 (instantiated for float and double only) *)

Module BackwardPass_2_0.

Record mem := Mem {
  tmp_dwx : buffer;      (* [T, B, 2H] *)
  dwx : buffer;          (* [T, B, 2H] *)
  du : buffer;           (* [H, 2H]    *)
  dh : buffer            (* [B, H]     *)
}.

Definition set_tmp_dwx (x : buffer) (m : mem) : mem :=
  Mem x (dwx m) (du m) (dh m).
Definition set_dwx (x : buffer) (m : mem) : mem :=
  Mem (tmp_dwx m) x (du m) (dh m).
Definition set_du (x : buffer) (m : mem) : mem :=
  Mem (tmp_dwx m) (dwx m) x (dh m).
Definition set_dh (x : buffer) (m : mem) : mem :=
  Mem (tmp_dwx m) (dwx m) (du m) x.

Record private_data := Data {
  batch_size : Z;
  input_size : Z;
  hidden_size : Z;
  activation : Z
}.

(** The body shared by the four kernels, in exact arithmetic; the products
    are written in the order of the source, which matters once they are
    rounded (see [gate_values_2_0] for the same arithmetic over any scalar
    type). *)
Definition PointwiseOperations (d_f : R -> R) (batch_dim hidden_dim : Z)
    (h v : buffer) (dh_prev : Z) (grad_out : buffer) (dwx_ : Z)
    (row col : Z) (m : mem) : mem :=
  if (row >=? hidden_dim) || (col >=? batch_dim) then m
  else
    let base_idx := col * hidden_dim + row in
    let dh_sum := (grad_out base_idx + dh m (dh_prev + base_idx)%Z)%R in
    let stride3_base_idx := col * (hidden_dim * 3) + row in
    let z_idx := stride3_base_idx + 1 * hidden_dim in
    let a_idx := stride3_base_idx + 0 * hidden_dim in
    let hcand_idx := stride3_base_idx + 2 * hidden_dim in
    let z := v z_idx in
    let a := v a_idx in
    let hcand := v hcand_idx in
    let dat := (d_f a * (1 - z) * dh_sum)%R in
    let dzt := ((h base_idx - hcand) * dh_sum * (z * (1 - z)))%R in
    let m := set_dh (store (dh m) (dh_prev + base_idx) (dh_sum * z)%R) m in
    let idx := col * (hidden_dim * 2) + row in
    let m := set_dwx (store (dwx m) (dwx_ + (idx + 1 * hidden_dim)) dzt) m in
    set_dwx (store (dwx m) (dwx_ + (idx + 0 * hidden_dim)) dat) m.

Section Engine.

(** inline_ops.h *)
Variables d_relu d_leaky_relu d_tanh d_sin : R -> R.

(** layer_norm.h: [layer_norm1.RunPartial(stream, batch_size, dy, dx)] of the
    backward co-pass reads [dy] from offset [dy_] and returns the new
    contents of [dx], written from offset [dx_]. *)
Variable layer_norm1 : Z -> buffer -> Z -> buffer -> Z -> buffer.

Definition PointwiseOperationsReLU := PointwiseOperations d_relu.
Definition PointwiseOperationsLeakyReLU := PointwiseOperations d_leaky_relu.
Definition PointwiseOperationsTanh := PointwiseOperations d_tanh.
Definition PointwiseOperationsSin := PointwiseOperations d_sin.

Definition gate_kernel (data_ : private_data) (h v : buffer) (grad_out : buffer)
    (dh_ dwx_ : Z) (m : mem) : mem :=
  let batch_size := batch_size data_ in
  let hidden_size := hidden_size data_ in
  let blockDim := Dim3 32 16 in
  let gridDim :=
    Dim3 ((hidden_size + dim_x blockDim - 1) ÷ dim_x blockDim)
         ((batch_size + dim_y blockDim - 1) ÷ dim_y blockDim) in
  if activation data_ =? 0 then
    launch gridDim blockDim
      (PointwiseOperationsReLU batch_size hidden_size h v dh_ grad_out dwx_) m
  else if activation data_ =? 1 then
    launch gridDim blockDim
      (PointwiseOperationsLeakyReLU batch_size hidden_size h v dh_ grad_out
         dwx_) m
  else if activation data_ =? 2 then
    launch gridDim blockDim
      (PointwiseOperationsSin batch_size hidden_size h v dh_ grad_out dwx_) m
  else if activation data_ =? 3 then
    launch gridDim blockDim
      (PointwiseOperationsTanh batch_size hidden_size h v dh_ grad_out dwx_) m
  else m.

Definition IterateInternal (data_ : private_data) (u_t h v grad_out : buffer)
    (dh_ tmp_dwx_ dwx_ : Z) (m : mem) : mem :=
  let alpha := 1%R in
  let beta_sum := 1%R in
  let batch_size := batch_size data_ in
  let hidden_size := hidden_size data_ in
  let m := gate_kernel data_ h v grad_out dh_ dwx_ m in
  let m :=
    set_tmp_dwx (layer_norm1 batch_size (dwx m) dwx_ (tmp_dwx m) tmp_dwx_) m in
  set_dh
    (gemm CUBLAS_OP_N CUBLAS_OP_N hidden_size batch_size (hidden_size * 2)
       alpha u_t hidden_size (ptr_add (tmp_dwx m) tmp_dwx_) (hidden_size * 2)
       beta_sum (dh m) dh_ hidden_size) m.

Definition Run_step (data_ : private_data) (u_t h v grad_out : buffer)
    (i : Z) (m : mem) : mem :=
  let NH := batch_size data_ * hidden_size data_ in
  IterateInternal data_ u_t (ptr_add h (i * NH)) (ptr_add v (i * NH * 3))
    (ptr_add grad_out ((i + 1) * NH)) 0 (i * NH * 2) (i * NH * 2) m.

Definition Run_scan (data_ : private_data) (time_step : Z)
    (u_t h v grad_out : buffer) (m : mem) : mem :=
  for_down (Z.to_nat time_step) (Run_step data_ u_t h v grad_out) m.

Definition Run_reduce (data_ : private_data) (time_step : Z) (h : buffer)
    (m : mem) : mem :=
  let alpha := 1%R in
  let beta_sum := 1%R in
  let batch_size := batch_size data_ in
  let hidden_size := hidden_size data_ in
  set_du
    (gemm CUBLAS_OP_N CUBLAS_OP_T (hidden_size * 2) hidden_size
       (batch_size * time_step) alpha (tmp_dwx m) (hidden_size * 2) h
       hidden_size beta_sum (du m) 0 (hidden_size * 2)) m.

Definition Run (data_ : private_data) (time_step : Z)
    (wx_t u_t h v grad_out : buffer) (m : mem) : mem :=
  Run_reduce data_ time_step h (Run_scan data_ time_step u_t h v grad_out m).

End Engine.

End BackwardPass_2_0.

(** ** The arithmetic of the backward gate kernels over any scalar type

    The modules above instantiate the template parameter [T] with the real
    numbers.  The arithmetic of a thread of the two backward kernels is
    given here once more over an arbitrary scalar type, so that it can be run
    with the rounding of [float] and [double], where the order in which the
    products are taken matters. *)

Module Scalar.

Record arithmetic (T : Type) := Arithmetic {
  one : T;              (* static_cast<T>(1.0) *)
  add : T -> T -> T;    (* x + y *)
  sub : T -> T -> T;    (* x - y *)
  mul : T -> T -> T     (* x * y *)
}.

Arguments Arithmetic {T} one add sub mul.
Arguments one {T} a.
Arguments add {T} a x y.
Arguments sub {T} a x y.
Arguments mul {T} a x y.

(** Exact arithmetic: the instance used by the modules above. *)
Definition real : arithmetic R := Arithmetic 1%R Rplus Rminus Rmult.

(** IEEE 754 binary arithmetic with [prec] bits of precision, rounding to
    nearest, ties to even. *)
Definition binary (prec emax : Z) : arithmetic spec_float :=
  Arithmetic (SFone prec emax) (SFadd prec emax) (SFsub prec emax)
    (SFmul prec emax).

(** [T = float] and [T = double]. *)
Definition binary32 : arithmetic spec_float := binary 24 128.
Definition binary64 : arithmetic spec_float := binary 53 1024.

(** The number [m * 2^e] in a binary format. *)
Definition literal (prec emax : Z) (m e : Z) : spec_float :=
  binary_normalize prec emax m e false.

End Scalar.

(** ligru_1_0_backward_gpu.cu.cc, the arithmetic of a thread of a generic
    kernel: from the values it loads ([grad_out[base_idx]],
    [dh_prev[base_idx]], [h[base_idx]], [z], [a], [hcand]) to the values it
    stores, [(dh * z, dzt, dat)]. *)
Definition gate_values_1_0 {T : Type} (A : Scalar.arithmetic T) (d_f : T -> T)
    (grad_out dh_prev h z a hcand : T) : T * T * T :=
  let dh := Scalar.add A grad_out dh_prev in
  let tmp := Scalar.mul A (Scalar.sub A (Scalar.one A) z) dh in
  let dat := Scalar.mul A (d_f a) tmp in
  let dzt := Scalar.mul A (Scalar.mul A (Scalar.sub A h hcand) z) tmp in
  (Scalar.mul A dh z, dzt, dat).

(** ligru_2_0_backward_gpu.cu.cc, likewise. *)
Definition gate_values_2_0 {T : Type} (A : Scalar.arithmetic T) (d_f : T -> T)
    (grad_out dh_prev h z a hcand : T) : T * T * T :=
  let dh := Scalar.add A grad_out dh_prev in
  let dat :=
    Scalar.mul A (Scalar.mul A (d_f a) (Scalar.sub A (Scalar.one A) z)) dh in
  let dzt :=
    Scalar.mul A (Scalar.mul A (Scalar.sub A h hcand) dh)
      (Scalar.mul A z (Scalar.sub A (Scalar.one A) z)) in
  (Scalar.mul A dh z, dzt, dat).

(** ** The PyTorch binding, frameworks/pytorch/ligru.cc *)

Module Pytorch.

Record Tensor := MkTensor {
  sizes : list Z;
  scalar_type : scalar_t;
  data : buffer
}.

Definition size (t : Tensor) (d : nat) : Z := nth d (sizes t) 0.

(** [torch::zeros(sizes, options)] *)
Definition zeros (sizes : list Z) (options : scalar_t) : Tensor :=
  MkTensor sizes options (fun _ => 0%R).

(** [torch::empty(sizes, options)]: the contents are whatever the allocator
    hands out, here [uninit]. *)
Definition empty (uninit : buffer) (sizes : list Z) (options : scalar_t)
    : Tensor :=
  MkTensor sizes options uninit.

Definition with_data (t : Tensor) (x : buffer) : Tensor :=
  MkTensor (sizes t) (scalar_type t) x.

(** Broadcasting (ATen, external) of a contiguous tensor of shape
    [src_sizes] to the shape [[B; H]]: the index of the element of the source
    that lands at position [(b, j)].  A dimension of size 1 is repeated and
    missing leading dimensions count as 1. *)
Definition broadcast_index (src_sizes : list Z) (b j : Z) : Z :=
  match src_sizes with
  | [] => 0
  | [h0] => if h0 =? 1 then 0 else j
  | [b0; h0] => (if b0 =? 1 then 0 else b) * h0 + (if h0 =? 1 then 0 else j)
  | _ => 0   (* a source of higher rank cannot be broadcast to [[B; H]] *)
  end.

Section Forward.

(** The element-type conversion of [Tensor::copy_] (ATen, external):
    [convert from to x] is the element [x] of type [from] converted to the
    type [to].  Between equal types the copy moves the elements unchanged. *)
Variable convert : scalar_t -> scalar_t -> R -> R.

(** [output[0] = src], that is [output[0].copy_(src)], for an [output] of
    shape [[T + 1; B; H]]: [src] is broadcast to the shape [[B; H]] of row 0
    and its elements are converted to the element type of [output].  For a
    [src] that cannot be broadcast to [[B; H]] the call raises; exceptions
    of the host code are not represented, and the properties of the copied
    row are stated for a [src] of shape [[B; H]]. *)
Definition assign_row0 (output : Tensor) (src : Tensor) : Tensor :=
  let B := size output 1 in
  let H := size output 2 in
  let element (x : R) :=
    if scalar_t_eqb (scalar_type src) (scalar_type output) then x
    else convert (scalar_type src) (scalar_type output) x in
  with_data output
    (fun k =>
       if (0 <=? k) && (k <? B * H)
       then element (data src (broadcast_index (sizes src) (k / H) (k mod H)))
       else data output k).

(** [haste::v0::ligru_1_0::ForwardPass] is declared in ligru_1_0.h, which is
    not available, so the engine is a parameter of the entry:
    [ForwardPass_Run training batch_size input_size hidden_size activation
    seq_length wx u output cache tmp_uh] constructs the pass and runs it, and
    gives the contents of [output] and [cache] afterwards. *)
Variable ForwardPass_Run :
  bool -> Z -> Z -> Z -> Z -> Z -> buffer -> buffer -> buffer -> buffer ->
  buffer -> buffer * buffer.

Definition ligru_1_0_forward (uninit_output uninit_cache : buffer)
    (training : bool) (wx h_init u_t : Tensor) (activation : Z)
    : Tensor * Tensor :=
  let seq_length := size wx 0 in
  let batch_size := size wx 1 in
  let hidden_size := size h_init 1 in
  let options := scalar_type wx in
  let output :=
    empty uninit_output [seq_length + 1; batch_size; hidden_size] options in
  let cache :=
    empty uninit_cache [seq_length; batch_size; hidden_size * 3] options in
  let tmp_uh := zeros [batch_size; hidden_size * 2] options in
  let output := assign_row0 output h_init in
  let r :=
    ForwardPass_Run training batch_size 0 hidden_size activation seq_length
      (data wx) (data u_t) (data output) (data cache) (data tmp_uh) in
  (with_data output (fst r), with_data cache (snd r)).

End Forward.

(** The ligru_2_0 forward engine of src/ put behind the interface that the
    entry expects of its engine.  This pairing is not code of the
    repository (the entry constructs [ligru_1_0::ForwardPass]); it serves to
    run the concrete one-step scenario of the specification through the
    entry.  [tmp_uh_norm0] is the initial contents of the additional scratch
    array that the ligru_2_0 engine takes. *)
Definition ligru_2_0_engine (relu leaky_relu : R -> R)
    (layer_norm1 : Z -> buffer -> Z -> buffer -> Z -> buffer)
    (tmp_uh_norm0 : buffer)
    (training : bool) (batch_size input_size hidden_size activation : Z)
    (seq_length : Z) (wx u output cache tmp_uh : buffer) : buffer * buffer :=
  let data_ :=
    ForwardPass.Data training batch_size input_size hidden_size activation in
  let m :=
    ForwardPass.Run relu leaky_relu layer_norm1 data_ seq_length wx u
      (ForwardPass.Mem output cache tmp_uh tmp_uh_norm0) in
  (ForwardPass.h m, ForwardPass.v m).

Section Backward.

Variables d_relu d_leaky_relu d_tanh d_sin : R -> R.
Variable cuda_arch : Z.

Definition ligru_1_0_backward (wx u h cache grad_out : Tensor)
    (activation : Z) : outcome (Tensor * Tensor * Tensor) :=
  let input_size := size wx 0 in
  let time_steps := size wx 0 in
  let batch_size := size wx 1 in
  let hidden_size := size wx 2 ÷ 2 in
  let options := scalar_type wx in
  let dwx := zeros [time_steps; batch_size; hidden_size * 2] options in
  let du := zeros [hidden_size; hidden_size * 2] options in
  let dh := zeros [batch_size; hidden_size] options in
  let data_ :=
    BackwardPass_1_0.Data batch_size input_size hidden_size activation in
  m <- BackwardPass_1_0.Run d_relu d_leaky_relu d_tanh d_sin cuda_arch
         (scalar_type wx) data_ time_steps (data wx) (data u) (data h)
         (data cache) (data grad_out)
         (BackwardPass_1_0.Mem (data dwx) (data du) (data dh)) ;;
  Ok (with_data du (BackwardPass_1_0.du m),
      with_data dwx (BackwardPass_1_0.dwx m),
      with_data dh (BackwardPass_1_0.dh m)).

End Backward.

End Pytorch.

(** ** The gate equations of the specification *)

(** Modelled on the spec's forward contract: slot 1 of the input projection
    and of the recurrent projection gives the update gate, slot 0 the
    pre-activation; [b] is the batch index, [j] the hidden index. *)
Definition gate_spec (f : R -> R) (wx uh : buffer) (H b j : Z) (h_prev : R)
    : R :=
  let z_idx := b * (2 * H) + 1 * H + j in
  let a_idx := b * (2 * H) + 0 * H + j in
  let z := sigmoid (wx z_idx + uh z_idx)%R in
  let a := (wx a_idx + uh a_idx)%R in
  (z * h_prev + (1 - z) * f a)%R.

(** Modelled on the spec's closed enumeration
    {0=relu, 1=leaky_relu, 2=sin, 3=tanh} of [activation_id]. *)
Definition candidate (relu leaky_relu : R -> R) (activation_id : Z)
    : option (R -> R) :=
  if activation_id =? 0 then Some relu
  else if activation_id =? 1 then Some leaky_relu
  else if activation_id =? 2 then Some sin
  else if activation_id =? 3 then Some tanh
  else None.

(** The derivative helper of inline_ops.h that the backward dispatch pairs
    with each [activation_id]. *)
Definition derivative (d_relu d_leaky_relu d_tanh d_sin : R -> R)
    (activation_id : Z) : option (R -> R) :=
  if activation_id =? 0 then Some d_relu
  else if activation_id =? 1 then Some d_leaky_relu
  else if activation_id =? 2 then Some d_sin
  else if activation_id =? 3 then Some d_tanh
  else None.

(** The arrays that both backward variants have in common. *)
Definition gradients_of (m : BackwardPass_2_0.mem) : BackwardPass_1_0.mem :=
  BackwardPass_1_0.Mem (BackwardPass_2_0.dwx m) (BackwardPass_2_0.du m)
    (BackwardPass_2_0.dh m).

(** Modelled on the spec's "per-step outer product [dwx_t . h_t^T]": entry
    (i, j) of the product of the [B, 2H] array [dwx_t], transposed, with the
    [B, H] array [h_t]. *)
Definition outer_product (B H : Z) (dwx_t h_t : buffer) (i j : Z) : R :=
  sum_upto (Z.to_nat B) (fun b => dwx_t.[b * (2 * H) + i] * h_t.[b * H + j])%R.

(** Two forward memories that differ at most in the cache. *)
Definition same_but_v (m1 m2 : ForwardPass.mem) : Prop :=
  ForwardPass.h m1 = ForwardPass.h m2
  /\ ForwardPass.tmp_uh m1 = ForwardPass.tmp_uh m2
  /\ ForwardPass.tmp_uh_norm m1 = ForwardPass.tmp_uh_norm m2.

(** All three gradient arrays of ligru_1_0 are zero everywhere. *)
Definition all_zero (m : BackwardPass_1_0.mem) : Prop :=
  (forall k, (BackwardPass_1_0.dh m).[k] = 0%R)
  /\ (forall k, (BackwardPass_1_0.dwx m).[k] = 0%R)
  /\ (forall k, (BackwardPass_1_0.du m).[k] = 0%R).

(** The iterations [n - 1], ..., [k] of
    [for (int i = n - 1; i >= 0; --i) s = body(i, s);], that is the loop
    stopped before iteration [k - 1]. *)
Definition for_downM_until {S : Type} (n k : nat) (body : Z -> S -> outcome S)
    (s : S) : outcome S :=
  for_downM (n - k) (fun i => body (i + Z.of_nat k)) s.

Definition for_down_until {S : Type} (n k : nat) (body : Z -> S -> S) (s : S)
    : S :=
  for_down (n - k) (fun i => body (i + Z.of_nat k)) s.

(** Case analysis on the indices of a chain of [store]s. *)
Ltac split_stores :=
  unfold store;
  repeat match goal with
         | |- context [?a =? ?b] => destruct (Z.eqb_spec a b)
         end;
  try reflexivity; try lia.

(** The launch configuration computed by every [IterateInternal]. *)
Definition pass_blockDim : dim3 := Dim3 32 16.
Definition pass_gridDim (batch_size hidden_size : Z) : dim3 :=
  Dim3 ((hidden_size + dim_x pass_blockDim - 1) ÷ dim_x pass_blockDim)
       ((batch_size + dim_y pass_blockDim - 1) ÷ dim_y pass_blockDim).

(** * Properties *)

(** ** Ranges, grids and folds *)

Lemma in_range n i : In i (range n) <-> 0 <= i < n.
Proof.
  unfold range. rewrite in_map_iff. split.
  - intros [k [<- Hk]]. apply in_seq in Hk. lia.
  - intros Hi. exists (Z.to_nat i). split; [lia|]. apply in_seq. lia.
Qed.

Lemma NoDup_range n : NoDup (range n).
Proof.
  unfold range. apply NoDup_map_NoDup_ForallPairs; [|apply seq_NoDup].
  intros a b _ _ Hab. lia.
Qed.

Lemma NoDup_list_prod {A B} (l : list A) (l' : list B) :
  NoDup l -> NoDup l' -> NoDup (list_prod l l').
Proof.
  intros Hl Hl'. induction Hl as [|a l Ha Hl IH]; simpl; [constructor|].
  apply NoDup_app.
  - apply NoDup_map_NoDup_ForallPairs; [|assumption].
    intros x y _ _ Hxy. congruence.
  - exact IH.
  - intros [x y] Hin Hin'. apply in_map_iff in Hin as [y' [Heq _]].
    inversion Heq; subst. apply in_prod_iff in Hin' as [Hin' _]. contradiction.
Qed.

Lemma in_threads g b r c :
  In (r, c) (threads g b) <->
  0 <= r < dim_x b * dim_x g /\ 0 <= c < dim_y b * dim_y g.
Proof. unfold threads. rewrite in_prod_iff, !in_range. reflexivity. Qed.

Lemma NoDup_threads g b : NoDup (threads g b).
Proof. apply NoDup_list_prod; apply NoDup_range. Qed.

(** For the size of a tensor the unsigned computation of the source is the
    quotient used in the [IterateInternal] functions. *)
Lemma grid_dimension_quot size blk :
  0 < blk -> 0 <= size -> size + blk - 1 < 2 ^ 32 ->
  grid_dimension size blk = (size + blk - 1) ÷ blk.
Proof.
  intros Hblk Hsize Hmax. unfold grid_dimension.
  rewrite Z.mod_small by lia. symmetry. apply Z.quot_div_nonneg; lia.
Qed.

(** The launch configuration of the passes covers the whole
    hidden x batch grid. *)
Lemma grid_covers n blk i :
  0 < blk -> 0 <= i < n -> 0 <= i < blk * ((n + blk - 1) ÷ blk).
Proof.
  intros Hblk Hi. rewrite Z.quot_div_nonneg by lia.
  pose proof (Z.div_mod (n + blk - 1) blk ltac:(lia)).
  pose proof (Z.mod_pos_bound (n + blk - 1) blk Hblk). lia.
Qed.

Lemma in_pass_grid H B j b :
  0 <= j < H -> 0 <= b < B ->
  In (j, b) (threads (pass_gridDim B H) pass_blockDim).
Proof.
  intros Hj Hb. apply in_threads. cbn [dim_x dim_y pass_gridDim pass_blockDim].
  split; apply grid_covers; lia.
Qed.

Lemma fold_left_frame {S X O : Type} (step : X -> S -> S) (obs : S -> O) l m :
  (forall y s, In y l -> obs (step y s) = obs s) ->
  obs (fold_left (fun s y => step y s) l m) = obs m.
Proof.
  revert m. induction l as [|y l IH]; intros m Hf; simpl; [reflexivity|].
  rewrite IH.
  - apply Hf. now left.
  - intros y' s Hy'. apply Hf. now right.
Qed.

(** In a fold over distinct items, the cell written by item [x] ends up with
    the value [x] computes from what it read in the initial state, provided
    no other item touches what [x] reads or writes. *)
Lemma fold_left_cell {S X O I : Type} (step : X -> S -> S) (obs : S -> O)
    (obs_in : S -> I) (F : I -> O) x l m :
  NoDup l -> In x l ->
  (forall y s, In y l -> y <> x -> obs_in (step y s) = obs_in s) ->
  (forall y s, In y l -> y <> x -> obs (step y s) = obs s) ->
  (forall s, obs (step x s) = F (obs_in s)) ->
  obs (fold_left (fun s y => step y s) l m) = F (obs_in m).
Proof.
  intros Hnd Hin Hread Hwrite Hx.
  destruct (in_split _ _ Hin) as [l1 [l2 ->]].
  apply NoDup_remove_2 in Hnd.
  rewrite fold_left_app. simpl.
  assert (Hl1 : forall y, In y l1 -> In y (l1 ++ x :: l2) /\ y <> x).
  { intros y Hy. split; [apply in_or_app; now left|].
    intros ->. apply Hnd. apply in_or_app. now left. }
  assert (Hl2 : forall y, In y l2 -> In y (l1 ++ x :: l2) /\ y <> x).
  { intros y Hy. split; [apply in_or_app; right; now right|].
    intros ->. apply Hnd. apply in_or_app. now right. }
  rewrite fold_left_frame.
  - rewrite Hx. f_equal. apply fold_left_frame.
    intros y s Hy. destruct (Hl1 y Hy). now apply Hread.
  - intros y s Hy. destruct (Hl2 y Hy). now apply Hwrite.
Qed.

Lemma fold_left_ext_in {S X : Type} (f g : S -> X -> S) l m :
  (forall y s, In y l -> f s y = g s y) -> fold_left f l m = fold_left g l m.
Proof.
  revert m. induction l as [|y l IH]; intros m Hfg; simpl; [reflexivity|].
  rewrite Hfg by now left. apply IH. intros; apply Hfg; now right.
Qed.

Lemma launch_frame {S O : Type} (obs : S -> O) g b
    (kernel : Z -> Z -> S -> S) m :
  (forall r c s, 0 <= r -> 0 <= c -> obs (kernel r c s) = obs s) ->
  obs (launch g b kernel m) = obs m.
Proof.
  intros Hk. unfold launch.
  apply (fold_left_frame (fun rc s => kernel (fst rc) (snd rc) s)).
  intros [r c] s Hin. apply in_threads in Hin. cbn [fst snd]. apply Hk; lia.
Qed.

Lemma launch_ext {S : Type} g b (k1 k2 : Z -> Z -> S -> S) m :
  (forall r c s, 0 <= r -> 0 <= c -> k1 r c s = k2 r c s) ->
  launch g b k1 m = launch g b k2 m.
Proof.
  intros Hk. unfold launch. apply fold_left_ext_in.
  intros [r c] s Hin. apply in_threads in Hin. cbn [fst snd]. apply Hk; lia.
Qed.

(** ** Stores and gemm *)

Lemma store_eq p i x : store p i x i = x.
Proof. unfold store. now rewrite Z.eqb_refl. Qed.

Lemma store_neq p i x k : k <> i -> store p i x k = p k.
Proof. unfold store. intros Hk. apply Z.eqb_neq in Hk. now rewrite Hk. Qed.

Lemma cell_inj ld i j i' j' :
  0 <= i < ld -> 0 <= i' < ld -> i + j * ld = i' + j' * ld -> i = i' /\ j = j'.
Proof. intros Hi Hi' Heq. assert (j = j') by nia. subst. lia. Qed.

(** The bounds guard of the kernels. *)
Lemma guard_false r c H B :
  (r >=? H) || (c >=? B) = false <-> r < H /\ c < B.
Proof. rewrite orb_false_iff, !Z.geb_leb, !Z.leb_gt. reflexivity. Qed.

Lemma gemm_frame ta tb m n k alpha A lda B ldb beta C c_off ldc idx :
  (forall i j, 0 <= i < m -> 0 <= j < n -> idx <> c_off + (i + j * ldc)) ->
  gemm ta tb m n k alpha A lda B ldb beta C c_off ldc idx = C idx.
Proof.
  intros Hidx. unfold gemm.
  apply (fold_left_frame
           (fun ij acc =>
              store acc (c_off + (fst ij + snd ij * ldc))
                (gemm_cell ta tb k alpha A lda B ldb beta C c_off ldc
                   (fst ij) (snd ij)))
           (fun acc : buffer => acc idx)).
  intros [i j] s Hin. apply in_prod_iff in Hin. rewrite !in_range in Hin.
  simpl. apply store_neq. apply Hidx; lia.
Qed.

Lemma gemm_at ta tb m n k alpha A lda B ldb beta C c_off ldc i j :
  0 <= i < m -> 0 <= j < n -> m <= ldc ->
  gemm ta tb m n k alpha A lda B ldb beta C c_off ldc (c_off + (i + j * ldc))
  = gemm_cell ta tb k alpha A lda B ldb beta C c_off ldc i j.
Proof.
  intros Hi Hj Hld. unfold gemm.
  apply (fold_left_cell
           (fun ij acc =>
              store acc (c_off + (fst ij + snd ij * ldc))
                (gemm_cell ta tb k alpha A lda B ldb beta C c_off ldc
                   (fst ij) (snd ij)))
           (fun acc : buffer => acc (c_off + (i + j * ldc)))
           (fun _ => tt)
           (fun _ => gemm_cell ta tb k alpha A lda B ldb beta C c_off ldc i j)
           (i, j)).
  - apply NoDup_list_prod; apply NoDup_range.
  - apply in_prod_iff. rewrite !in_range. lia.
  - reflexivity.
  - intros [i' j'] s Hin Hne. apply in_prod_iff in Hin.
    rewrite !in_range in Hin. simpl. apply store_neq. intros Heq.
    apply Hne. destruct (cell_inj ldc i j i' j'); try lia. congruence.
  - intros s. simpl. apply store_eq.
Qed.

Lemma sum_upto_ext n f g :
  (forall l, 0 <= l < Z.of_nat n -> f l = g l) -> sum_upto n f = sum_upto n g.
Proof.
  induction n as [|n IH]; intros Hfg; simpl; [reflexivity|].
  rewrite IH, Hfg by (intros; try apply Hfg; lia). reflexivity.
Qed.

Lemma sum_upto_app a b f :
  sum_upto (a + b) f
  = (sum_upto a f + sum_upto b (fun l => f (Z.of_nat a + l)%Z))%R.
Proof.
  induction b as [|b IH].
  - rewrite Nat.add_0_r. simpl. lra.
  - rewrite Nat.add_succ_r. simpl. rewrite IH.
    replace (Z.of_nat (a + b)) with (Z.of_nat a + Z.of_nat b) by lia. lra.
Qed.

(** A sum over the flattened (time x batch) axis is the sum over time of
    the sums over the batch. *)
Lemma sum_upto_flatten (nt nb : nat) (f : Z -> R) :
  sum_upto (nb * nt) f
  = sum_upto nt (fun t => sum_upto nb (fun b => f (t * Z.of_nat nb + b))).
Proof.
  induction nt as [|nt IH].
  - rewrite Nat.mul_0_r. reflexivity.
  - replace (nb * S nt)%nat with (nb * nt + nb)%nat by lia.
    rewrite sum_upto_app, IH. simpl. f_equal.
    apply sum_upto_ext. intros l _. f_equal. lia.
Qed.

(** ** Forward pass *)

Module ForwardFacts.
Import ForwardPass.

Lemma PointwiseOperations_h f Tr B H wx uh h_ h_out v_ r c m :
  h (PointwiseOperations f Tr B H wx uh h_ h_out v_ r c m) =
  if (r >=? H) || (c >=? B) then h m
  else store (h m) (h_out + (c * H + r))
         (gate_spec f wx uh H c r (h m (h_ + (c * H + r)))).
Proof.
  unfold PointwiseOperations, gate_spec.
  destruct ((r >=? H) || (c >=? B)); [reflexivity|].
  replace (c * (H * 2) + r + 1 * H) with (c * (2 * H) + 1 * H + r) by lia.
  replace (c * (H * 2) + r + 0 * H) with (c * (2 * H) + 0 * H + r) by lia.
  destruct Tr; reflexivity.
Qed.

Lemma PointwiseOperations_v_eval f B H wx uh h_ h_out v_ r c m :
  v (PointwiseOperations f false B H wx uh h_ h_out v_ r c m) = v m.
Proof.
  unfold PointwiseOperations. destruct ((r >=? H) || (c >=? B)); reflexivity.
Qed.

Lemma PointwiseOperations_tmp_uh f Tr B H wx uh h_ h_out v_ r c m :
  tmp_uh (PointwiseOperations f Tr B H wx uh h_ h_out v_ r c m) = tmp_uh m.
Proof.
  unfold PointwiseOperations.
  destruct ((r >=? H) || (c >=? B)); [reflexivity|]. destruct Tr; reflexivity.
Qed.

Lemma PointwiseOperations_tmp_uh_norm f Tr B H wx uh h_ h_out v_ r c m :
  tmp_uh_norm (PointwiseOperations f Tr B H wx uh h_ h_out v_ r c m)
  = tmp_uh_norm m.
Proof.
  unfold PointwiseOperations.
  destruct ((r >=? H) || (c >=? B)); [reflexivity|]. destruct Tr; reflexivity.
Qed.

(** A launch of a gate kernel leaves [h] alone outside the output row. *)
Lemma launch_h_frame f Tr B H wx uh h_ h_out v_ g b m k :
  ~ (h_out <= k < h_out + B * H) ->
  h (launch g b (PointwiseOperations f Tr B H wx uh h_ h_out v_) m) k = h m k.
Proof.
  intros Hk.
  apply (launch_frame (fun s => h s k)). intros r c s Hr Hc.
  rewrite PointwiseOperations_h.
  destruct ((r >=? H) || (c >=? B)) eqn:Hg; [reflexivity|].
  apply guard_false in Hg. apply store_neq. nia.
Qed.

(** A launch of a gate kernel over a grid that contains thread (j, b) writes
    the gate equation into cell (b, j) of the output row. *)
Lemma launch_h_out f Tr B H wx uh h_ h_out v_ g bl m b j :
  In (j, b) (threads g bl) -> 0 <= b < B -> 0 <= j < H ->
  h_ + B * H <= h_out \/ h_out + B * H <= h_ ->
  h (launch g bl (PointwiseOperations f Tr B H wx uh h_ h_out v_) m)
    (h_out + (b * H + j))
  = gate_spec f wx uh H b j (h m (h_ + (b * H + j))).
Proof.
  intros Hin Hb Hj Hdisj. unfold launch.
  apply (fold_left_cell
           (fun rc s => PointwiseOperations f Tr B H wx uh h_ h_out v_
                          (fst rc) (snd rc) s)
           (fun s => h s (h_out + (b * H + j)))
           (fun s => h s (h_ + (b * H + j)))
           (gate_spec f wx uh H b j)
           (j, b)).
  - apply NoDup_threads.
  - exact Hin.
  - intros [r c] s Hy _. apply in_threads in Hy. cbn [fst snd].
    rewrite PointwiseOperations_h.
    destruct ((r >=? H) || (c >=? B)) eqn:Hg; [reflexivity|].
    apply guard_false in Hg. apply store_neq. nia.
  - intros [r c] s Hy Hne. apply in_threads in Hy. cbn [fst snd].
    rewrite PointwiseOperations_h.
    destruct ((r >=? H) || (c >=? B)) eqn:Hg; [reflexivity|].
    apply guard_false in Hg. apply store_neq. intros Heq. apply Hne.
    destruct (cell_inj H j b r c); try lia. congruence.
  - intros s. cbn [fst snd]. rewrite PointwiseOperations_h.
    replace ((j >=? H) || (b >=? B)) with false
      by (symmetry; apply guard_false; lia).
    apply store_eq.
Qed.


Section Engine.

Variables relu leaky_relu : R -> R.
Variable layer_norm1 : Z -> buffer -> Z -> buffer -> Z -> buffer.

Local Abbreviation recurrent_projection := (recurrent_projection layer_norm1).
Local Abbreviation IterateInternal :=
  (IterateInternal relu leaky_relu layer_norm1).
Local Abbreviation Run_step := (Run_step relu leaky_relu layer_norm1).
Local Abbreviation Run := (Run relu leaky_relu layer_norm1).

Lemma recurrent_projection_h d u h_ tu tun m :
  h (recurrent_projection d u h_ tu tun m) = h m.
Proof. reflexivity. Qed.

Lemma recurrent_projection_v d u h_ tu tun m :
  v (recurrent_projection d u h_ tu tun m) = v m.
Proof. reflexivity. Qed.

Lemma recurrent_projection_tmp_uh d u h_ tu tun m :
  tmp_uh (recurrent_projection d u h_ tu tun m)
  = gemm CUBLAS_OP_N CUBLAS_OP_N (hidden_size d * 2) (batch_size d)
      (hidden_size d) 1 u (hidden_size d * 2) (ptr_add (h m) h_)
      (hidden_size d) 0 (tmp_uh m) tu (hidden_size d * 2).
Proof. reflexivity. Qed.

(** What [IterateInternal] launches for a supported combination. *)
Lemma IterateInternal_launch d u h_ h_out v_ tmp_wx tu tun m f :
  candidate relu leaky_relu (activation d) = Some f ->
  training d = true \/ activation d <> 2 ->
  IterateInternal d u h_ h_out v_ tmp_wx tu tun m
  = let m' := recurrent_projection d u h_ tu tun m in
    launch (pass_gridDim (batch_size d) (hidden_size d)) pass_blockDim
      (PointwiseOperations f (training d) (batch_size d) (hidden_size d)
         tmp_wx (ptr_add (tmp_uh_norm m') tun) h_ h_out v_) m'.
Proof.
  unfold ForwardPass.IterateInternal, candidate. intros Hf Hsup.
  destruct (training d) eqn:Htr;
    destruct (activation d =? 0); [injection Hf as <-; reflexivity| |
                                   injection Hf as <-; reflexivity|];
    destruct (activation d =? 1); try (injection Hf as <-; reflexivity);
    destruct (activation d =? 2) eqn:H2;
    try (injection Hf as <-; reflexivity);
    try (apply Z.eqb_eq in H2; destruct Hsup; congruence);
    destruct (activation d =? 3); try (injection Hf as <-; reflexivity);
    discriminate.
Qed.

(** What [IterateInternal] does otherwise: no kernel is launched. *)
Lemma IterateInternal_no_launch d u h_ h_out v_ tmp_wx tu tun m :
  candidate relu leaky_relu (activation d) = None
  \/ (training d = false /\ activation d = 2) ->
  IterateInternal d u h_ h_out v_ tmp_wx tu tun m
  = recurrent_projection d u h_ tu tun m.
Proof.
  unfold ForwardPass.IterateInternal, candidate. intros [Hc | [Htr H2]].
  - destruct (activation d =? 0); [discriminate|].
    destruct (activation d =? 1); [discriminate|].
    destruct (activation d =? 2); [discriminate|].
    destruct (activation d =? 3); [discriminate|].
    destruct (training d); reflexivity.
  - rewrite Htr, H2. reflexivity.
Qed.

Lemma IterateInternal_cases d u h_ h_out v_ tmp_wx tu tun m :
  IterateInternal d u h_ h_out v_ tmp_wx tu tun m
  = recurrent_projection d u h_ tu tun m
  \/ exists f,
      IterateInternal d u h_ h_out v_ tmp_wx tu tun m
      = let m' := recurrent_projection d u h_ tu tun m in
        launch (pass_gridDim (batch_size d) (hidden_size d)) pass_blockDim
          (PointwiseOperations f (training d) (batch_size d) (hidden_size d)
             tmp_wx (ptr_add (tmp_uh_norm m') tun) h_ h_out v_) m'.
Proof.
  assert (Hdec : (training d = true \/ activation d <> 2)
                 \/ (training d = false /\ activation d = 2)).
  { destruct (training d); destruct (Z.eq_dec (activation d) 2); auto. }
  destruct (candidate relu leaky_relu (activation d)) as [f|] eqn:Hc.
  - destruct Hdec as [Hsup | Hbad].
    + right. exists f. apply IterateInternal_launch; auto.
    + left. apply IterateInternal_no_launch. auto.
  - left. apply IterateInternal_no_launch. auto.
Qed.

Lemma IterateInternal_h_frame d u h_ h_out v_ tmp_wx tu tun m k :
  ~ (h_out <= k < h_out + batch_size d * hidden_size d) ->
  h (IterateInternal d u h_ h_out v_ tmp_wx tu tun m) k = h m k.
Proof.
  intros Hk.
  destruct (IterateInternal_cases d u h_ h_out v_ tmp_wx tu tun m)
    as [-> | [f ->]]; [reflexivity|].
  cbv zeta. now rewrite launch_h_frame.
Qed.

Lemma IterateInternal_tmp_uh d u h_ h_out v_ tmp_wx tu tun m :
  tmp_uh (IterateInternal d u h_ h_out v_ tmp_wx tu tun m)
  = tmp_uh (recurrent_projection d u h_ tu tun m).
Proof.
  destruct (IterateInternal_cases d u h_ h_out v_ tmp_wx tu tun m)
    as [-> | [f ->]]; [reflexivity|].
  cbv zeta. apply (launch_frame tmp_uh).
  intros. apply PointwiseOperations_tmp_uh.
Qed.

Lemma IterateInternal_v_eval d u h_ h_out v_ tmp_wx tu tun m :
  training d = false ->
  v (IterateInternal d u h_ h_out v_ tmp_wx tu tun m) = v m.
Proof.
  intros Htr.
  destruct (IterateInternal_cases d u h_ h_out v_ tmp_wx tu tun m)
    as [-> | [f ->]]; [reflexivity|].
  cbv zeta. rewrite Htr. rewrite (launch_frame v); [reflexivity|].
  intros. apply PointwiseOperations_v_eval.
Qed.

Lemma Run_step_h_out d wx u i m f b j :
  candidate relu leaky_relu (activation d) = Some f ->
  training d = true \/ activation d <> 2 ->
  0 <= b < batch_size d -> 0 <= j < hidden_size d ->
  let NH := batch_size d * hidden_size d in
  let m' := recurrent_projection d u (i * NH) (i * NH * 2) 0 m in
  h (Run_step d wx u i m) ((i + 1) * NH + (b * hidden_size d + j))
  = gate_spec f (ptr_add wx (i * NH * 2)) (ptr_add (tmp_uh_norm m') 0)
      (hidden_size d) b j (h m (i * NH + (b * hidden_size d + j))).
Proof.
  intros Hf Hsup Hb Hj NH m'. unfold ForwardPass.Run_step.
  rewrite (IterateInternal_launch _ _ _ _ _ _ _ _ _ f Hf Hsup). cbv zeta.
  fold NH. fold m'.
  rewrite launch_h_out; [reflexivity| | | |].
  - apply in_pass_grid; assumption.
  - assumption.
  - assumption.
  - left. subst NH. lia.
Qed.

Lemma Run_step_h_frame d wx u i m k :
  let NH := batch_size d * hidden_size d in
  ~ ((i + 1) * NH <= k < (i + 2) * NH) ->
  h (Run_step d wx u i m) k = h m k.
Proof.
  intros NH Hk. unfold ForwardPass.Run_step.
  apply IterateInternal_h_frame. fold NH. lia.
Qed.

(** Row 0 of [h] is never written by the scan. *)
Lemma for_up_h_row0 d wx u n m k :
  0 <= batch_size d * hidden_size d ->
  k < batch_size d * hidden_size d ->
  h (for_up n (Run_step d wx u) m) k = h m k.
Proof.
  intros HNH Hk. induction n as [|n IH]; simpl; [reflexivity|].
  rewrite Run_step_h_frame; [exact IH|]. cbv zeta. nia.
Qed.

(** Once step [t] has run, later steps leave rows [0 .. t+1] of [h] alone. *)
Lemma for_up_h_stable d wx u t n m k :
  0 <= batch_size d * hidden_size d ->
  (t <= n)%nat ->
  k < (Z.of_nat t + 1) * (batch_size d * hidden_size d) ->
  h (for_up n (Run_step d wx u) m) k = h (for_up t (Run_step d wx u) m) k.
Proof.
  intros HNH Htn Hk. induction Htn as [|n Htn IH]; [reflexivity|].
  simpl. rewrite Run_step_h_frame; [exact IH|]. cbv zeta. nia.
Qed.

Lemma for_up_v_eval d wx u n m :
  training d = false -> v (for_up n (Run_step d wx u) m) = v m.
Proof.
  intros Htr. induction n as [|n IH]; simpl; [reflexivity|].
  unfold ForwardPass.Run_step at 1. now rewrite IterateInternal_v_eval.
Qed.

(** Step [i] writes [tmp_uh] only in its own [B, 2H] region, which starts
    [i * NH * 2] elements into the array. *)
Lemma Run_step_tmp_uh_frame d wx u i m k :
  let NH := batch_size d * hidden_size d in
  ~ (i * NH * 2 <= k < i * NH * 2 + NH * 2) ->
  tmp_uh (Run_step d wx u i m) k = tmp_uh m k.
Proof.
  intros NH Hk. unfold ForwardPass.Run_step.
  rewrite IterateInternal_tmp_uh, recurrent_projection_tmp_uh.
  apply gemm_frame. intros i' j' Hi Hj. fold NH. nia.
Qed.

Lemma Run_step_tmp_uh_at d wx u i m b c :
  0 <= b < batch_size d -> 0 <= c < hidden_size d * 2 ->
  let H := hidden_size d in
  let NH := batch_size d * H in
  tmp_uh (Run_step d wx u i m) (i * NH * 2 + (c + b * (H * 2)))
  = sum_upto (Z.to_nat H)
      (fun l => u.[c + l * (H * 2)] * (h m).[i * NH + (l + b * H)])%R.
Proof.
  intros Hb Hc H NH. unfold ForwardPass.Run_step.
  rewrite IterateInternal_tmp_uh, recurrent_projection_tmp_uh.
  fold H. fold NH. rewrite gemm_at by lia.
  unfold gemm_cell, op, ptr_add. cbv zeta. lra.
Qed.

Lemma for_up_tmp_uh_stable d wx u t n m k :
  0 <= batch_size d * hidden_size d ->
  (t <= n)%nat ->
  k < Z.of_nat t * (batch_size d * hidden_size d) * 2 ->
  tmp_uh (for_up n (Run_step d wx u) m) k
  = tmp_uh (for_up t (Run_step d wx u) m) k.
Proof.
  intros HNH Htn Hk. induction Htn as [|n Htn IH]; [reflexivity|].
  simpl. rewrite Run_step_tmp_uh_frame; [exact IH|]. cbv zeta. nia.
Qed.

End Engine.

End ForwardFacts.

(** ** Values of the activations used by the concrete scenarios *)

Lemma sigmoid_0 : sigmoid 0 = (1 / 2)%R.
Proof. unfold sigmoid. rewrite Ropp_0, exp_0. lra. Qed.

Lemma tanh_0 : tanh 0 = 0%R.
Proof. unfold tanh. rewrite sinh_0. unfold Rdiv. ring. Qed.

Lemma sum_upto_zero n f : (forall l, f l = 0%R) -> sum_upto n f = 0%R.
Proof.
  intros Hf. induction n as [|n IH]; simpl; [reflexivity|].
  rewrite IH, Hf. lra.
Qed.

(** * The forward pass *)

(** C1.  Every gate kernel of the forward pass, launched with the
    configuration and the pointers of time step [i], writes
    [h_out[b,j] = z * h_prev[b,j] + (1 - z) * f(a)] for every [b < B] and
    [j < H], with [z = sigmoid(wx_z + uh_z)] from slot 1 and
    [a = wx_a + uh_a] from slot 0; so does every time step whose
    activation id and training flag launch a kernel, on that step's input
    projection and normalised recurrent projection; and for T = B = H = 1,
    tanh, wx = [0,0], u = [[0,0]], h_init = [2] (with a normalisation that
    maps a zero projection to zero) the returned h_1 is 1. *)
Theorem C1_forward_gate :
  (forall (relu leaky_relu : R -> R) kernel f,
      In (kernel, f)
        [(ForwardPass.PointwiseOperationsReLU relu, relu);
         (ForwardPass.PointwiseOperationsLeakyReLU leaky_relu, leaky_relu);
         (ForwardPass.PointwiseOperationsSin, sin);
         (ForwardPass.PointwiseOperationsTanh, tanh)] ->
      forall (Training : bool) (B H i v_ : Z) (wx uh : buffer)
             (m : ForwardPass.mem) (b j : Z),
        0 <= b < B -> 0 <= j < H ->
        let NH := B * H in
        ForwardPass.h
          (launch (pass_gridDim B H) pass_blockDim
             (kernel Training B H wx uh (i * NH) ((i + 1) * NH) v_) m)
          ((i + 1) * NH + (b * H + j))
        = gate_spec f wx uh H b j (ForwardPass.h m (i * NH + (b * H + j))))
  /\ (forall (relu leaky_relu : R -> R) layer_norm1 d wx u i m f b j,
        candidate relu leaky_relu (ForwardPass.activation d) = Some f ->
        ForwardPass.training d = true \/ ForwardPass.activation d <> 2 ->
        0 <= b < ForwardPass.batch_size d ->
        0 <= j < ForwardPass.hidden_size d ->
        let H := ForwardPass.hidden_size d in
        let NH := ForwardPass.batch_size d * H in
        let uh :=
          ForwardPass.tmp_uh_norm
            (ForwardPass.recurrent_projection layer_norm1 d u (i * NH)
               (i * NH * 2) 0 m) in
        ForwardPass.h
          (ForwardPass.Run_step relu leaky_relu layer_norm1 d wx u i m)
          ((i + 1) * NH + (b * H + j))
        = gate_spec f (ptr_add wx (i * NH * 2)) (ptr_add uh 0) H b j
            (ForwardPass.h m (i * NH + (b * H + j))))
  /\ (forall (relu leaky_relu : R -> R) layer_norm1 convert tmp_uh_norm0
             uninit_output uninit_cache training ty,
        (forall x y, x 0 = 0%R -> x 1 = 0%R ->
                     layer_norm1 1 x 0 y 0 0 = 0%R
                     /\ layer_norm1 1 x 0 y 0 1 = 0%R) ->
        let wx := Pytorch.MkTensor [1; 1; 2] ty (fun _ => 0%R) in
        let u := Pytorch.MkTensor [1; 2] ty (fun _ => 0%R) in
        let h_init := Pytorch.MkTensor [1; 1] ty (fun _ => 2%R) in
        Pytorch.data
          (fst (Pytorch.ligru_1_0_forward convert
                  (Pytorch.ligru_2_0_engine relu leaky_relu layer_norm1
                     tmp_uh_norm0)
                  uninit_output uninit_cache training wx h_init u 3)) 1
        = 1%R).
Proof.
  split; [|split].
  - intros relu leaky_relu kernel f Hin Training B H i v_ wx uh m b j Hb Hj NH.
    assert (Hk : kernel = ForwardPass.PointwiseOperations f).
    { simpl in Hin.
      destruct Hin as [E|[E|[E|[E|[]]]]]; inversion E; reflexivity. }
    subst kernel. apply ForwardFacts.launch_h_out.
    + apply in_pass_grid; assumption.
    + assumption.
    + assumption.
    + left. subst NH. lia.
  - intros relu leaky_relu layer_norm1 d wx u i m f b j Hf Hsup Hb Hj H NH uh.
    apply (ForwardFacts.Run_step_h_out relu leaky_relu layer_norm1 d wx u i m
             f b j Hf Hsup Hb Hj).
  - intros relu leaky_relu layer_norm1 convert tun0 uo uc training ty Hln wx
           u h_init.
    unfold Pytorch.ligru_1_0_forward, Pytorch.ligru_2_0_engine.
    cbn [fst snd Pytorch.data Pytorch.with_data Pytorch.size Pytorch.sizes nth
         wx u h_init Pytorch.scalar_type].
    unfold ForwardPass.Run. change (Z.to_nat 1) with 1%nat.
    cbn [for_up Z.of_nat].
    set (d := ForwardPass.Data training 1 0 1 3).
    set (m0 := ForwardPass.Mem _ _ _ _).
    pose proof (ForwardFacts.Run_step_h_out relu leaky_relu layer_norm1 d
                  (fun _ => 0%R) (fun _ => 0%R) 0 m0 tanh 0 0) as Hstep.
    cbn [ForwardPass.activation ForwardPass.training ForwardPass.batch_size
         ForwardPass.hidden_size d] in Hstep.
    specialize (Hstep eq_refl). cbv zeta in Hstep.
    change ((0 + 1) * (1 * 1) + (0 * 1 + 0)) with 1 in Hstep.
    rewrite Hstep; [| right; lia | lia | lia]. clear Hstep.
    unfold gate_spec. cbv zeta. unfold ptr_add.
    change (0 * (1 * 1) + (0 * 1 + 0)) with 0.
    change (0 + (0 * (2 * 1) + 1 * 1 + 0)) with 1.
    change (0 + (0 * (2 * 1) + 0 * 1 + 0)) with 0.
    change (0 * (1 * 1) * 2 + (0 * (2 * 1) + 1 * 1 + 0)) with 1.
    change (0 * (1 * 1) * 2 + (0 * (2 * 1) + 0 * 1 + 0)) with 0.
    change (0 * (1 * 1) * 2) with 0.
    unfold ForwardPass.recurrent_projection.
    cbn [ForwardPass.tmp_uh_norm ForwardPass.set_tmp_uh_norm
         ForwardPass.tmp_uh ForwardPass.set_tmp_uh ForwardPass.batch_size
         ForwardPass.hidden_size d].
    set (proj := gemm _ _ _ _ _ _ _ _ _ _ _ _ _ _).
    assert (Hp0 : proj (0 + (0 + 0 * (1 * 2))) = 0%R).
    { subst proj. rewrite gemm_at by lia. unfold gemm_cell. cbv zeta.
      rewrite sum_upto_zero; [lra|]. intros l. simpl. lra. }
    assert (Hp1 : proj (0 + (1 + 0 * (1 * 2))) = 0%R).
    { subst proj. rewrite gemm_at by lia. unfold gemm_cell. cbv zeta.
      rewrite sum_upto_zero; [lra|]. intros l. simpl. lra. }
    destruct (Hln proj (ForwardPass.tmp_uh_norm m0) Hp0 Hp1) as [-> ->].
    assert (Hh0 : ForwardPass.h m0 0 = 2%R).
    { subst m0. cbn [ForwardPass.h]. unfold Pytorch.assign_row0.
      cbn [Pytorch.data Pytorch.with_data Pytorch.empty Pytorch.size
           Pytorch.sizes Pytorch.scalar_type nth].
      destruct ty; reflexivity. }
    rewrite Hh0.
    rewrite Rplus_0_l, sigmoid_0, tanh_0. lra.
Qed.

Lemma C1_forward_gate_witness :
  let relu := fun x : R => Rmax 0 x in
  let leaky_relu := fun x : R => x in
  let layer_norm1 :=
    fun (_ : Z) (x : buffer) (_ : Z) (_ : buffer) (_ : Z) => x in
  let zero : buffer := fun _ => 0%R in
  let m := ForwardPass.Mem zero zero zero zero in
  (ForwardPass.h
     (launch (pass_gridDim 2 3) pass_blockDim
        (ForwardPass.PointwiseOperationsTanh true 2 3 zero zero (1 * (2 * 3))
           ((1 + 1) * (2 * 3)) 0) m)
     ((1 + 1) * (2 * 3) + (1 * 3 + 2))
   = gate_spec tanh zero zero 3 1 2
       (ForwardPass.h m (1 * (2 * 3) + (1 * 3 + 2))))
  /\ (let d := ForwardPass.Data false 2 0 3 1 in
      ForwardPass.h
        (ForwardPass.Run_step relu leaky_relu layer_norm1 d zero zero 1 m)
        ((1 + 1) * (2 * 3) + (1 * 3 + 2))
      = gate_spec leaky_relu (ptr_add zero (1 * (2 * 3) * 2))
          (ptr_add
             (ForwardPass.tmp_uh_norm
                (ForwardPass.recurrent_projection layer_norm1 d zero
                   (1 * (2 * 3)) (1 * (2 * 3) * 2) 0 m)) 0)
          3 1 2 (ForwardPass.h m (1 * (2 * 3) + (1 * 3 + 2))))
  /\ Pytorch.data
       (fst (Pytorch.ligru_1_0_forward (fun _ _ x => x)
               (Pytorch.ligru_2_0_engine relu leaky_relu layer_norm1 zero)
               zero zero true
               (Pytorch.MkTensor [1; 1; 2] Float (fun _ => 0%R))
               (Pytorch.MkTensor [1; 1] Float (fun _ => 2%R))
               (Pytorch.MkTensor [1; 2] Float (fun _ => 0%R)) 3)) 1
     = 1%R.
Proof.
  intros relu leaky_relu layer_norm1 zero m.
  destruct C1_forward_gate as [Hkernel [Hstep Hscenario]].
  split; [|split].
  - apply (Hkernel relu leaky_relu ForwardPass.PointwiseOperationsTanh tanh).
    + simpl. auto.
    + lia.
    + lia.
  - apply (Hstep relu leaky_relu layer_norm1
             (ForwardPass.Data false 2 0 3 1) zero zero 1 m leaky_relu 1 2).
    + reflexivity.
    + right. simpl. lia.
    + simpl. lia.
    + simpl. lia.
  - apply (Hscenario relu leaky_relu layer_norm1 (fun _ _ x => x) zero zero
             zero true Float).
    intros x y Hx0 Hx1. split; assumption.
Defined.

(** C5.  With [activation_id = 2] (sin) and [training = false] the forward
    step launches no gate kernel: the whole hidden-state array, and in
    particular row [t+1], is left as it was.  (For the other seven
    combinations the kernel is launched and writes the full grid, see
    [C1_forward_gate].) *)
Theorem C5_sin_inference_not_launched :
  forall (relu leaky_relu : R -> R) layer_norm1 B input H wx u i m T,
    let d := ForwardPass.Data false B input H 2 in
    ForwardPass.h (ForwardPass.Run_step relu leaky_relu layer_norm1 d wx u i m)
    = ForwardPass.h m
    /\ ForwardPass.h (ForwardPass.Run relu leaky_relu layer_norm1 d T wx u m)
       = ForwardPass.h m.
Proof.
  intros relu leaky_relu layer_norm1 B input H wx u i m T d.
  assert (Hstep : forall i m,
             ForwardPass.h
               (ForwardPass.Run_step relu leaky_relu layer_norm1 d wx u i m)
             = ForwardPass.h m).
  { intros i' m'. unfold ForwardPass.Run_step.
    rewrite ForwardFacts.IterateInternal_no_launch; [reflexivity|].
    right. split; reflexivity. }
  split; [apply Hstep|].
  unfold ForwardPass.Run. induction (Z.to_nat T) as [|n IH]; cbn [for_up].
  - reflexivity.
  - rewrite Hstep. exact IH.
Qed.

(** C6.  A forward pass with [training = false] leaves every element of the
    gate cache [v] unchanged, whatever the activation id; the cache tensor
    returned by the entry then still holds what it held when allocated. *)
Theorem C6_cache_untouched_in_inference :
  forall (relu leaky_relu : R -> R) layer_norm1 B input H act T wx u m
         convert tmp_uh_norm0 uninit_output uninit_cache wxt h_init ut,
    ForwardPass.v
      (ForwardPass.Run relu leaky_relu layer_norm1
         (ForwardPass.Data false B input H act) T wx u m)
    = ForwardPass.v m
    /\ Pytorch.data
         (snd (Pytorch.ligru_1_0_forward convert
                 (Pytorch.ligru_2_0_engine relu leaky_relu layer_norm1
                    tmp_uh_norm0)
                 uninit_output uninit_cache false wxt h_init ut act))
       = uninit_cache.
Proof.
  intros. split.
  - apply ForwardFacts.for_up_v_eval. reflexivity.
  - unfold Pytorch.ligru_1_0_forward, Pytorch.ligru_2_0_engine.
    cbn [snd Pytorch.data Pytorch.with_data].
    unfold ForwardPass.Run. rewrite ForwardFacts.for_up_v_eval; reflexivity.
Qed.

(** Row 0 after [output[0] = src] for a [src] of the shape and element
    type of that row. *)
Lemma assign_row0_row convert output src T1 B H k :
  Pytorch.sizes output = [T1; B; H] ->
  Pytorch.sizes src = [B; H] ->
  Pytorch.scalar_type src = Pytorch.scalar_type output ->
  0 <= B -> 0 <= k < B * H ->
  (Pytorch.data (Pytorch.assign_row0 convert output src)).[k]
  = (Pytorch.data src).[k].
Proof.
  intros Ho Hs Hty HB Hk. unfold Pytorch.assign_row0, Pytorch.size.
  rewrite Ho, Hs, Hty.
  cbn [Pytorch.data Pytorch.with_data nth Pytorch.broadcast_index].
  replace (scalar_t_eqb (Pytorch.scalar_type output)
             (Pytorch.scalar_type output)) with true
    by (destruct (Pytorch.scalar_type output); reflexivity).
  replace ((0 <=? k) && (k <? B * H)) with true
    by (symmetry; apply andb_true_iff;
        split; [apply Z.leb_le | apply Z.ltb_lt]; lia).
  assert (HH : 0 < H) by nia.
  pose proof (Z.div_mod k H ltac:(lia)) as Hdm.
  pose proof (Z.mod_pos_bound k H HH) as Hm.
  f_equal.
  destruct (Z.eqb_spec B 1) as [EB|EB]; destruct (Z.eqb_spec H 1) as [EH|EH].
  - subst. lia.
  - subst B. rewrite Z.mod_small by lia. lia.
  - subst H. lia.
  - lia.
Qed.

(** C7.  For non-negative T, B, H and an [h_init] of shape [B, H] and of the
    element type of [wx]:
    the forward entry returns a sequence of shape [T+1, B, H], which is what
    its engine leaves in the array that the entry prepared, and row 0 of
    that array is [h_init], element for element, before the engine starts
    (so it is row 0 of the result for an engine that does not write row 0);
    the ligru_2_0 engine of src/, run on that array, leaves row 0 as it is,
    and row [t+1] of its result is what step [t] wrote into its output row
    (no later step touches it), which for an activation id and training
    flag that launch a kernel is the gate equation applied to row [t] of
    the result. *)
Theorem C7_hidden_sequence :
  forall (relu leaky_relu : R -> R) layer_norm1 convert
         (engine : bool -> Z -> Z -> Z -> Z -> Z -> buffer -> buffer ->
                   buffer -> buffer -> buffer -> buffer * buffer)
         uninit_output uninit_cache training (wx h_init u : Pytorch.Tensor)
         act (cache tmp_uh tmp_uh_norm : buffer),
    let T := Pytorch.size wx 0 in
    let B := Pytorch.size wx 1 in
    let H := Pytorch.size h_init 1 in
    let NH := B * H in
    0 <= T -> 0 <= B -> 0 <= H ->
    Pytorch.sizes h_init = [B; H] ->
    Pytorch.scalar_type h_init = Pytorch.scalar_type wx ->
    (* the array that the entry hands to its engine, and what it returns *)
    let prepared :=
      Pytorch.assign_row0 convert
        (Pytorch.empty uninit_output [T + 1; B; H] (Pytorch.scalar_type wx))
        h_init in
    let out :=
      fst (Pytorch.ligru_1_0_forward convert engine uninit_output
             uninit_cache training wx h_init u act) in
    (* the ligru_2_0 engine on that array *)
    let d := ForwardPass.Data training B 0 H act in
    let m0 :=
      ForwardPass.Mem (Pytorch.data prepared) cache tmp_uh tmp_uh_norm in
    let after t :=
      ForwardPass.Run relu leaky_relu layer_norm1 d t (Pytorch.data wx)
        (Pytorch.data u) m0 in
    let seq := ForwardPass.h (after T) in
    Pytorch.sizes out = [T + 1; B; H]
    /\ Pytorch.data out
       = fst (engine training B 0 H act T (Pytorch.data wx) (Pytorch.data u)
                (Pytorch.data prepared) uninit_cache (fun _ => 0%R))
    /\ (forall k, 0 <= k < NH ->
                  (Pytorch.data prepared).[k] = (Pytorch.data h_init).[k])
    /\ ((forall k, 0 <= k < NH ->
                   (Pytorch.data out).[k] = (Pytorch.data prepared).[k]) ->
        forall k, 0 <= k < NH ->
                  (Pytorch.data out).[k] = (Pytorch.data h_init).[k])
    /\ (forall k, 0 <= k < NH -> seq.[k] = (Pytorch.data h_init).[k])
    /\ (forall t k, 0 <= t < T -> (t + 1) * NH <= k < (t + 2) * NH ->
          seq.[k]
          = (ForwardPass.h
               (ForwardPass.Run_step relu leaky_relu layer_norm1 d
                  (Pytorch.data wx) (Pytorch.data u) t (after t))).[k])
    /\ (forall f t b j,
          candidate relu leaky_relu act = Some f ->
          training = true \/ act <> 2 ->
          0 <= t < T -> 0 <= b < B -> 0 <= j < H ->
          let uh :=
            ForwardPass.tmp_uh_norm
              (ForwardPass.recurrent_projection layer_norm1 d
                 (Pytorch.data u) (t * NH) (t * NH * 2) 0 (after t)) in
          seq.[(t + 1) * NH + (b * H + j)]
          = gate_spec f (ptr_add (Pytorch.data wx) (t * NH * 2))
              (ptr_add uh 0) H b j seq.[t * NH + (b * H + j)]).
Proof.
  intros relu leaky_relu layer_norm1 convert engine uo uc training wx h_init u
         act cache tmp_uh tun T B H NH HT HB HH Hshape Hty prepared out d m0
         after seq.
  assert (HNH : 0 <= ForwardPass.batch_size d * ForwardPass.hidden_size d)
    by (simpl; nia).
  assert (Hprep : forall k, 0 <= k < NH ->
            (Pytorch.data prepared).[k] = (Pytorch.data h_init).[k]).
  { intros k Hk. unfold prepared.
    apply (assign_row0_row convert _ h_init (T + 1) B H k);
      [reflexivity | exact Hshape | exact Hty | exact HB | exact Hk]. }
  assert (Hseq : seq
                 = ForwardPass.h
                     (for_up (Z.to_nat T)
                        (ForwardPass.Run_step relu leaky_relu layer_norm1 d
                           (Pytorch.data wx) (Pytorch.data u)) m0))
    by reflexivity.
  assert (Hrow : forall t k, 0 <= t < T -> k < (t + 2) * NH ->
            seq.[k]
            = (ForwardPass.h
                 (ForwardPass.Run_step relu leaky_relu layer_norm1 d
                    (Pytorch.data wx) (Pytorch.data u) t (after t))).[k]).
  { intros t k Ht Hk. rewrite Hseq.
    rewrite (ForwardFacts.for_up_h_stable relu leaky_relu layer_norm1 d _ _
               (S (Z.to_nat t)) (Z.to_nat T)); [| exact HNH | lia |].
    - cbn [for_up]. rewrite Z2Nat.id by lia. reflexivity.
    - cbn [ForwardPass.batch_size ForwardPass.hidden_size d]. fold NH. lia. }
  split; [reflexivity|]. split; [reflexivity|]. split; [exact Hprep|].
  split; [|split; [|split]].
  - intros Hframe k Hk. rewrite Hframe by exact Hk. now apply Hprep.
  - intros k Hk. rewrite Hseq.
    rewrite ForwardFacts.for_up_h_row0;
      [| exact HNH | cbn [ForwardPass.batch_size ForwardPass.hidden_size d];
                     fold NH; lia].
    cbn [m0 ForwardPass.h]. now apply Hprep.
  - intros t k Ht Hk. apply Hrow; lia.
  - intros f t b j Hf Hsup Ht Hb Hj uh.
    rewrite (Hrow t) by (try lia; nia).
    pose proof (ForwardFacts.Run_step_h_out relu leaky_relu layer_norm1 d
                  (Pytorch.data wx) (Pytorch.data u) t (after t) f b j)
      as Hstep.
    cbn [ForwardPass.activation ForwardPass.training ForwardPass.batch_size
         ForwardPass.hidden_size d] in Hstep.
    specialize (Hstep Hf Hsup Hb Hj). cbv zeta in Hstep. fold NH in Hstep.
    rewrite Hstep. fold uh. f_equal.
    (* row t of the result is row t of the memory before step t *)
    rewrite Hseq.
    rewrite (ForwardFacts.for_up_h_stable relu leaky_relu layer_norm1 d _ _
               (Z.to_nat t) (Z.to_nat T)); [reflexivity | exact HNH | lia |].
    cbn [ForwardPass.batch_size ForwardPass.hidden_size d]. fold NH.
    rewrite Z2Nat.id by lia. nia.
Qed.

Lemma C7_hidden_sequence_witness :
  let relu := fun x : R => Rmax 0 x in
  let leaky_relu := fun x : R => x in
  let layer_norm1 :=
    fun (_ : Z) (x : buffer) (_ : Z) (_ : buffer) (_ : Z) => x in
  let convert := fun (_ _ : scalar_t) (x : R) => x in
  let zero : buffer := fun _ => 0%R in
  let wx := Pytorch.MkTensor [2; 2; 6] Float zero in
  let h_init := Pytorch.MkTensor [2; 3] Float (fun k => IZR k) in
  let u := Pytorch.MkTensor [3; 6] Float zero in
  let prepared :=
    Pytorch.assign_row0 convert (Pytorch.empty zero [2 + 1; 2; 3] Float)
      h_init in
  let d := ForwardPass.Data true 2 0 3 3 in
  let m0 := ForwardPass.Mem (Pytorch.data prepared) zero zero zero in
  (ForwardPass.h
     (ForwardPass.Run relu leaky_relu layer_norm1 d 2 zero zero m0)).[5]
  = IZR 5.
Proof.
  intros relu leaky_relu layer_norm1 convert zero wx h_init u prepared d m0.
  pose proof (C7_hidden_sequence relu leaky_relu layer_norm1 convert
                (fun _ _ _ _ _ _ _ _ out cache _ => (out, cache)) zero zero
                true wx h_init u 3 zero zero zero) as Hx.
  cbv zeta in Hx.
  assert (HT : 0 <= Pytorch.size wx 0) by (cbn; lia).
  assert (HB : 0 <= Pytorch.size wx 1) by (cbn; lia).
  assert (HH : 0 <= Pytorch.size h_init 1) by (cbn; lia).
  destruct (Hx HT HB HH eq_refl eq_refl) as [_ [_ [_ [_ [Hrow0 _]]]]].
  apply (Hrow0 5). cbn. lia.
Defined.

(** C8, as stated, fails: with T = 2 and B = H = 1 the pass does not confine
    its writes to the first [B, 2H] = 2 elements of [tmp_uh]; step 1 puts
    its projection at elements 2 and 3. *)
Lemma C8_tmp_uh_counterexample :
  let relu := fun x : R => x in
  let leaky_relu := fun x : R => x in
  let layer_norm1 :=
    fun (_ : Z) (x : buffer) (_ : Z) (_ : buffer) (_ : Z) => x in
  let zero : buffer := fun _ => 0%R in
  let one : buffer := fun _ => 1%R in
  let d := ForwardPass.Data false 1 0 1 0 in
  let m := ForwardPass.Mem zero zero one zero in
  ~ (forall k, ~ (0 <= k < 1 * (2 * 1)) ->
               (ForwardPass.tmp_uh
                  (ForwardPass.Run relu leaky_relu layer_norm1 d 2 zero zero
                     m)).[k]
               = (ForwardPass.tmp_uh m).[k]).
Proof.
  intros relu leaky_relu layer_norm1 zero one d m Hsame.
  specialize (Hsame 2 ltac:(lia)).
  unfold ForwardPass.Run in Hsame. change (Z.to_nat 2) with 2%nat in Hsame.
  cbn [for_up Z.of_nat Pos.of_succ_nat] in Hsame.
  pose proof (ForwardFacts.Run_step_tmp_uh_at relu leaky_relu layer_norm1 d
                zero zero 1
                (ForwardPass.Run_step relu leaky_relu layer_norm1 d zero zero
                   0 m) 0 0) as Hat.
  cbn [ForwardPass.batch_size ForwardPass.hidden_size d] in Hat.
  specialize (Hat ltac:(lia) ltac:(lia)). cbv zeta in Hat.
  change (1 * (1 * 1) * 2 + (0 + 0 * (1 * 2))) with 2 in Hat.
  rewrite Hat in Hsame.
  rewrite sum_upto_zero in Hsame by (intros l; unfold zero; lra).
  cbn [ForwardPass.tmp_uh m] in Hsame. unfold one in Hsame. lra.
Qed.

(** C8, amended.  [tmp_uh] holds one [B, 2H] region per time step: step [i]
    writes only the region that starts [i * B * 2H] elements into the array,
    and after a pass of T steps the region of step [t] still holds that
    step's recurrent projection [U^T h_t] of row [t] of the hidden-state
    sequence. *)
Theorem C8_tmp_uh_per_step :
  forall (relu leaky_relu : R -> R) layer_norm1 d wx u,
    let B := ForwardPass.batch_size d in
    let H := ForwardPass.hidden_size d in
    let NH := B * H in
    (forall i m k,
        ~ (i * (NH * 2) <= k < (i + 1) * (NH * 2)) ->
        (ForwardPass.tmp_uh
           (ForwardPass.Run_step relu leaky_relu layer_norm1 d wx u i m)).[k]
        = (ForwardPass.tmp_uh m).[k])
    /\ (forall T m t b c,
          0 <= B -> 0 <= H ->
          0 <= t < T -> 0 <= b < B -> 0 <= c < 2 * H ->
          let final :=
            ForwardPass.Run relu leaky_relu layer_norm1 d T wx u m in
          (ForwardPass.tmp_uh final).[t * (NH * 2) + (b * (2 * H) + c)]
          = sum_upto (Z.to_nat H)
              (fun l => u.[l * (2 * H) + c]
                        * (ForwardPass.h final).[t * NH + (b * H + l)])%R).
Proof.
  intros relu leaky_relu layer_norm1 d wx u B H NH. split.
  - intros i m k Hk.
    apply ForwardFacts.Run_step_tmp_uh_frame. cbv zeta. fold B H NH. lia.
  - intros T m t b c HB HH Ht Hb Hc final.
    assert (HNH : 0 <= ForwardPass.batch_size d * ForwardPass.hidden_size d)
      by (fold B H; nia).
    unfold final, ForwardPass.Run.
    rewrite (ForwardFacts.for_up_tmp_uh_stable relu leaky_relu layer_norm1 d
               wx u (S (Z.to_nat t)) (Z.to_nat T));
      [| exact HNH | lia | fold B H NH; nia].
    cbn [for_up]. rewrite Z2Nat.id by lia.
    pose proof (ForwardFacts.Run_step_tmp_uh_at relu leaky_relu layer_norm1 d
                  wx u t
                  (for_up (Z.to_nat t)
                     (ForwardPass.Run_step relu leaky_relu layer_norm1 d wx u)
                     m) b c) as Hat.
    fold B H in Hat. specialize (Hat Hb ltac:(lia)). cbv zeta in Hat.
    fold NH in Hat.
    replace (t * (NH * 2) + (b * (2 * H) + c))
      with (t * NH * 2 + (c + b * (H * 2))) by lia.
    rewrite Hat. apply sum_upto_ext. intros l Hl.
    replace (c + l * (H * 2)) with (l * (2 * H) + c) by lia.
    replace (t * NH + (l + b * H)) with (t * NH + (b * H + l)) by lia.
    f_equal. symmetry.
    apply (ForwardFacts.for_up_h_stable relu leaky_relu layer_norm1 d wx u
             (Z.to_nat t) (Z.to_nat T)); [exact HNH | lia |].
    fold B H NH. rewrite Z2Nat.id by lia. nia.
Qed.

Lemma C8_tmp_uh_per_step_witness :
  let relu := fun x : R => x in
  let leaky_relu := fun x : R => x in
  let layer_norm1 :=
    fun (_ : Z) (x : buffer) (_ : Z) (_ : buffer) (_ : Z) => x in
  let zero : buffer := fun _ => 0%R in
  let one : buffer := fun _ => 1%R in
  let d := ForwardPass.Data false 1 0 1 0 in
  let m := ForwardPass.Mem zero zero one zero in
  (ForwardPass.tmp_uh
     (ForwardPass.Run_step relu leaky_relu layer_norm1 d zero zero 1 m)).[0]
  = (ForwardPass.tmp_uh m).[0]
  /\ (let final :=
        ForwardPass.Run relu leaky_relu layer_norm1 d 2 zero zero m in
      (ForwardPass.tmp_uh final).[1 * (1 * 1 * 2) + (0 * (2 * 1) + 1)]
      = sum_upto (Z.to_nat 1)
          (fun l => zero.[l * (2 * 1) + 1]
                    * (ForwardPass.h final).[1 * (1 * 1) + (0 * 1 + l)])%R).
Proof.
  intros relu leaky_relu layer_norm1 zero one d m.
  destruct (C8_tmp_uh_per_step relu leaky_relu layer_norm1 d zero zero)
    as [Hframe Hat].
  split.
  - apply (Hframe 1 m 0). simpl. lia.
  - apply (Hat 2 m 1 0 1); simpl; lia.
Defined.

(** * The backward passes *)

(** ** Launches that may abort *)

Lemma fold_left_abort {S X : Type} (k : X -> S -> outcome S) l msg :
  fold_left (fun c x => s <- c ;; k x s) l (device_assert_fail msg)
  = device_assert_fail msg.
Proof. induction l as [|x l IH]; simpl; [reflexivity | exact IH]. Qed.

Lemma launchM_ok {S : Type} g b (k : Z -> Z -> S -> outcome S)
    (k' : Z -> Z -> S -> S) m :
  (forall r c s, k r c s = Ok (k' r c s)) ->
  launchM g b k m = Ok (launch g b k' m).
Proof.
  intros Hk. unfold launchM, launch. generalize (threads g b) as l.
  intros l. revert m. induction l as [|x l IH]; intros m; simpl.
  - reflexivity.
  - rewrite Hk. apply IH.
Qed.

Lemma launchM_abort {S : Type} g b (k : Z -> Z -> S -> outcome S) msg m :
  (forall r c s, k r c s = device_assert_fail msg) ->
  threads g b <> [] ->
  launchM g b k m = device_assert_fail msg.
Proof.
  intros Hk Hne. unfold launchM.
  destruct (threads g b) as [|x l]; [contradiction|].
  simpl. rewrite Hk. apply fold_left_abort.
Qed.

Lemma pass_grid_nonempty B H :
  0 < B -> 0 < H -> threads (pass_gridDim B H) pass_blockDim <> [].
Proof.
  intros HB HH Hnil.
  pose proof (in_pass_grid H B 0 0 ltac:(lia) ltac:(lia)) as Hin.
  rewrite Hnil in Hin. exact Hin.
Qed.

Lemma for_downM_ext {S : Type} n (f g : Z -> S -> outcome S) m :
  (forall i s, 0 <= i -> f i s = g i s) -> for_downM n f m = for_downM n g m.
Proof.
  intros Hfg. revert m. induction n as [|n IH]; intros m; simpl.
  - reflexivity.
  - rewrite Hfg by lia. destruct (g (Z.of_nat n) m); simpl; auto.
Qed.

Lemma for_down_ext {S : Type} n (f g : Z -> S -> S) m :
  (forall i s, 0 <= i -> f i s = g i s) -> for_down n f m = for_down n g m.
Proof.
  intros Hfg. revert m. induction n as [|n IH]; intros m; simpl.
  - reflexivity.
  - rewrite Hfg by lia. apply IH.
Qed.

(** ** ligru_1_0 *)

Module Backward_1_0_Facts.
Import BackwardPass_1_0.

Lemma PointwiseOperations_dh d_f B H h v dhp g dwx_ r c m :
  dh (PointwiseOperations d_f B H h v dhp g dwx_ r c m) =
  if (r >=? H) || (c >=? B) then dh m
  else store (dh m) (dhp + (c * H + r))
         ((g.[c * H + r] + (dh m).[dhp + (c * H + r)])
          * v.[c * (H * 3) + r + 1 * H])%R.
Proof.
  unfold PointwiseOperations.
  destruct ((r >=? H) || (c >=? B)); reflexivity.
Qed.

Lemma PointwiseOperations_dwx d_f B H h v dhp g dwx_ r c m :
  dwx (PointwiseOperations d_f B H h v dhp g dwx_ r c m) =
  if (r >=? H) || (c >=? B) then dwx m
  else
    let dh_total := (g.[c * H + r] + (dh m).[dhp + (c * H + r)])%R in
    let z := v.[c * (H * 3) + r + 1 * H] in
    let a := v.[c * (H * 3) + r + 0 * H] in
    let hcand := v.[c * (H * 3) + r + 2 * H] in
    store
      (store (dwx m) (dwx_ + (c * (H * 2) + r + 1 * H))
         ((h.[c * H + r] - hcand) * z * ((1 - z) * dh_total))%R)
      (dwx_ + (c * (H * 2) + r + 0 * H))
      (d_f a * ((1 - z) * dh_total))%R.
Proof.
  unfold PointwiseOperations.
  destruct ((r >=? H) || (c >=? B)); reflexivity.
Qed.

Lemma PointwiseOperations_du d_f B H h v dhp g dwx_ r c m :
  du (PointwiseOperations d_f B H h v dhp g dwx_ r c m) = du m.
Proof.
  unfold PointwiseOperations.
  destruct ((r >=? H) || (c >=? B)); reflexivity.
Qed.

(** The kernel reads [grad_out] only at the cells of the grid. *)
Lemma PointwiseOperations_grad_out d_f B H h v dhp g1 g2 dwx_ r c m :
  0 <= r -> 0 <= c ->
  (forall k, 0 <= k < B * H -> g1.[k] = g2.[k]) ->
  PointwiseOperations d_f B H h v dhp g1 dwx_ r c m
  = PointwiseOperations d_f B H h v dhp g2 dwx_ r c m.
Proof.
  intros Hr Hc Hg. unfold PointwiseOperations.
  destruct ((r >=? H) || (c >=? B)) eqn:Hguard; [reflexivity|].
  apply guard_false in Hguard. rewrite (Hg (c * H + r)) by nia. reflexivity.
Qed.

(** The cells written by the launch of a generic kernel. *)
Lemma launch_dh d_f B H h v dhp g dwx_ gd bl m b j :
  In (j, b) (threads gd bl) -> 0 <= b < B -> 0 <= j < H ->
  (dh (launch gd bl (PointwiseOperations d_f B H h v dhp g dwx_) m))
    .[dhp + (b * H + j)]
  = ((g.[b * H + j] + (dh m).[dhp + (b * H + j)])
     * v.[b * (H * 3) + j + 1 * H])%R.
Proof.
  intros Hin Hb Hj. unfold launch.
  apply (fold_left_cell
           (fun rc s => PointwiseOperations d_f B H h v dhp g dwx_
                          (fst rc) (snd rc) s)
           (fun s => (dh s).[dhp + (b * H + j)])
           (fun s => (dh s).[dhp + (b * H + j)])
           (fun x => ((g.[b * H + j] + x) * v.[b * (H * 3) + j + 1 * H])%R)
           (j, b)).
  - apply NoDup_threads.
  - exact Hin.
  - intros [r c] s Hy Hne. apply in_threads in Hy. cbn [fst snd].
    rewrite PointwiseOperations_dh.
    destruct ((r >=? H) || (c >=? B)) eqn:Hg; [reflexivity|].
    apply guard_false in Hg. apply store_neq. intros Heq. apply Hne.
    destruct (cell_inj H j b r c); try lia. congruence.
  - intros [r c] s Hy Hne. apply in_threads in Hy. cbn [fst snd].
    rewrite PointwiseOperations_dh.
    destruct ((r >=? H) || (c >=? B)) eqn:Hg; [reflexivity|].
    apply guard_false in Hg. apply store_neq. intros Heq. apply Hne.
    destruct (cell_inj H j b r c); try lia. congruence.
  - intros s. cbn [fst snd]. rewrite PointwiseOperations_dh.
    replace ((j >=? H) || (b >=? B)) with false
      by (symmetry; apply guard_false; lia).
    apply store_eq.
Qed.

Lemma launch_dwx d_f B H h v dhp g dwx_ gd bl m b j :
  In (j, b) (threads gd bl) -> 0 <= b < B -> 0 <= j < H ->
  let dh_total := (g.[b * H + j] + (dh m).[dhp + (b * H + j)])%R in
  let z := v.[b * (H * 3) + j + 1 * H] in
  let a := v.[b * (H * 3) + j + 0 * H] in
  let hcand := v.[b * (H * 3) + j + 2 * H] in
  let m' := launch gd bl (PointwiseOperations d_f B H h v dhp g dwx_) m in
  (dwx m').[dwx_ + (b * (H * 2) + j + 1 * H)]
  = ((h.[b * H + j] - hcand) * z * ((1 - z) * dh_total))%R
  /\ (dwx m').[dwx_ + (b * (H * 2) + j + 0 * H)]
     = (d_f a * ((1 - z) * dh_total))%R.
Proof.
  intros Hin Hb Hj dh_total z a hcand m'. subst m'. unfold launch. split.
  - apply (fold_left_cell
             (fun rc s => PointwiseOperations d_f B H h v dhp g dwx_
                            (fst rc) (snd rc) s)
             (fun s => (dwx s).[dwx_ + (b * (H * 2) + j + 1 * H)])
             (fun s => (dh s).[dhp + (b * H + j)])
             (fun x => ((h.[b * H + j] - hcand) * z
                        * ((1 - z) * (g.[b * H + j] + x)))%R)
             (j, b)).
    + apply NoDup_threads.
    + exact Hin.
    + intros [r c] s Hy Hne. apply in_threads in Hy. cbn [fst snd].
      rewrite PointwiseOperations_dh.
      destruct ((r >=? H) || (c >=? B)) eqn:Hg; [reflexivity|].
      apply guard_false in Hg. apply store_neq. intros Heq. apply Hne.
      destruct (cell_inj H j b r c); try lia. congruence.
    + intros [r c] s Hy Hne. apply in_threads in Hy. cbn [fst snd].
      rewrite PointwiseOperations_dwx.
      destruct ((r >=? H) || (c >=? B)) eqn:Hg; [reflexivity|].
      apply guard_false in Hg. cbv zeta.
      rewrite !store_neq; [reflexivity | |].
      * intros Heq.
        destruct (cell_inj (H * 2) (j + 1 * H) b (r + 1 * H) c); try lia.
        apply Hne. f_equal; lia.
      * intros Heq.
        destruct (cell_inj (H * 2) (j + 1 * H) b (r + 0 * H) c); lia.
    + intros s. cbn [fst snd]. rewrite PointwiseOperations_dwx.
      replace ((j >=? H) || (b >=? B)) with false
        by (symmetry; apply guard_false; lia).
      cbv zeta. rewrite store_neq by lia. apply store_eq.
  - apply (fold_left_cell
             (fun rc s => PointwiseOperations d_f B H h v dhp g dwx_
                            (fst rc) (snd rc) s)
             (fun s => (dwx s).[dwx_ + (b * (H * 2) + j + 0 * H)])
             (fun s => (dh s).[dhp + (b * H + j)])
             (fun x => (d_f a * ((1 - z) * (g.[b * H + j] + x)))%R)
             (j, b)).
    + apply NoDup_threads.
    + exact Hin.
    + intros [r c] s Hy Hne. apply in_threads in Hy. cbn [fst snd].
      rewrite PointwiseOperations_dh.
      destruct ((r >=? H) || (c >=? B)) eqn:Hg; [reflexivity|].
      apply guard_false in Hg. apply store_neq. intros Heq. apply Hne.
      destruct (cell_inj H j b r c); try lia. congruence.
    + intros [r c] s Hy Hne. apply in_threads in Hy. cbn [fst snd].
      rewrite PointwiseOperations_dwx.
      destruct ((r >=? H) || (c >=? B)) eqn:Hg; [reflexivity|].
      apply guard_false in Hg. cbv zeta.
      rewrite !store_neq; [reflexivity | |].
      * intros Heq.
        destruct (cell_inj (H * 2) (j + 0 * H) b (r + 1 * H) c); lia.
      * intros Heq.
        destruct (cell_inj (H * 2) (j + 0 * H) b (r + 0 * H) c); try lia.
        apply Hne. f_equal; lia.
    + intros s. cbn [fst snd]. rewrite PointwiseOperations_dwx.
      replace ((j >=? H) || (b >=? B)) with false
        by (symmetry; apply guard_false; lia).
      cbv zeta. apply store_eq.
Qed.

Section Engine.

Variables d_relu d_leaky_relu d_tanh d_sin : R -> R.
Variable cuda_arch : Z.
Variable T : scalar_t.

Local Abbreviation fp16_overload := (fp16_overload cuda_arch T).
Local Abbreviation gate_kernel :=
  (gate_kernel d_relu d_leaky_relu d_tanh d_sin cuda_arch T).
Local Abbreviation IterateInternal :=
  (IterateInternal d_relu d_leaky_relu d_tanh d_sin cuda_arch T).
Local Abbreviation Run_step :=
  (Run_step d_relu d_leaky_relu d_tanh d_sin cuda_arch T).
Local Abbreviation Run_scan :=
  (Run_scan d_relu d_leaky_relu d_tanh d_sin cuda_arch T).
Local Abbreviation Run := (Run d_relu d_leaky_relu d_tanh d_sin cuda_arch T).
Local Abbreviation deriv := (derivative d_relu d_leaky_relu d_tanh d_sin).

(** With the generic templates selected, the dispatch launches the kernel of
    the derivative that belongs to the activation id. *)
Lemma gate_kernel_generic d h v g dh_ dwx_ m d_f :
  fp16_overload = false ->
  deriv (activation d) = Some d_f ->
  gate_kernel d h v g dh_ dwx_ m
  = Ok (launch (pass_gridDim (batch_size d) (hidden_size d)) pass_blockDim
          (PointwiseOperations d_f (batch_size d) (hidden_size d) h v dh_ g
             dwx_) m).
Proof.
  intros Hfp Hd.
  unfold BackwardPass_1_0.gate_kernel, derivative in *.
  destruct (activation d =? 0);
    [|destruct (activation d =? 1);
      [|destruct (activation d =? 2);
        [|destruct (activation d =? 3); [|discriminate]]]];
    injection Hd as <-; apply launchM_ok; intros r c s;
    unfold PointwiseOperationsReLU, PointwiseOperationsLeakyReLU,
           PointwiseOperationsSin, PointwiseOperationsTanh;
    rewrite Hfp; reflexivity.
Qed.

Lemma gate_kernel_none d h v g dh_ dwx_ m :
  deriv (activation d) = None ->
  gate_kernel d h v g dh_ dwx_ m = Ok m.
Proof.
  intros Hd. unfold BackwardPass_1_0.gate_kernel, derivative in *.
  destruct (activation d =? 0); [discriminate|].
  destruct (activation d =? 1); [discriminate|].
  destruct (activation d =? 2); [discriminate|].
  destruct (activation d =? 3); [discriminate|]. reflexivity.
Qed.

(** With the half overloads selected, the launch of any of the four kernels
    on a non-empty grid aborts. *)
Lemma gate_kernel_abort d h v g dh_ dwx_ m d_f :
  fp16_overload = true ->
  deriv (activation d) = Some d_f ->
  0 < batch_size d -> 0 < hidden_size d ->
  gate_kernel d h v g dh_ dwx_ m
  = device_assert_fail "FP16 is not supported on compute capability < 7.0.".
Proof.
  intros Hfp Hd HB HH.
  unfold BackwardPass_1_0.gate_kernel, derivative in *.
  destruct (activation d =? 0);
    [|destruct (activation d =? 1);
      [|destruct (activation d =? 2);
        [|destruct (activation d =? 3); [|discriminate]]]];
    (apply launchM_abort;
     [ intros r c s;
       unfold PointwiseOperationsReLU, PointwiseOperationsLeakyReLU,
              PointwiseOperationsSin, PointwiseOperationsTanh;
       rewrite Hfp; reflexivity
     | apply pass_grid_nonempty; assumption ]).
Qed.

Lemma gate_kernel_du d h v g dh_ dwx_ m m1 :
  gate_kernel d h v g dh_ dwx_ m = Ok m1 -> du m1 = du m.
Proof.
  destruct (fp16_overload) eqn:Hfp;
    destruct (deriv (activation d)) as [d_f|] eqn:Hd.
  - (* half overloads: either an abort or an empty grid *)
    unfold BackwardPass_1_0.gate_kernel, derivative in *.
    assert (Hk : forall k : Z -> Z -> mem -> outcome mem,
               (forall r c s, k r c s = device_assert_fail
                  "FP16 is not supported on compute capability < 7.0.") ->
               forall gd bl, launchM gd bl k m = Ok m1 -> du m1 = du m).
    { intros k Hk gd bl. unfold launchM.
      destruct (threads gd bl) as [|x l]; simpl.
      - intros E. now inversion E.
      - rewrite Hk, fold_left_abort. discriminate. }
    destruct (activation d =? 0);
      [|destruct (activation d =? 1);
        [|destruct (activation d =? 2);
          [|destruct (activation d =? 3); [|discriminate]]]];
      (apply Hk; intros r c s;
       unfold PointwiseOperationsReLU, PointwiseOperationsLeakyReLU,
              PointwiseOperationsSin, PointwiseOperationsTanh;
       rewrite Hfp; reflexivity).
  - rewrite gate_kernel_none by assumption. intros E. now inversion E.
  - rewrite (gate_kernel_generic _ _ _ _ _ _ _ d_f Hfp Hd). intros E.
    inversion E. apply (launch_frame du). intros.
    apply PointwiseOperations_du.
  - rewrite gate_kernel_none by assumption. intros E. now inversion E.
Qed.

Lemma gate_kernel_ok d h v g dh_ dwx_ m :
  fp16_overload = false -> exists m1, gate_kernel d h v g dh_ dwx_ m = Ok m1.
Proof.
  intros Hfp. destruct (deriv (activation d)) as [d_f|] eqn:Hd.
  - eexists. apply (gate_kernel_generic _ _ _ _ _ _ _ d_f Hfp Hd).
  - eexists. apply gate_kernel_none. exact Hd.
Qed.

Lemma launchM_ext {S : Type} gd bl (k1 k2 : Z -> Z -> S -> outcome S) m :
  (forall r c s, 0 <= r -> 0 <= c -> k1 r c s = k2 r c s) ->
  launchM gd bl k1 m = launchM gd bl k2 m.
Proof.
  intros Hk. unfold launchM. apply fold_left_ext_in.
  intros [r c] o Hin. apply in_threads in Hin. cbn [fst snd].
  destruct o; simpl; [apply Hk; lia | reflexivity].
Qed.

(** The dispatch reads [grad_out] only at the cells of the grid. *)
Lemma gate_kernel_grad_out d h v g1 g2 dh_ dwx_ m :
  (forall k, 0 <= k < batch_size d * hidden_size d -> g1.[k] = g2.[k]) ->
  gate_kernel d h v g1 dh_ dwx_ m = gate_kernel d h v g2 dh_ dwx_ m.
Proof.
  intros Hg. unfold BackwardPass_1_0.gate_kernel.
  destruct (activation d =? 0);
    [|destruct (activation d =? 1);
      [|destruct (activation d =? 2);
        [|destruct (activation d =? 3); [|reflexivity]]]];
    (apply launchM_ext; intros r c s Hr Hc;
     unfold PointwiseOperationsReLU, PointwiseOperationsLeakyReLU,
            PointwiseOperationsSin, PointwiseOperationsTanh;
     destruct fp16_overload; [reflexivity|]; f_equal;
     apply PointwiseOperations_grad_out; assumption).
Qed.

Lemma Run_step_grad_out d u h v g1 g2 i m :
  0 <= i ->
  (forall k, ~ (0 <= k < batch_size d * hidden_size d) -> g1.[k] = g2.[k]) ->
  Run_step d u h v g1 i m = Run_step d u h v g2 i m.
Proof.
  intros Hi Hg.
  unfold BackwardPass_1_0.Run_step, BackwardPass_1_0.IterateInternal.
  rewrite (gate_kernel_grad_out d _ _
             (ptr_add g1 ((i + 1) * (batch_size d * hidden_size d)))
             (ptr_add g2 ((i + 1) * (batch_size d * hidden_size d))));
    [reflexivity|].
  intros k Hk. unfold ptr_add. apply Hg. nia.
Qed.

Lemma Run_scan_grad_out d n u h v g1 g2 m :
  (forall k, ~ (0 <= k < batch_size d * hidden_size d) -> g1.[k] = g2.[k]) ->
  Run_scan d n u h v g1 m = Run_scan d n u h v g2 m.
Proof.
  intros Hg. unfold BackwardPass_1_0.Run_scan. apply for_downM_ext.
  intros i s Hi. apply Run_step_grad_out; assumption.
Qed.

Lemma Run_step_du d u h v g i m m1 :
  Run_step d u h v g i m = Ok m1 -> du m1 = du m.
Proof.
  unfold BackwardPass_1_0.Run_step, BackwardPass_1_0.IterateInternal.
  destruct (gate_kernel _ _ _ _ _ _ _) as [m'|msg] eqn:Hk; simpl;
    [|discriminate].
  intros E. inversion E. cbn [du recurrent_gemm set_dh].
  apply (gate_kernel_du _ _ _ _ _ _ _ _ Hk).
Qed.

Lemma Run_scan_du d n u h v g m m1 :
  Run_scan d n u h v g m = Ok m1 -> du m1 = du m.
Proof.
  unfold BackwardPass_1_0.Run_scan.
  generalize (Z.to_nat n) as k. intros k. revert m.
  induction k as [|k IH]; intros m; simpl.
  - intros E. now inversion E.
  - destruct (Run_step d u h v g (Z.of_nat k) m) as [m'|msg] eqn:Hs; simpl;
      [|discriminate].
    intros E. rewrite (IH _ E). apply (Run_step_du _ _ _ _ _ _ _ _ Hs).
Qed.

Lemma Run_scan_ok d n u h v g m :
  fp16_overload = false -> exists m1, Run_scan d n u h v g m = Ok m1.
Proof.
  intros Hfp. unfold BackwardPass_1_0.Run_scan.
  generalize (Z.to_nat n) as k. intros k. revert m.
  induction k as [|k IH]; intros m; simpl.
  - eexists. reflexivity.
  - unfold BackwardPass_1_0.Run_step at 1, BackwardPass_1_0.IterateInternal.
    destruct (gate_kernel_ok d
                (ptr_add h (Z.of_nat k * (batch_size d * hidden_size d)))
                (ptr_add v (Z.of_nat k * (batch_size d * hidden_size d) * 3))
                (ptr_add g
                   ((Z.of_nat k + 1) * (batch_size d * hidden_size d)))
                0 (Z.of_nat k * (batch_size d * hidden_size d) * 2) m Hfp)
      as [m' ->].
    simpl. apply IH.
Qed.

End Engine.

End Backward_1_0_Facts.

(** ** ligru_2_0 *)

Lemma fold_left_sim {S1 S2 X : Type} (p : S2 -> S1) (f2 : S2 -> X -> S2)
    (f1 : S1 -> X -> S1) l m :
  (forall x s, In x l -> p (f2 s x) = f1 (p s) x) ->
  p (fold_left f2 l m) = fold_left f1 l (p m).
Proof.
  revert m. induction l as [|x l IH]; intros m Hsim; simpl; [reflexivity|].
  rewrite IH by (intros; apply Hsim; now right).
  rewrite Hsim by now left. reflexivity.
Qed.

Module Backward_2_0_Facts.
Import BackwardPass_2_0.

(** A thread of a ligru_2_0 kernel does to [dh] and [dwx] exactly what the
    thread of the ligru_1_0 kernel does. *)
Lemma PointwiseOperations_sim d_f B H h v dhp g dwx_ r c m :
  gradients_of (PointwiseOperations d_f B H h v dhp g dwx_ r c m)
  = BackwardPass_1_0.PointwiseOperations d_f B H h v dhp g dwx_ r c
      (gradients_of m).
Proof.
  unfold PointwiseOperations, BackwardPass_1_0.PointwiseOperations.
  destruct ((r >=? H) || (c >=? B)); [reflexivity|].
  unfold gradients_of, set_dwx, set_dh, BackwardPass_1_0.set_dwx,
    BackwardPass_1_0.set_dh. cbv zeta.
  cbn [dwx du dh BackwardPass_1_0.dwx BackwardPass_1_0.du BackwardPass_1_0.dh].
  f_equal. f_equal; [f_equal|]; ring.
Qed.

Lemma launch_sim d_f B H h v dhp g dwx_ gd bl m :
  gradients_of (launch gd bl (PointwiseOperations d_f B H h v dhp g dwx_) m)
  = launch gd bl
      (BackwardPass_1_0.PointwiseOperations d_f B H h v dhp g dwx_)
      (gradients_of m).
Proof.
  unfold launch. apply fold_left_sim.
  intros x s _. apply PointwiseOperations_sim.
Qed.

Lemma PointwiseOperations_tmp_dwx d_f B H h v dhp g dwx_ r c m :
  tmp_dwx (PointwiseOperations d_f B H h v dhp g dwx_ r c m) = tmp_dwx m.
Proof.
  unfold PointwiseOperations.
  destruct ((r >=? H) || (c >=? B)); reflexivity.
Qed.

Lemma PointwiseOperations_du_2_0 d_f B H h v dhp g dwx_ r c m :
  du (PointwiseOperations d_f B H h v dhp g dwx_ r c m) = du m.
Proof.
  unfold PointwiseOperations.
  destruct ((r >=? H) || (c >=? B)); reflexivity.
Qed.

Lemma PointwiseOperations_grad_out_2_0 d_f B H h v dhp g1 g2 dwx_ r c m :
  0 <= r -> 0 <= c ->
  (forall k, 0 <= k < B * H -> g1.[k] = g2.[k]) ->
  PointwiseOperations d_f B H h v dhp g1 dwx_ r c m
  = PointwiseOperations d_f B H h v dhp g2 dwx_ r c m.
Proof.
  intros Hr Hc Hg. unfold PointwiseOperations.
  destruct ((r >=? H) || (c >=? B)) eqn:Hguard; [reflexivity|].
  apply guard_false in Hguard.
  rewrite (Hg (c * H + r)) by nia. reflexivity.
Qed.

Section Engine.

Variables d_relu d_leaky_relu d_tanh d_sin : R -> R.
Variable layer_norm1 : Z -> buffer -> Z -> buffer -> Z -> buffer.

Local Abbreviation gate_kernel :=
  (gate_kernel d_relu d_leaky_relu d_tanh d_sin).
Local Abbreviation Run_step :=
  (Run_step d_relu d_leaky_relu d_tanh d_sin layer_norm1).
Local Abbreviation Run_scan :=
  (Run_scan d_relu d_leaky_relu d_tanh d_sin layer_norm1).
Local Abbreviation deriv := (derivative d_relu d_leaky_relu d_tanh d_sin).

Lemma gate_kernel_cases d h v g dh_ dwx_ m :
  match deriv (activation d) with
  | Some d_f =>
      gate_kernel d h v g dh_ dwx_ m
      = launch (pass_gridDim (batch_size d) (hidden_size d)) pass_blockDim
          (PointwiseOperations d_f (batch_size d) (hidden_size d) h v dh_ g
             dwx_) m
  | None => gate_kernel d h v g dh_ dwx_ m = m
  end.
Proof.
  unfold BackwardPass_2_0.gate_kernel, derivative.
  destruct (activation d =? 0); [reflexivity|].
  destruct (activation d =? 1); [reflexivity|].
  destruct (activation d =? 2); [reflexivity|].
  destruct (activation d =? 3); reflexivity.
Qed.

Lemma gate_kernel_du_2_0 d h v g dh_ dwx_ m :
  du (gate_kernel d h v g dh_ dwx_ m) = du m.
Proof.
  pose proof (gate_kernel_cases d h v g dh_ dwx_ m) as Hc.
  destruct (deriv (activation d)) as [d_f|]; rewrite Hc; [|reflexivity].
  apply (launch_frame du). intros. apply PointwiseOperations_du_2_0.
Qed.

Lemma gate_kernel_grad_out_2_0 d h v g1 g2 dh_ dwx_ m :
  (forall k, 0 <= k < batch_size d * hidden_size d -> g1.[k] = g2.[k]) ->
  gate_kernel d h v g1 dh_ dwx_ m = gate_kernel d h v g2 dh_ dwx_ m.
Proof.
  intros Hg.
  pose proof (gate_kernel_cases d h v g1 dh_ dwx_ m) as H1.
  pose proof (gate_kernel_cases d h v g2 dh_ dwx_ m) as H2.
  destruct (deriv (activation d)) as [d_f|]; rewrite H1, H2; [|reflexivity].
  apply launch_ext. intros r c s Hr Hc.
  apply PointwiseOperations_grad_out_2_0; assumption.
Qed.

Lemma Run_scan_grad_out_2_0 d n u h v g1 g2 m :
  (forall k, ~ (0 <= k < batch_size d * hidden_size d) -> g1.[k] = g2.[k]) ->
  Run_scan d n u h v g1 m = Run_scan d n u h v g2 m.
Proof.
  intros Hg. unfold BackwardPass_2_0.Run_scan. apply for_down_ext.
  intros i s Hi.
  unfold BackwardPass_2_0.Run_step, BackwardPass_2_0.IterateInternal.
  rewrite (gate_kernel_grad_out_2_0 d _ _
             (ptr_add g1 ((i + 1) * (batch_size d * hidden_size d)))
             (ptr_add g2 ((i + 1) * (batch_size d * hidden_size d))));
    [reflexivity|].
  intros k Hk. unfold ptr_add. apply Hg. nia.
Qed.

Lemma Run_scan_du_2_0 d n u h v g m :
  du (Run_scan d n u h v g m) = du m.
Proof.
  unfold BackwardPass_2_0.Run_scan.
  generalize (Z.to_nat n) as k. intros k. revert m.
  induction k as [|k IH]; intros m; simpl; [reflexivity|].
  rewrite IH.
  unfold BackwardPass_2_0.Run_step, BackwardPass_2_0.IterateInternal.
  cbn [du set_dh set_tmp_dwx]. apply gate_kernel_du_2_0.
Qed.

(** The dispatch of ligru_1_0, when it selects the generic templates, and
    the dispatch of ligru_2_0 do the same to [dh] and [dwx]. *)
Lemma gate_kernel_sim cuda_arch T d h v g dh_ dwx_ m :
  BackwardPass_1_0.fp16_overload cuda_arch T = false ->
  BackwardPass_1_0.gate_kernel d_relu d_leaky_relu d_tanh d_sin cuda_arch T
    (BackwardPass_1_0.Data (batch_size d) (input_size d) (hidden_size d)
       (activation d))
    h v g dh_ dwx_ (gradients_of m)
  = Ok (gradients_of (gate_kernel d h v g dh_ dwx_ m)).
Proof.
  intros Hfp.
  pose proof (gate_kernel_cases d h v g dh_ dwx_ m) as Hc.
  destruct (deriv (activation d)) as [d_f|] eqn:Hd; rewrite Hc.
  - rewrite (Backward_1_0_Facts.gate_kernel_generic d_relu d_leaky_relu
               d_tanh d_sin cuda_arch T
               (BackwardPass_1_0.Data (batch_size d) (input_size d)
                  (hidden_size d) (activation d)) _ _ _ _ _ _ d_f Hfp Hd).
    cbn [BackwardPass_1_0.batch_size BackwardPass_1_0.hidden_size].
    now rewrite launch_sim.
  - apply Backward_1_0_Facts.gate_kernel_none. exact Hd.
Qed.

End Engine.

End Backward_2_0_Facts.

(** What a thread inside the guard leaves in its three cells is
    [gate_values_1_0], resp. [gate_values_2_0], in exact arithmetic. *)
Lemma PointwiseOperations_values_1_0 d_f B H h v dhp g dwx_ r c m :
  0 <= r < H -> c < B ->
  let base := c * H + r in
  let m' := BackwardPass_1_0.PointwiseOperations d_f B H h v dhp g dwx_ r c m in
  ((BackwardPass_1_0.dh m').[dhp + base],
   (BackwardPass_1_0.dwx m').[dwx_ + (c * (H * 2) + r + 1 * H)],
   (BackwardPass_1_0.dwx m').[dwx_ + (c * (H * 2) + r + 0 * H)])
  = gate_values_1_0 Scalar.real d_f g.[base]
      (BackwardPass_1_0.dh m).[dhp + base] h.[base]
      v.[c * (H * 3) + r + 1 * H] v.[c * (H * 3) + r + 0 * H]
      v.[c * (H * 3) + r + 2 * H].
Proof.
  intros Hr Hc base m'. subst m'.
  unfold BackwardPass_1_0.PointwiseOperations, gate_values_1_0.
  replace ((r >=? H) || (c >=? B)) with false
    by (symmetry; apply guard_false; lia).
  unfold BackwardPass_1_0.set_dh, BackwardPass_1_0.set_dwx.
  cbn [BackwardPass_1_0.dh BackwardPass_1_0.dwx Scalar.add Scalar.sub
       Scalar.mul Scalar.one Scalar.real].
  fold base. rewrite !store_eq. rewrite store_neq by lia.
  rewrite store_eq. reflexivity.
Qed.

Lemma PointwiseOperations_values_2_0 d_f B H h v dhp g dwx_ r c m :
  0 <= r < H -> c < B ->
  let base := c * H + r in
  let m' := BackwardPass_2_0.PointwiseOperations d_f B H h v dhp g dwx_ r c m in
  ((BackwardPass_2_0.dh m').[dhp + base],
   (BackwardPass_2_0.dwx m').[dwx_ + (c * (H * 2) + r + 1 * H)],
   (BackwardPass_2_0.dwx m').[dwx_ + (c * (H * 2) + r + 0 * H)])
  = gate_values_2_0 Scalar.real d_f g.[base]
      (BackwardPass_2_0.dh m).[dhp + base] h.[base]
      v.[c * (H * 3) + r + 1 * H] v.[c * (H * 3) + r + 0 * H]
      v.[c * (H * 3) + r + 2 * H].
Proof.
  intros Hr Hc base m'. subst m'.
  unfold BackwardPass_2_0.PointwiseOperations, gate_values_2_0.
  replace ((r >=? H) || (c >=? B)) with false
    by (symmetry; apply guard_false; lia).
  unfold BackwardPass_2_0.set_dh, BackwardPass_2_0.set_dwx.
  cbn [BackwardPass_2_0.dh BackwardPass_2_0.dwx Scalar.add Scalar.sub
       Scalar.mul Scalar.one Scalar.real].
  fold base. rewrite !store_eq. rewrite store_neq by lia.
  rewrite store_eq. reflexivity.
Qed.

(** C2, as stated, fails for the element types the kernels are instantiated
    for.  In binary32 ([float]) with [z = 15099494 * 2^-24] (0.9),
    [h_prev = 1], [hcand = 0], [grad_out = 3] and a running gradient of 0
    the ligru_1_0 kernel stores [dzt = 9059699 * 2^-25] and the ligru_2_0
    kernel [dzt = 9059698 * 2^-25]; with a derivative [f'(a)] of the same
    value as [z] the two [dat] differ in the same way.  In binary64
    ([double]) with [z = 5404319552844595 * 2^-54] (0.3) the kernels store
    [dzt = 5674535530486824 * 2^-53] and [5674535530486825 * 2^-53]. *)
Lemma C2_rounded_kernels_counterexample :
  let dzt (x : spec_float * spec_float * spec_float) := snd (fst x) in
  let dat (x : spec_float * spec_float * spec_float) := snd x in
  let one32 := Scalar.one Scalar.binary32 in
  let one64 := Scalar.one Scalar.binary64 in
  let zero := S754_zero false in
  let z32 := Scalar.literal 24 128 15099494 (-24) in
  let z64 := Scalar.literal 53 1024 5404319552844595 (-54) in
  ~ (dzt (gate_values_1_0 Scalar.binary32 (fun _ => one32)
            (Scalar.literal 24 128 3 0) zero one32 z32 one32 zero)
     = dzt (gate_values_2_0 Scalar.binary32 (fun _ => one32)
              (Scalar.literal 24 128 3 0) zero one32 z32 one32 zero))
  /\ ~ (dat (gate_values_1_0 Scalar.binary32 (fun _ => z32)
               (Scalar.literal 24 128 3 0) zero one32 z32 one32 zero)
        = dat (gate_values_2_0 Scalar.binary32 (fun _ => z32)
                 (Scalar.literal 24 128 3 0) zero one32 z32 one32 zero))
  /\ ~ (dzt (gate_values_1_0 Scalar.binary64 (fun _ => one64)
               (Scalar.literal 53 1024 3 0) zero one64 z64 one64 zero)
        = dzt (gate_values_2_0 Scalar.binary64 (fun _ => one64)
                 (Scalar.literal 53 1024 3 0) zero one64 z64 one64 zero)).
Proof.
  intros dzt dat one32 one64 zero z32 z64.
  repeat split; intros E; vm_compute in E; discriminate.
Qed.

(** C2, amended.  The two kernels compute the same real-number expressions
    with the products taken in a different order.  Whatever the scalar
    arithmetic is, both leave the same running hidden gradient [dh * z].
    In exact arithmetic (rounding ignored) they also leave the same [dat]
    (slot 0 of [dwx]) and the same [dzt] (slot 1): as values
    ([gate_values_1_0] and [gate_values_2_0], which are what a thread of
    the respective kernel stores), thread by thread for any derivative, and
    for the kernel that either dispatch launches for an activation id
    (ligru_1_0 with its generic templates). *)
Theorem C2_backward_kernels_agree :
  (forall (T : Type) (A : Scalar.arithmetic T) (d_f : T -> T)
          grad_out dh_prev h z a hcand,
      fst (fst (gate_values_1_0 A d_f grad_out dh_prev h z a hcand))
      = fst (fst (gate_values_2_0 A d_f grad_out dh_prev h z a hcand)))
  /\ (forall (d_f : R -> R) grad_out dh_prev h z a hcand,
         gate_values_1_0 Scalar.real d_f grad_out dh_prev h z a hcand
         = gate_values_2_0 Scalar.real d_f grad_out dh_prev h z a hcand)
  /\ (forall (d_f : R -> R) B H h v dh_prev grad_out dwx_ row col m1 m2,
         0 <= row < H -> col < B ->
         let base := col * H + row in
         let z := v.[col * (H * 3) + row + 1 * H] in
         let a := v.[col * (H * 3) + row + 0 * H] in
         let hcand := v.[col * (H * 3) + row + 2 * H] in
         let m1' :=
           BackwardPass_1_0.PointwiseOperations d_f B H h v dh_prev grad_out
             dwx_ row col m1 in
         let m2' :=
           BackwardPass_2_0.PointwiseOperations d_f B H h v dh_prev grad_out
             dwx_ row col m2 in
         ((BackwardPass_1_0.dh m1').[dh_prev + base],
          (BackwardPass_1_0.dwx m1').[dwx_ + (col * (H * 2) + row + 1 * H)],
          (BackwardPass_1_0.dwx m1').[dwx_ + (col * (H * 2) + row + 0 * H)])
         = gate_values_1_0 Scalar.real d_f grad_out.[base]
             (BackwardPass_1_0.dh m1).[dh_prev + base] h.[base] z a hcand
         /\ ((BackwardPass_2_0.dh m2').[dh_prev + base],
             (BackwardPass_2_0.dwx m2').[dwx_ + (col * (H * 2) + row + 1 * H)],
             (BackwardPass_2_0.dwx m2').[dwx_ + (col * (H * 2) + row + 0 * H)])
            = gate_values_2_0 Scalar.real d_f grad_out.[base]
                (BackwardPass_2_0.dh m2).[dh_prev + base] h.[base] z a hcand)
  /\ (forall (d_f : R -> R) B H h v dh_prev grad_out dwx_ row col m,
         gradients_of
           (BackwardPass_2_0.PointwiseOperations d_f B H h v dh_prev grad_out
              dwx_ row col m)
         = BackwardPass_1_0.PointwiseOperations d_f B H h v dh_prev grad_out
             dwx_ row col (gradients_of m))
  /\ (forall (d_relu d_leaky_relu d_tanh d_sin : R -> R) cuda_arch T d
             h v grad_out dh_ dwx_ m,
        BackwardPass_1_0.fp16_overload cuda_arch T = false ->
        BackwardPass_1_0.gate_kernel d_relu d_leaky_relu d_tanh d_sin
          cuda_arch T
          (BackwardPass_1_0.Data (BackwardPass_2_0.batch_size d)
             (BackwardPass_2_0.input_size d) (BackwardPass_2_0.hidden_size d)
             (BackwardPass_2_0.activation d))
          h v grad_out dh_ dwx_ (gradients_of m)
        = Ok (gradients_of
                (BackwardPass_2_0.gate_kernel d_relu d_leaky_relu d_tanh
                   d_sin d h v grad_out dh_ dwx_ m))).
Proof.
  split; [reflexivity|]. split; [|split; [|split]].
  - intros. unfold gate_values_1_0, gate_values_2_0.
    cbn [Scalar.add Scalar.sub Scalar.mul Scalar.one Scalar.real].
    f_equal; [f_equal|]; ring.
  - intros d_f B H h v dhp g dwx_ r c m1 m2 Hr Hc base z a hcand m1' m2'.
    split.
    + apply PointwiseOperations_values_1_0; assumption.
    + apply PointwiseOperations_values_2_0; assumption.
  - intros. apply Backward_2_0_Facts.PointwiseOperations_sim.
  - intros. now apply Backward_2_0_Facts.gate_kernel_sim.
Qed.

Lemma C2_backward_kernels_agree_witness :
  let d_relu := fun x : R => 1%R in
  let d_sin := cos in
  let zero : buffer := fun _ => 0%R in
  let one : buffer := fun _ => 1%R in
  let m := BackwardPass_2_0.Mem zero zero zero one in
  BackwardPass_1_0.gate_kernel d_relu d_relu d_relu d_sin 600 Float
    (BackwardPass_1_0.Data 2 0 3 2) one one one 0 0 (gradients_of m)
  = Ok (gradients_of
          (BackwardPass_2_0.gate_kernel d_relu d_relu d_relu d_sin
             (BackwardPass_2_0.Data 2 0 3 2) one one one 0 0 m)).
Proof.
  intros d_relu d_sin zero one m.
  apply (proj2 (proj2 (proj2 (proj2 C2_backward_kernels_agree))) d_relu
           d_relu d_relu d_sin 600 Float (BackwardPass_2_0.Data 2 0 3 2) one
           one one 0 0 m).
  reflexivity.
Defined.

(** [IterateInternal] at any pointers (activation id in 0..3): the gate
    kernel runs first and sets, for every batch index [b] and hidden index
    [j], the running hidden gradient to [(grad_out + dh) * z], [dz] in slot 1
    and [da] in slot 0 of the [dwx] row it is given; only then is the
    recurrent-weight contribution added to the running hidden gradient. *)
Lemma backward_step_cells :
  (forall (d_relu d_leaky_relu d_tanh d_sin : R -> R) cuda_arch T d u_t h v
           grad_out dh_ dwx_ m d_f,
      BackwardPass_1_0.fp16_overload cuda_arch T = false ->
      derivative d_relu d_leaky_relu d_tanh d_sin
        (BackwardPass_1_0.activation d) = Some d_f ->
      let B := BackwardPass_1_0.batch_size d in
      let H := BackwardPass_1_0.hidden_size d in
      exists m1,
        BackwardPass_1_0.gate_kernel d_relu d_leaky_relu d_tanh d_sin cuda_arch
          T d h v grad_out dh_ dwx_ m = Ok m1
        /\ BackwardPass_1_0.IterateInternal d_relu d_leaky_relu d_tanh d_sin
             cuda_arch T d u_t h v grad_out dh_ dwx_ m
           = Ok (BackwardPass_1_0.recurrent_gemm d u_t dh_ dwx_ m1)
        /\ forall b j, 0 <= b < B -> 0 <= j < H ->
             let z := v.[b * (3 * H) + 1 * H + j] in
             let a := v.[b * (3 * H) + 0 * H + j] in
             let hcand := v.[b * (3 * H) + 2 * H + j] in
             let dh_total :=
               (grad_out.[b * H + j]
                + (BackwardPass_1_0.dh m).[dh_ + (b * H + j)])%R in
             (BackwardPass_1_0.dh m1).[dh_ + (b * H + j)] = (dh_total * z)%R
             /\ (BackwardPass_1_0.dwx m1).[dwx_ + (b * (2 * H) + 1 * H + j)]
                = ((h.[b * H + j] - hcand) * z * ((1 - z) * dh_total))%R
             /\ (BackwardPass_1_0.dwx m1).[dwx_ + (b * (2 * H) + 0 * H + j)]
                = (d_f a * ((1 - z) * dh_total))%R
             /\ (BackwardPass_1_0.dh
                   (BackwardPass_1_0.recurrent_gemm d u_t dh_ dwx_ m1))
                  .[dh_ + (b * H + j)]
                = ((BackwardPass_1_0.dh m1).[dh_ + (b * H + j)]
                   + sum_upto (Z.to_nat (2 * H))
                       (fun l => u_t.[l * H + j]
                                 * (BackwardPass_1_0.dwx m1)
                                     .[dwx_ + (b * (2 * H) + l)]))%R)
  /\ (forall (d_relu d_leaky_relu d_tanh d_sin : R -> R) layer_norm1 d u_t h
             v grad_out dh_ tmp_dwx_ dwx_ m d_f,
        derivative d_relu d_leaky_relu d_tanh d_sin
          (BackwardPass_2_0.activation d) = Some d_f ->
        let B := BackwardPass_2_0.batch_size d in
        let H := BackwardPass_2_0.hidden_size d in
        let m1 :=
          BackwardPass_2_0.gate_kernel d_relu d_leaky_relu d_tanh d_sin d h v
            grad_out dh_ dwx_ m in
        BackwardPass_2_0.IterateInternal d_relu d_leaky_relu d_tanh d_sin
          layer_norm1 d u_t h v grad_out dh_ tmp_dwx_ dwx_ m
        = (let m2 :=
             BackwardPass_2_0.set_tmp_dwx
               (layer_norm1 B (BackwardPass_2_0.dwx m1) dwx_
                  (BackwardPass_2_0.tmp_dwx m1) tmp_dwx_) m1 in
           BackwardPass_2_0.set_dh
             (gemm CUBLAS_OP_N CUBLAS_OP_N H B (H * 2) 1 u_t H
                (ptr_add (BackwardPass_2_0.tmp_dwx m2) tmp_dwx_) (H * 2) 1
                (BackwardPass_2_0.dh m2) dh_ H) m2)
        /\ forall b j, 0 <= b < B -> 0 <= j < H ->
             let z := v.[b * (3 * H) + 1 * H + j] in
             let a := v.[b * (3 * H) + 0 * H + j] in
             let hcand := v.[b * (3 * H) + 2 * H + j] in
             let dh_total :=
               (grad_out.[b * H + j]
                + (BackwardPass_2_0.dh m).[dh_ + (b * H + j)])%R in
             (BackwardPass_2_0.dh m1).[dh_ + (b * H + j)] = (dh_total * z)%R
             /\ (BackwardPass_2_0.dwx m1).[dwx_ + (b * (2 * H) + 1 * H + j)]
                = ((h.[b * H + j] - hcand) * dh_total * (z * (1 - z)))%R
             /\ (BackwardPass_2_0.dwx m1).[dwx_ + (b * (2 * H) + 0 * H + j)]
                = (d_f a * (1 - z) * dh_total)%R).
Proof.
  split.
  {
    intros d_relu d_leaky_relu d_tanh d_sin cuda_arch T d u_t h v g dh_ dwx_ m
           d_f Hfp Hd B H.
    pose proof (Backward_1_0_Facts.gate_kernel_generic d_relu d_leaky_relu
                  d_tanh d_sin cuda_arch T d h v g dh_ dwx_ m d_f Hfp Hd) as Hk.
    fold B H in Hk.
    eexists. split; [exact Hk|]. split.
    - unfold BackwardPass_1_0.IterateInternal. rewrite Hk. reflexivity.
    - intros b j Hb Hj z a hcand dh_total.
      pose proof (in_pass_grid H B j b Hj Hb) as Hin.
      pose proof (Backward_1_0_Facts.launch_dwx d_f B H h v dh_ g dwx_ _ _ m b j
                    Hin Hb Hj) as Hdwx.
      cbv zeta in Hdwx.
      replace (b * (H * 3) + j + 1 * H) with (b * (3 * H) + 1 * H + j)
        in Hdwx by lia.
      replace (b * (H * 3) + j + 0 * H) with (b * (3 * H) + 0 * H + j)
        in Hdwx by lia.
      replace (b * (H * 3) + j + 2 * H) with (b * (3 * H) + 2 * H + j)
        in Hdwx by lia.
      replace (b * (H * 2) + j + 1 * H) with (b * (2 * H) + 1 * H + j)
        in Hdwx by lia.
      replace (b * (H * 2) + j + 0 * H) with (b * (2 * H) + 0 * H + j)
        in Hdwx by lia.
      destruct Hdwx as [Hdz Hda].
      split; [|split; [exact Hdz | split; [exact Hda|]]].
      + rewrite Backward_1_0_Facts.launch_dh by assumption.
        replace (b * (H * 3) + j + 1 * H) with (b * (3 * H) + 1 * H + j) by lia.
        reflexivity.
      + unfold BackwardPass_1_0.recurrent_gemm.
        cbn [BackwardPass_1_0.dh BackwardPass_1_0.set_dh]. fold B H.
        replace (dh_ + (b * H + j)) with (dh_ + (j + b * H)) by lia.
        rewrite gemm_at by lia. unfold gemm_cell, op, ptr_add. cbv zeta.
        replace (H * 2) with (2 * H) by lia.
        rewrite (sum_upto_ext _ _
                   (fun l =>
                      (u_t.[l * H + j]
                       * (BackwardPass_1_0.dwx
                            (launch (pass_gridDim B H) pass_blockDim
                               (BackwardPass_1_0.PointwiseOperations d_f B H h
                                  v dh_ g dwx_) m))
                           .[dwx_ + (b * (2 * H) + l)])%R)).
        * lra.
        * intros l _. f_equal; f_equal; lia. }
  intros d_relu d_leaky_relu d_tanh d_sin layer_norm1 d u_t h v g dh_
         tmp_dwx_ dwx_ m d_f Hd B H m1.
  split; [reflexivity|].
  intros b j Hb Hj z a hcand dh_total.
  pose proof (Backward_2_0_Facts.gate_kernel_cases d_relu d_leaky_relu d_tanh
                d_sin d h v g dh_ dwx_ m) as Hc.
  rewrite Hd in Hc. fold m1 B H in Hc.
  assert (Hsim : gradients_of m1
                 = launch (pass_gridDim B H) pass_blockDim
                     (BackwardPass_1_0.PointwiseOperations d_f B H h v dh_ g
                        dwx_) (gradients_of m)).
  { rewrite Hc. apply Backward_2_0_Facts.launch_sim. }
  change (BackwardPass_2_0.dh m1) with (BackwardPass_1_0.dh (gradients_of m1)).
  change (BackwardPass_2_0.dwx m1)
    with (BackwardPass_1_0.dwx (gradients_of m1)).
  rewrite Hsim.
  pose proof (in_pass_grid H B j b Hj Hb) as Hin.
  pose proof (Backward_1_0_Facts.launch_dwx d_f B H h v dh_ g dwx_ _ _
                (gradients_of m) b j Hin Hb Hj) as Hdwx.
  cbv zeta in Hdwx.
  replace (b * (H * 3) + j + 1 * H) with (b * (3 * H) + 1 * H + j)
    in Hdwx by lia.
  replace (b * (H * 3) + j + 0 * H) with (b * (3 * H) + 0 * H + j)
    in Hdwx by lia.
  replace (b * (H * 3) + j + 2 * H) with (b * (3 * H) + 2 * H + j)
    in Hdwx by lia.
  replace (b * (H * 2) + j + 1 * H) with (b * (2 * H) + 1 * H + j)
    in Hdwx by lia.
  replace (b * (H * 2) + j + 0 * H) with (b * (2 * H) + 0 * H + j)
    in Hdwx by lia.
  destruct Hdwx as [Hdz Hda].
  split; [|split].
  - rewrite Backward_1_0_Facts.launch_dh by assumption.
    replace (b * (H * 3) + j + 1 * H) with (b * (3 * H) + 1 * H + j) by lia.
    reflexivity.
  - rewrite Hdz. subst z hcand dh_total. unfold gradients_of.
    cbn [BackwardPass_1_0.dh]. ring.
  - rewrite Hda. subst z a dh_total. unfold gradients_of.
    cbn [BackwardPass_1_0.dh]. ring.
Qed.

(** The single gemm over the flattened (time x batch) axis, cell by cell. *)
Lemma reduction_cell T B H (A h C : buffer) i j :
  0 <= T -> 0 <= B -> 0 <= i < 2 * H -> 0 <= j < H ->
  (gemm CUBLAS_OP_N CUBLAS_OP_T (H * 2) H (B * T) 1 A (H * 2) h H 1 C 0
     (H * 2)).[j * (2 * H) + i]
  = (C.[j * (2 * H) + i]
     + sum_upto (Z.to_nat T)
         (fun t =>
            outer_product B H (ptr_add A (t * (B * (2 * H))))
              (ptr_add h (t * (B * H))) i j))%R.
Proof.
  intros HT HB Hi Hj.
  replace (j * (2 * H) + i) with (0 + (i + j * (H * 2))) by lia.
  rewrite gemm_at by lia. unfold gemm_cell, op. cbv zeta.
  rewrite Z2Nat.inj_mul by lia. rewrite sum_upto_flatten.
  rewrite (sum_upto_ext (Z.to_nat T) _
             (fun t =>
                outer_product B H (ptr_add A (t * (B * (2 * H))))
                  (ptr_add h (t * (B * H))) i j)).
  - lra.
  - intros t _. unfold outer_product. apply sum_upto_ext. intros b _.
    unfold ptr_add. rewrite Z2Nat.id by lia. f_equal; f_equal; ring.
Qed.

(** C4.  The recurrent-weight gradient that [Run] computes with one gemm
    over the flattened (time x batch) axis is, entry by entry, the initial
    [du] plus the sum over t = 0 .. T-1 of the per-step outer products
    [dwx_t . h_t^T] (for ligru_2_0, of [tmp_dwx_t . h_t^T], the step's
    gradient after the layer-norm co-pass). *)
Theorem C4_du_reduction :
  (forall (d_relu d_leaky_relu d_tanh d_sin : R -> R) cuda_arch ty d T
          wx_t u_t h v grad_out m,
      BackwardPass_1_0.fp16_overload cuda_arch ty = false ->
      let B := BackwardPass_1_0.batch_size d in
      let H := BackwardPass_1_0.hidden_size d in
      0 <= T -> 0 <= B ->
      exists m',
        BackwardPass_1_0.Run d_relu d_leaky_relu d_tanh d_sin cuda_arch ty d
          T wx_t u_t h v grad_out m = Ok m'
        /\ forall i j, 0 <= i < 2 * H -> 0 <= j < H ->
             (BackwardPass_1_0.du m').[j * (2 * H) + i]
             = ((BackwardPass_1_0.du m).[j * (2 * H) + i]
                + sum_upto (Z.to_nat T)
                    (fun t =>
                       outer_product B H
                         (ptr_add (BackwardPass_1_0.dwx m')
                            (t * (B * (2 * H))))
                         (ptr_add h (t * (B * H))) i j))%R)
  /\ (forall (d_relu d_leaky_relu d_tanh d_sin : R -> R) layer_norm1 d T
             wx_t u_t h v grad_out m,
        let B := BackwardPass_2_0.batch_size d in
        let H := BackwardPass_2_0.hidden_size d in
        0 <= T -> 0 <= B ->
        let m' :=
          BackwardPass_2_0.Run d_relu d_leaky_relu d_tanh d_sin layer_norm1
            d T wx_t u_t h v grad_out m in
        forall i j, 0 <= i < 2 * H -> 0 <= j < H ->
          (BackwardPass_2_0.du m').[j * (2 * H) + i]
          = ((BackwardPass_2_0.du m).[j * (2 * H) + i]
             + sum_upto (Z.to_nat T)
                 (fun t =>
                    outer_product B H
                      (ptr_add (BackwardPass_2_0.tmp_dwx m')
                         (t * (B * (2 * H))))
                      (ptr_add h (t * (B * H))) i j))%R).
Proof.
  split.
  - intros d_relu d_leaky_relu d_tanh d_sin cuda_arch ty d T wx_t u_t h v g m
           Hfp B H HT HB.
    destruct (Backward_1_0_Facts.Run_scan_ok d_relu d_leaky_relu d_tanh d_sin
                cuda_arch ty d T u_t h v g m Hfp) as [m1 Hscan].
    exists (BackwardPass_1_0.Run_reduce d T h m1). split.
    + unfold BackwardPass_1_0.Run. rewrite Hscan. reflexivity.
    + intros i j Hi Hj. unfold BackwardPass_1_0.Run_reduce.
      cbn [BackwardPass_1_0.du BackwardPass_1_0.dwx BackwardPass_1_0.set_du].
      fold B H. rewrite reduction_cell by assumption.
      rewrite (Backward_1_0_Facts.Run_scan_du _ _ _ _ _ _ _ _ _ _ _ _ _ _
                 Hscan).
      reflexivity.
  - intros d_relu d_leaky_relu d_tanh d_sin layer_norm1 d T wx_t u_t h v g m
           B H HT HB m' i j Hi Hj.
    unfold m', BackwardPass_2_0.Run, BackwardPass_2_0.Run_reduce.
    cbn [BackwardPass_2_0.du BackwardPass_2_0.tmp_dwx BackwardPass_2_0.set_du].
    fold B H. rewrite reduction_cell by assumption.
    rewrite Backward_2_0_Facts.Run_scan_du_2_0. reflexivity.
Qed.

Lemma C4_du_reduction_witness :
  let d_relu := fun x : R => 1%R in
  let zero : buffer := fun _ => 0%R in
  let one : buffer := fun _ => 1%R in
  exists m',
    BackwardPass_1_0.Run d_relu d_relu d_relu d_relu 700 Half
      (BackwardPass_1_0.Data 2 0 3 0) 4 one one one one one
      (BackwardPass_1_0.Mem zero zero zero) = Ok m'
    /\ (BackwardPass_1_0.du m').[2 * (2 * 3) + 5]
       = (zero.[2 * (2 * 3) + 5]
          + sum_upto (Z.to_nat 4)
              (fun t =>
                 outer_product 2 3
                   (ptr_add (BackwardPass_1_0.dwx m') (t * (2 * (2 * 3))))
                   (ptr_add one (t * (2 * 3))) 5 2))%R.
Proof.
  intros d_relu zero one.
  destruct (proj1 C4_du_reduction d_relu d_relu d_relu d_relu 700 Half
              (BackwardPass_1_0.Data 2 0 3 0) 4 one one one one one
              (BackwardPass_1_0.Mem zero zero zero) eq_refl)
    as [m' [Hrun Hdu]].
  - lia.
  - simpl. lia.
  - exists m'. split; [exact Hrun|]. apply (Hdu 5 2); simpl; lia.
Defined.

(** C9.  For half precision on device code below compute capability 7.0,
    the launch of each of the four backward gate kernels on a non-empty
    grid ends in [device_assert_fail]; so does every backward step with an
    activation id in 0..3, and a backward pass of at least one step: no
    gradient array is produced. *)
Theorem C9_half_precision_aborts :
  forall (d_relu d_leaky_relu d_tanh d_sin : R -> R) cuda_arch,
    cuda_arch < 700 ->
    (forall kernel,
        In kernel
          [BackwardPass_1_0.PointwiseOperationsReLU d_relu cuda_arch Half;
           BackwardPass_1_0.PointwiseOperationsLeakyReLU d_leaky_relu
             cuda_arch Half;
           BackwardPass_1_0.PointwiseOperationsTanh d_tanh cuda_arch Half;
           BackwardPass_1_0.PointwiseOperationsSin d_sin cuda_arch Half] ->
        forall B H h v dh_ grad_out dwx_ m,
          0 < B -> 0 < H ->
          launchM (pass_gridDim B H) pass_blockDim
            (kernel B H h v dh_ grad_out dwx_) m
          = device_assert_fail
              "FP16 is not supported on compute capability < 7.0.")
    /\ (forall d u_t h v grad_out i m,
          0 <= BackwardPass_1_0.activation d <= 3 ->
          0 < BackwardPass_1_0.batch_size d ->
          0 < BackwardPass_1_0.hidden_size d ->
          BackwardPass_1_0.Run_step d_relu d_leaky_relu d_tanh d_sin
            cuda_arch Half d u_t h v grad_out i m
          = device_assert_fail
              "FP16 is not supported on compute capability < 7.0.")
    /\ (forall d T wx_t u_t h v grad_out m,
          0 <= BackwardPass_1_0.activation d <= 3 ->
          0 < BackwardPass_1_0.batch_size d ->
          0 < BackwardPass_1_0.hidden_size d ->
          0 < T ->
          BackwardPass_1_0.Run d_relu d_leaky_relu d_tanh d_sin cuda_arch
            Half d T wx_t u_t h v grad_out m
          = device_assert_fail
              "FP16 is not supported on compute capability < 7.0.").
Proof.
  intros d_relu d_leaky_relu d_tanh d_sin cuda_arch Harch.
  assert (Hfp : BackwardPass_1_0.fp16_overload cuda_arch Half = true).
  { unfold BackwardPass_1_0.fp16_overload. simpl.
    rewrite andb_true_r. apply Z.ltb_lt. exact Harch. }
  assert (Hderiv : forall act, 0 <= act <= 3 ->
            exists d_f,
              derivative d_relu d_leaky_relu d_tanh d_sin act = Some d_f).
  { intros act Hact. unfold derivative.
    destruct (act =? 0) eqn:E0; [eauto|].
    destruct (act =? 1) eqn:E1; [eauto|].
    destruct (act =? 2) eqn:E2; [eauto|].
    destruct (act =? 3) eqn:E3; [eauto|]. lia. }
  assert (Hstep : forall d u_t h v grad_out i m,
            0 <= BackwardPass_1_0.activation d <= 3 ->
            0 < BackwardPass_1_0.batch_size d ->
            0 < BackwardPass_1_0.hidden_size d ->
            BackwardPass_1_0.Run_step d_relu d_leaky_relu d_tanh d_sin
              cuda_arch Half d u_t h v grad_out i m
            = device_assert_fail
                "FP16 is not supported on compute capability < 7.0.").
  { intros d u_t h v g i m Hact HB HH.
    destruct (Hderiv _ Hact) as [d_f Hd].
    unfold BackwardPass_1_0.Run_step, BackwardPass_1_0.IterateInternal.
    rewrite (Backward_1_0_Facts.gate_kernel_abort d_relu d_leaky_relu d_tanh
               d_sin cuda_arch Half d _ _ _ _ _ _ d_f Hfp Hd HB HH).
    reflexivity. }
  split; [|split].
  - intros kernel Hin B H h v dh_ g dwx_ m HB HH.
    apply launchM_abort; [|apply pass_grid_nonempty; assumption].
    intros r c s. simpl in Hin.
    destruct Hin as [<-|[<-|[<-|[<-|[]]]]];
      unfold BackwardPass_1_0.PointwiseOperationsReLU,
             BackwardPass_1_0.PointwiseOperationsLeakyReLU,
             BackwardPass_1_0.PointwiseOperationsTanh,
             BackwardPass_1_0.PointwiseOperationsSin;
      rewrite Hfp; reflexivity.
  - exact Hstep.
  - intros d T wx_t u_t h v g m Hact HB HH HT.
    unfold BackwardPass_1_0.Run, BackwardPass_1_0.Run_scan.
    destruct (Z.to_nat T) as [|n] eqn:En; [lia|].
    cbn [for_downM]. rewrite Hstep by assumption. reflexivity.
Qed.

Lemma C9_half_precision_aborts_witness :
  let d_relu := fun x : R => 1%R in
  let one : buffer := fun _ => 1%R in
  BackwardPass_1_0.Run d_relu d_relu d_relu d_relu 610 Half
    (BackwardPass_1_0.Data 2 0 3 3) 4 one one one one one
    (BackwardPass_1_0.Mem one one one)
  = device_assert_fail "FP16 is not supported on compute capability < 7.0.".
Proof.
  intros d_relu one.
  destruct (C9_half_precision_aborts d_relu d_relu d_relu d_relu 610)
    as [_ [_ Hrun]].
  - lia.
  - apply Hrun; simpl; lia.
Defined.

(** C10.  The backward pass reads [grad_out] from row 1 on (row [i+1] at
    step [i]): two runs whose [grad_out] arrays agree everywhere outside
    row 0 have the same outcome, hence return the same [du], [dwx] and
    [dh]; this holds for the engines of ligru_1_0 and ligru_2_0 and for the
    backward entry. *)
Theorem C10_grad_out_row0_unread :
  (forall (d_relu d_leaky_relu d_tanh d_sin : R -> R) cuda_arch ty d T
          wx_t u_t h v g1 g2 m,
      (forall k, ~ (0 <= k < BackwardPass_1_0.batch_size d
                               * BackwardPass_1_0.hidden_size d) ->
                 g1.[k] = g2.[k]) ->
      BackwardPass_1_0.Run d_relu d_leaky_relu d_tanh d_sin cuda_arch ty d T
        wx_t u_t h v g1 m
      = BackwardPass_1_0.Run d_relu d_leaky_relu d_tanh d_sin cuda_arch ty d
          T wx_t u_t h v g2 m)
  /\ (forall (d_relu d_leaky_relu d_tanh d_sin : R -> R) layer_norm1 d T
             wx_t u_t h v g1 g2 m,
        (forall k, ~ (0 <= k < BackwardPass_2_0.batch_size d
                                 * BackwardPass_2_0.hidden_size d) ->
                   g1.[k] = g2.[k]) ->
        BackwardPass_2_0.Run d_relu d_leaky_relu d_tanh d_sin layer_norm1 d T
          wx_t u_t h v g1 m
        = BackwardPass_2_0.Run d_relu d_leaky_relu d_tanh d_sin layer_norm1
            d T wx_t u_t h v g2 m)
  /\ (forall (d_relu d_leaky_relu d_tanh d_sin : R -> R) cuda_arch
             wx u h cache grad_out1 grad_out2 act,
        (forall k, ~ (0 <= k < Pytorch.size wx 1 * (Pytorch.size wx 2 ÷ 2)) ->
                   (Pytorch.data grad_out1).[k]
                   = (Pytorch.data grad_out2).[k]) ->
        Pytorch.ligru_1_0_backward d_relu d_leaky_relu d_tanh d_sin cuda_arch
          wx u h cache grad_out1 act
        = Pytorch.ligru_1_0_backward d_relu d_leaky_relu d_tanh d_sin
            cuda_arch wx u h cache grad_out2 act).
Proof.
  assert (H1 : forall (d_relu d_leaky_relu d_tanh d_sin : R -> R) cuda_arch ty
                      d T wx_t u_t h v g1 g2 m,
             (forall k, ~ (0 <= k < BackwardPass_1_0.batch_size d
                                      * BackwardPass_1_0.hidden_size d) ->
                        g1.[k] = g2.[k]) ->
             BackwardPass_1_0.Run d_relu d_leaky_relu d_tanh d_sin cuda_arch
               ty d T wx_t u_t h v g1 m
             = BackwardPass_1_0.Run d_relu d_leaky_relu d_tanh d_sin
                 cuda_arch ty d T wx_t u_t h v g2 m).
  { intros d_relu d_leaky_relu d_tanh d_sin cuda_arch ty d T wx_t u_t h v g1
           g2 m Hg.
    unfold BackwardPass_1_0.Run.
    now rewrite (Backward_1_0_Facts.Run_scan_grad_out d_relu d_leaky_relu
                   d_tanh d_sin cuda_arch ty d T u_t h v g1 g2 m Hg). }
  split; [exact H1 | split].
  - intros d_relu d_leaky_relu d_tanh d_sin layer_norm1 d T wx_t u_t h v g1
           g2 m Hg.
    unfold BackwardPass_2_0.Run.
    now rewrite (Backward_2_0_Facts.Run_scan_grad_out_2_0 d_relu d_leaky_relu
                   d_tanh d_sin layer_norm1 d T u_t h v g1 g2 m Hg).
  - intros d_relu d_leaky_relu d_tanh d_sin cuda_arch wx u h cache grad_out1
           grad_out2 act Hg.
    unfold Pytorch.ligru_1_0_backward.
    rewrite (H1 d_relu d_leaky_relu d_tanh d_sin cuda_arch
               (Pytorch.scalar_type wx) _ _ _ _ _ _ (Pytorch.data grad_out1)
               (Pytorch.data grad_out2)); [reflexivity|].
    exact Hg.
Qed.

Lemma C10_grad_out_row0_unread_witness :
  let d_relu := fun x : R => 1%R in
  let zero : buffer := fun _ => 0%R in
  let one : buffer := fun _ => 1%R in
  let poisoned : buffer :=
    fun k => if (0 <=? k) && (k <? 2 * 3) then 7%R else 1%R in
  let d := BackwardPass_1_0.Data 2 0 3 3 in
  let m := BackwardPass_1_0.Mem zero zero zero in
  BackwardPass_1_0.Run d_relu d_relu d_relu d_relu 800 Float d 4 one one one
    one poisoned m
  = BackwardPass_1_0.Run d_relu d_relu d_relu d_relu 800 Float d 4 one one
      one one one m.
Proof.
  intros d_relu zero one poisoned d m.
  apply (proj1 C10_grad_out_row0_unread).
  intros k Hk. unfold poisoned, one. simpl in Hk.
  destruct ((0 <=? k) && (k <? 2 * 3)) eqn:E; [|reflexivity].
  apply andb_true_iff in E. destruct E as [E1 E2].
  apply Z.leb_le in E1. apply Z.ltb_lt in E2. lia.
Defined.

(** * Further properties of the forward pass *)

Module ForwardMore.
Import ForwardPass.

Lemma PointwiseOperations_v_train f B H wx uh h_ h_out v_ r c m :
  v (PointwiseOperations f true B H wx uh h_ h_out v_ r c m) =
  if (r >=? H) || (c >=? B) then v m
  else
    let z := sigmoid (wx.[c * (H * 2) + r + 1 * H]
                      + uh.[c * (H * 2) + r + 1 * H])%R in
    let a := (wx.[c * (H * 2) + r + 0 * H]
              + uh.[c * (H * 2) + r + 0 * H])%R in
    store
      (store (store (v m) (v_ + (c * (H * 3) + r + 1 * H)) z)
         (v_ + (c * (H * 3) + r + 0 * H)) a)
      (v_ + (c * (H * 3) + r + 2 * H)) (f a).
Proof.
  unfold PointwiseOperations.
  destruct ((r >=? H) || (c >=? B)); reflexivity.
Qed.

(** A thread writes [v] only inside the [B, 3H] row that starts at [v_]. *)
Lemma PointwiseOperations_v_frame f Tr B H wx uh h_ h_out v_ r c m k :
  0 <= r -> 0 <= c ->
  ~ (v_ <= k < v_ + B * H * 3) ->
  (v (PointwiseOperations f Tr B H wx uh h_ h_out v_ r c m)).[k] = (v m).[k].
Proof.
  intros Hr Hc Hk. destruct Tr.
  - rewrite PointwiseOperations_v_train.
    destruct ((r >=? H) || (c >=? B)) eqn:Hg; [reflexivity|].
    apply guard_false in Hg. cbv zeta.
    rewrite !store_neq by nia. reflexivity.
  - now rewrite ForwardFacts.PointwiseOperations_v_eval.
Qed.

Lemma launch_v_frame f Tr B H wx uh h_ h_out v_ g bl m k :
  ~ (v_ <= k < v_ + B * H * 3) ->
  (v (launch g bl (PointwiseOperations f Tr B H wx uh h_ h_out v_) m)).[k]
  = (v m).[k].
Proof.
  intros Hk. apply (launch_frame (fun s => (v s).[k])).
  intros r c s Hr Hc. now apply PointwiseOperations_v_frame.
Qed.

(** The three cache cells of (b, j) after a training launch. *)
Lemma launch_v_train f B H wx uh h_ h_out v_ g bl m b j :
  In (j, b) (threads g bl) -> 0 <= b < B -> 0 <= j < H ->
  let z := sigmoid (wx.[b * (2 * H) + 1 * H + j]
                    + uh.[b * (2 * H) + 1 * H + j])%R in
  let a := (wx.[b * (2 * H) + 0 * H + j] + uh.[b * (2 * H) + 0 * H + j])%R in
  let m' := launch g bl (PointwiseOperations f true B H wx uh h_ h_out v_) m in
  (v m').[v_ + (b * (3 * H) + 1 * H + j)] = z
  /\ (v m').[v_ + (b * (3 * H) + 0 * H + j)] = a
  /\ (v m').[v_ + (b * (3 * H) + 2 * H + j)] = f a.
Proof.
  intros Hin Hb Hj z a m'. subst m'. unfold launch.
  assert (Hcell : forall s0 val,
    (forall s, (v (PointwiseOperations f true B H wx uh h_ h_out v_ j b s))
                 .[v_ + (b * (3 * H) + s0 * H + j)] = val) ->
    0 <= s0 < 3 ->
    (v (fold_left
          (fun s rc => PointwiseOperations f true B H wx uh h_ h_out v_
                         (fst rc) (snd rc) s) (threads g bl) m))
      .[v_ + (b * (3 * H) + s0 * H + j)] = val).
  { intros s0 val Hx Hs0.
    apply (fold_left_cell
             (fun rc s => PointwiseOperations f true B H wx uh h_ h_out v_
                            (fst rc) (snd rc) s)
             (fun s => (v s).[v_ + (b * (3 * H) + s0 * H + j)])
             (fun _ => tt) (fun _ => val) (j, b)).
    - apply NoDup_threads.
    - exact Hin.
    - reflexivity.
    - intros [r c] s Hy Hne. apply in_threads in Hy. cbn [fst snd].
      rewrite PointwiseOperations_v_train.
      destruct ((r >=? H) || (c >=? B)) eqn:Hg; [reflexivity|].
      apply guard_false in Hg. cbv zeta.
      assert (Hother : forall s1, 0 <= s1 < 3 ->
                v_ + (b * (3 * H) + s0 * H + j)
                <> v_ + (c * (H * 3) + r + s1 * H)).
      { intros s1 Hs1 Heq.
        destruct (cell_inj (H * 3) (s0 * H + j) b (s1 * H + r) c);
          try nia.
        assert (s0 = s1) by nia. subst s1.
        apply Hne. f_equal; nia. }
      rewrite !store_neq; [reflexivity | | |]; apply Hother; lia.
    - intros s. cbn [fst snd]. apply Hx. }
  assert (Hg : (j >=? H) || (b >=? B) = false) by (apply guard_false; lia).
  split; [|split].
  - apply (Hcell 1); [|lia]. intros s.
    rewrite PointwiseOperations_v_train, Hg. cbv zeta.
    rewrite !store_neq by nia.
    replace (v_ + (b * (3 * H) + 1 * H + j))
      with (v_ + (b * (H * 3) + j + 1 * H)) by lia.
    rewrite store_eq. subst z.
    replace (b * (H * 2) + j + 1 * H) with (b * (2 * H) + 1 * H + j) by lia.
    reflexivity.
  - apply (Hcell 0); [|lia]. intros s.
    rewrite PointwiseOperations_v_train, Hg. cbv zeta.
    rewrite store_neq by nia.
    replace (v_ + (b * (3 * H) + 0 * H + j))
      with (v_ + (b * (H * 3) + j + 0 * H)) by lia.
    rewrite store_eq. subst a.
    replace (b * (H * 2) + j + 0 * H) with (b * (2 * H) + 0 * H + j) by lia.
    reflexivity.
  - apply (Hcell 2); [|lia]. intros s.
    rewrite PointwiseOperations_v_train, Hg. cbv zeta.
    replace (v_ + (b * (3 * H) + 2 * H + j))
      with (v_ + (b * (H * 3) + j + 2 * H)) by lia.
    rewrite store_eq. subst a.
    replace (b * (H * 2) + j + 0 * H) with (b * (2 * H) + 0 * H + j) by lia.
    reflexivity.
Qed.

Section Engine.

Variables relu leaky_relu : R -> R.
Variable layer_norm1 : Z -> buffer -> Z -> buffer -> Z -> buffer.

Local Abbreviation recurrent_projection := (recurrent_projection layer_norm1).
Local Abbreviation IterateInternal :=
  (IterateInternal relu leaky_relu layer_norm1).
Local Abbreviation Run_step := (Run_step relu leaky_relu layer_norm1).
Local Abbreviation Run := (Run relu leaky_relu layer_norm1).

Lemma IterateInternal_v_frame d u h_ h_out v_ tmp_wx tu tun m k :
  ~ (v_ <= k < v_ + batch_size d * hidden_size d * 3) ->
  (v (IterateInternal d u h_ h_out v_ tmp_wx tu tun m)).[k] = (v m).[k].
Proof.
  intros Hk.
  destruct (ForwardFacts.IterateInternal_cases relu leaky_relu layer_norm1
              d u h_ h_out v_ tmp_wx tu tun m) as [-> | [f ->]];
    [reflexivity|].
  cbv zeta. now rewrite launch_v_frame.
Qed.

Lemma Run_step_v_frame d wx u i m k :
  let NH := batch_size d * hidden_size d in
  ~ (i * (NH * 3) <= k < (i + 1) * (NH * 3)) ->
  (v (Run_step d wx u i m)).[k] = (v m).[k].
Proof.
  intros NH Hk. unfold ForwardPass.Run_step.
  apply IterateInternal_v_frame. fold NH. lia.
Qed.

Lemma Run_step_v_train d wx u i m f b j :
  training d = true ->
  candidate relu leaky_relu (activation d) = Some f ->
  0 <= b < batch_size d -> 0 <= j < hidden_size d ->
  let H := hidden_size d in
  let NH := batch_size d * H in
  let m' := recurrent_projection d u (i * NH) (i * NH * 2) 0 m in
  let wx_t := ptr_add wx (i * NH * 2) in
  let uh := ptr_add (tmp_uh_norm m') 0 in
  let z := sigmoid (wx_t.[b * (2 * H) + 1 * H + j]
                    + uh.[b * (2 * H) + 1 * H + j])%R in
  let a := (wx_t.[b * (2 * H) + 0 * H + j]
            + uh.[b * (2 * H) + 0 * H + j])%R in
  let vs := v (Run_step d wx u i m) in
  vs.[i * NH * 3 + (b * (3 * H) + 1 * H + j)] = z
  /\ vs.[i * NH * 3 + (b * (3 * H) + 0 * H + j)] = a
  /\ vs.[i * NH * 3 + (b * (3 * H) + 2 * H + j)] = f a.
Proof.
  intros Htr Hf Hb Hj H NH m' wx_t uh z a vs. subst vs.
  unfold ForwardPass.Run_step.
  rewrite (ForwardFacts.IterateInternal_launch relu leaky_relu layer_norm1
             _ _ _ _ _ _ _ _ _ f Hf (or_introl Htr)).
  cbv zeta. rewrite Htr. fold H NH m'.
  apply launch_v_train; [apply in_pass_grid| |]; assumption.
Qed.

Lemma for_up_v_stable d wx u t n m k :
  0 <= batch_size d * hidden_size d ->
  (t <= n)%nat ->
  k < Z.of_nat t * (batch_size d * hidden_size d * 3) ->
  (v (for_up n (Run_step d wx u) m)).[k]
  = (v (for_up t (Run_step d wx u) m)).[k].
Proof.
  intros HNH Htn Hk. induction Htn as [|n Htn IH]; [reflexivity|].
  simpl. rewrite Run_step_v_frame; [exact IH|]. cbv zeta. nia.
Qed.

(** The arrays outside the [n] rows that [n] steps cover are not written. *)
Lemma for_up_extents d wx u n m k :
  let NH := batch_size d * hidden_size d in
  0 <= NH ->
  (~ (NH <= k < (Z.of_nat n + 1) * NH) ->
   (h (for_up n (Run_step d wx u) m)).[k] = (h m).[k])
  /\ (~ (0 <= k < Z.of_nat n * (NH * 3)) ->
      (v (for_up n (Run_step d wx u) m)).[k] = (v m).[k])
  /\ (~ (0 <= k < Z.of_nat n * (NH * 2)) ->
      (tmp_uh (for_up n (Run_step d wx u) m)).[k] = (tmp_uh m).[k]).
Proof.
  intros NH HNH. induction n as [|n IH]; [repeat split; reflexivity|].
  destruct IH as [IHh [IHv IHu]]. cbn [for_up]. split; [|split]; intros Hk.
  - rewrite ForwardFacts.Run_step_h_frame; [apply IHh|]; cbv zeta;
      fold NH; nia.
  - rewrite Run_step_v_frame; [apply IHv|]; cbv zeta; fold NH; nia.
  - rewrite ForwardFacts.Run_step_tmp_uh_frame; [apply IHu|]; cbv zeta;
      fold NH; nia.
Qed.

End Engine.

End ForwardMore.

Lemma sigmoid_bounds x : (0 < sigmoid x < 1)%R.
Proof.
  unfold sigmoid. pose proof (exp_pos (- x)) as He.
  split.
  - apply Rdiv_lt_0_compat; lra.
  - apply (Rmult_lt_reg_r (1 + exp (- x))); [lra|].
    unfold Rdiv. rewrite Rmult_assoc, Rinv_l by lra. lra.
Qed.

(** X1.  After a training pass with an activation id in 0..3 the cache
    entry of every (t, b, j) holds the pre-activation [a] in slot 0, the
    update gate [z = sigmoid(wx_z + uh_z)] in slot 1 and [f(a)] in slot 2,
    later steps leave it alone, and the returned hidden sequence satisfies
    [h_(t+1) = z * h_t + (1 - z) * hcand] with the cached [z] and [hcand]:
    the cache is enough to replay the forward pass. *)
Theorem X1_cache_replays_forward :
  forall (relu leaky_relu : R -> R) layer_norm1 d T wx u m f t b j,
    ForwardPass.training d = true ->
    candidate relu leaky_relu (ForwardPass.activation d) = Some f ->
    let B := ForwardPass.batch_size d in
    let H := ForwardPass.hidden_size d in
    let NH := B * H in
    0 <= t < T -> 0 <= b < B -> 0 <= j < H ->
    let final := ForwardPass.Run relu leaky_relu layer_norm1 d T wx u m in
    let before :=
      ForwardPass.Run relu leaky_relu layer_norm1 d t wx u m in
    let uh :=
      ForwardPass.tmp_uh_norm
        (ForwardPass.recurrent_projection layer_norm1 d u (t * NH)
           (t * NH * 2) 0 before) in
    let a := (ForwardPass.v final).[t * (NH * 3) + (b * (3 * H) + 0 * H + j)] in
    let z := (ForwardPass.v final).[t * (NH * 3) + (b * (3 * H) + 1 * H + j)] in
    let hcand :=
      (ForwardPass.v final).[t * (NH * 3) + (b * (3 * H) + 2 * H + j)] in
    a = (wx.[t * (NH * 2) + (b * (2 * H) + 0 * H + j)]
         + uh.[b * (2 * H) + 0 * H + j])%R
    /\ z = sigmoid (wx.[t * (NH * 2) + (b * (2 * H) + 1 * H + j)]
                    + uh.[b * (2 * H) + 1 * H + j])%R
    /\ hcand = f a
    /\ (ForwardPass.h final).[(t + 1) * NH + (b * H + j)]
       = (z * (ForwardPass.h final).[t * NH + (b * H + j)]
          + (1 - z) * hcand)%R.
Proof.
  intros relu leaky_relu layer_norm1 d T wx u m f t b j Htr Hf B H NH Ht Hb Hj
         final before uh a z hcand.
  assert (HNH : 0 <= ForwardPass.batch_size d * ForwardPass.hidden_size d)
    by (fold B H; nia).
  pose proof (ForwardMore.Run_step_v_train relu leaky_relu layer_norm1 d wx u
                t before f b j Htr Hf Hb Hj) as Hv.
  cbv zeta in Hv. fold H B NH in Hv. fold uh in Hv.
  assert (Hstable : forall k, k < (t + 1) * (NH * 3) ->
            (ForwardPass.v final).[k]
            = (ForwardPass.v
                 (ForwardPass.Run_step relu leaky_relu layer_norm1 d wx u t
                    before)).[k]).
  { intros k Hk. unfold final, ForwardPass.Run.
    rewrite (ForwardMore.for_up_v_stable relu leaky_relu layer_norm1 d wx u
               (S (Z.to_nat t)) (Z.to_nat T)); [| exact HNH | lia |].
    - cbn [for_up]. rewrite Z2Nat.id by lia. reflexivity.
    - fold B H NH. nia. }
  assert (Ea : a = (wx.[t * (NH * 2) + (b * (2 * H) + 0 * H + j)]
                    + uh.[b * (2 * H) + 0 * H + j])%R).
  { unfold a. rewrite Hstable by nia.
    replace (t * (NH * 3)) with (t * NH * 3) by lia.
    destruct Hv as [_ [-> _]]. unfold ptr_add.
    f_equal; f_equal; lia. }
  assert (Ez : z = sigmoid (wx.[t * (NH * 2) + (b * (2 * H) + 1 * H + j)]
                            + uh.[b * (2 * H) + 1 * H + j])%R).
  { unfold z. rewrite Hstable by nia.
    replace (t * (NH * 3)) with (t * NH * 3) by lia.
    destruct Hv as [-> _]. unfold ptr_add.
    f_equal. f_equal; f_equal; lia. }
  assert (Eh : hcand = f a).
  { unfold hcand. rewrite Hstable by nia. rewrite Ea.
    replace (t * (NH * 3)) with (t * NH * 3) by lia.
    destruct Hv as [_ [_ ->]]. unfold ptr_add.
    f_equal. f_equal; f_equal; lia. }
  split; [exact Ea|]. split; [exact Ez|]. split; [exact Eh|].
  (* the hidden state written by step t *)
  unfold final, ForwardPass.Run.
  rewrite (ForwardFacts.for_up_h_stable relu leaky_relu layer_norm1 d wx u
             (S (Z.to_nat t)) (Z.to_nat T));
    [| exact HNH | lia | fold B H NH; nia].
  rewrite (ForwardFacts.for_up_h_stable relu leaky_relu layer_norm1 d wx u
             (Z.to_nat t) (Z.to_nat T) m (t * NH + (b * H + j)));
    [| exact HNH | lia | fold B H NH; nia].
  cbn [for_up]. rewrite Z2Nat.id by lia.
  pose proof (ForwardFacts.Run_step_h_out relu leaky_relu layer_norm1 d wx u
                t before f b j Hf (or_introl Htr) Hb Hj) as Hh.
  cbv zeta in Hh. fold H B NH in Hh. fold uh in Hh.
  change (for_up (Z.to_nat t)
            (ForwardPass.Run_step relu leaky_relu layer_norm1 d wx u) m)
    with before.
  rewrite Hh. unfold gate_spec. cbv zeta.
  rewrite Eh, Ea, Ez. unfold ptr_add.
  replace (t * NH * 2 + (b * (2 * H) + 1 * H + j))
    with (t * (NH * 2) + (b * (2 * H) + 1 * H + j)) by lia.
  replace (t * NH * 2 + (b * (2 * H) + 0 * H + j))
    with (t * (NH * 2) + (b * (2 * H) + 0 * H + j)) by lia.
  replace (0 + (b * (2 * H) + 1 * H + j)) with (b * (2 * H) + 1 * H + j)
    by lia.
  replace (0 + (b * (2 * H) + 0 * H + j)) with (b * (2 * H) + 0 * H + j)
    by lia.
  reflexivity.
Qed.

Lemma X1_cache_replays_forward_witness :
  let relu := fun x : R => Rmax 0 x in
  let leaky_relu := fun x : R => x in
  let layer_norm1 :=
    fun (_ : Z) (x : buffer) (_ : Z) (_ : buffer) (_ : Z) => x in
  let zero : buffer := fun _ => 0%R in
  let d := ForwardPass.Data true 2 0 3 3 in
  let m := ForwardPass.Mem zero zero zero zero in
  let final := ForwardPass.Run relu leaky_relu layer_norm1 d 4 zero zero m in
  (ForwardPass.v final).[1 * (2 * 3 * 3) + (1 * (3 * 3) + 2 * 3 + 2)]
  = tanh (ForwardPass.v final).[1 * (2 * 3 * 3) + (1 * (3 * 3) + 0 * 3 + 2)].
Proof.
  intros relu leaky_relu layer_norm1 zero d m final.
  apply (X1_cache_replays_forward relu leaky_relu layer_norm1 d 4 zero zero m
           tanh 1 1 2); try reflexivity; simpl; lia.
Defined.

Lemma fold_left_rel {S1 S2 X : Type} (Rel : S1 -> S2 -> Prop)
    (f1 : S1 -> X -> S1) (f2 : S2 -> X -> S2) l m1 m2 :
  (forall x s1 s2, In x l -> Rel s1 s2 -> Rel (f1 s1 x) (f2 s2 x)) ->
  Rel m1 m2 -> Rel (fold_left f1 l m1) (fold_left f2 l m2).
Proof.
  revert m1 m2. induction l as [|x l IH]; intros m1 m2 Hstep Hm; simpl.
  - exact Hm.
  - apply IH.
    + intros; apply Hstep; [now right | assumption].
    + apply Hstep; [now left | assumption].
Qed.

Module ForwardFlag.
Import ForwardPass.

Lemma PointwiseOperations_flag f Tr1 Tr2 B H wx uh h_ h_out v1 v2 r c m1 m2 :
  same_but_v m1 m2 ->
  same_but_v (PointwiseOperations f Tr1 B H wx uh h_ h_out v1 r c m1)
             (PointwiseOperations f Tr2 B H wx uh h_ h_out v2 r c m2).
Proof.
  intros [Hh [Hu Hn]]. unfold same_but_v.
  rewrite !ForwardFacts.PointwiseOperations_h,
          !ForwardFacts.PointwiseOperations_tmp_uh,
          !ForwardFacts.PointwiseOperations_tmp_uh_norm, Hh.
  auto.
Qed.

Lemma launch_flag f Tr1 Tr2 B H wx uh h_ h_out v1 v2 g bl m1 m2 :
  same_but_v m1 m2 ->
  same_but_v (launch g bl (PointwiseOperations f Tr1 B H wx uh h_ h_out v1) m1)
             (launch g bl (PointwiseOperations f Tr2 B H wx uh h_ h_out v2) m2).
Proof.
  intros Hm. unfold launch. apply fold_left_rel; [|exact Hm].
  intros x s1 s2 _ Hs. now apply PointwiseOperations_flag.
Qed.

End ForwardFlag.

(** X2.  Except for activation id 2, the training flag changes the cache
    only: the hidden-state sequence (and both projection scratch arrays)
    after a pass with [training = true] are those after the same pass with
    [training = false]. *)
Theorem X2_training_flag_only_affects_cache :
  forall (relu leaky_relu : R -> R) layer_norm1 B input H act T wx u m,
    act <> 2 ->
    let m_train :=
      ForwardPass.Run relu leaky_relu layer_norm1
        (ForwardPass.Data true B input H act) T wx u m in
    let m_eval :=
      ForwardPass.Run relu leaky_relu layer_norm1
        (ForwardPass.Data false B input H act) T wx u m in
    ForwardPass.h m_train = ForwardPass.h m_eval
    /\ ForwardPass.tmp_uh m_train = ForwardPass.tmp_uh m_eval
    /\ ForwardPass.tmp_uh_norm m_train = ForwardPass.tmp_uh_norm m_eval.
Proof.
  intros relu leaky_relu layer_norm1 B input H act T wx u m Hact.
  cbv zeta. unfold ForwardPass.Run.
  change (same_but_v
            (for_up (Z.to_nat T)
               (ForwardPass.Run_step relu leaky_relu layer_norm1
                  (ForwardPass.Data true B input H act) wx u) m)
            (for_up (Z.to_nat T)
               (ForwardPass.Run_step relu leaky_relu layer_norm1
                  (ForwardPass.Data false B input H act) wx u) m)).
  induction (Z.to_nat T) as [|n IH]; cbn [for_up].
  - unfold same_but_v. auto.
  - revert IH.
    generalize (for_up n
                  (ForwardPass.Run_step relu leaky_relu layer_norm1
                     (ForwardPass.Data true B input H act) wx u) m)
               (for_up n
                  (ForwardPass.Run_step relu leaky_relu layer_norm1
                     (ForwardPass.Data false B input H act) wx u) m).
    intros s1 s2 [Hh [Hu Hn]].
    unfold ForwardPass.Run_step.
    set (dt := ForwardPass.Data true B input H act).
    set (de := ForwardPass.Data false B input H act).
    set (NH := ForwardPass.batch_size dt * ForwardPass.hidden_size dt).
    change (ForwardPass.batch_size de * ForwardPass.hidden_size de) with NH.
    assert (Hp : same_but_v
                   (ForwardPass.recurrent_projection layer_norm1 dt u
                      (Z.of_nat n * NH) (Z.of_nat n * NH * 2) 0 s1)
                   (ForwardPass.recurrent_projection layer_norm1 de u
                      (Z.of_nat n * NH) (Z.of_nat n * NH * 2) 0 s2)).
    { unfold same_but_v, ForwardPass.recurrent_projection.
      cbn [ForwardPass.h ForwardPass.tmp_uh ForwardPass.tmp_uh_norm
           ForwardPass.set_tmp_uh ForwardPass.set_tmp_uh_norm
           ForwardPass.batch_size ForwardPass.hidden_size dt de].
      rewrite Hh, Hu, Hn. auto. }
    destruct (candidate relu leaky_relu act) as [f|] eqn:Hc.
    + rewrite (ForwardFacts.IterateInternal_launch relu leaky_relu
                 layer_norm1 dt _ _ _ _ _ _ _ _ f Hc (or_introl eq_refl)).
      rewrite (ForwardFacts.IterateInternal_launch relu leaky_relu
                 layer_norm1 de _ _ _ _ _ _ _ _ f Hc (or_intror Hact)).
      cbv zeta.
      destruct Hp as [Hph [Hpu Hpn]]. rewrite Hpn.
      apply ForwardFlag.launch_flag. repeat split; assumption.
    + rewrite !ForwardFacts.IterateInternal_no_launch by (left; exact Hc).
      exact Hp.
Qed.

Lemma X2_training_flag_only_affects_cache_witness :
  let relu := fun x : R => Rmax 0 x in
  let leaky_relu := fun x : R => x in
  let layer_norm1 :=
    fun (_ : Z) (x : buffer) (_ : Z) (_ : buffer) (_ : Z) => x in
  let one : buffer := fun _ => 1%R in
  let m := ForwardPass.Mem one one one one in
  ForwardPass.h
    (ForwardPass.Run relu leaky_relu layer_norm1
       (ForwardPass.Data true 2 0 3 1) 4 one one m)
  = ForwardPass.h
      (ForwardPass.Run relu leaky_relu layer_norm1
         (ForwardPass.Data false 2 0 3 1) 4 one one m).
Proof.
  intros relu leaky_relu layer_norm1 one m.
  apply (X2_training_flag_only_affects_cache relu leaky_relu layer_norm1 2 0
           3 1 4 one one m).
  lia.
Defined.

(** X3.  For non-negative B, H and T a forward pass writes [h] only in rows
    1..T of the [T+1, B, H] sequence, the cache only inside its [T, B, 3H]
    extent, and [tmp_uh] only inside [T] regions of size [B * 2H]:
    every other element of the three arrays is left as it was. *)
Theorem X3_forward_writes_in_extents :
  forall (relu leaky_relu : R -> R) layer_norm1 d T wx u m,
    let NH := ForwardPass.batch_size d * ForwardPass.hidden_size d in
    0 <= ForwardPass.batch_size d -> 0 <= ForwardPass.hidden_size d ->
    0 <= T ->
    let final := ForwardPass.Run relu leaky_relu layer_norm1 d T wx u m in
    forall k,
      (~ (NH <= k < (T + 1) * NH) ->
       (ForwardPass.h final).[k] = (ForwardPass.h m).[k])
      /\ (~ (0 <= k < T * (NH * 3)) ->
          (ForwardPass.v final).[k] = (ForwardPass.v m).[k])
      /\ (~ (0 <= k < T * (NH * 2)) ->
          (ForwardPass.tmp_uh final).[k] = (ForwardPass.tmp_uh m).[k]).
Proof.
  intros relu leaky_relu layer_norm1 d T wx u m NH HB HH HT final k.
  pose proof (ForwardMore.for_up_extents relu leaky_relu layer_norm1 d wx u
                (Z.to_nat T) m k) as He.
  cbv zeta in He. rewrite Z2Nat.id in He by lia. fold NH in He.
  apply He. subst NH. nia.
Qed.

Lemma X3_forward_writes_in_extents_witness :
  let relu := fun x : R => Rmax 0 x in
  let leaky_relu := fun x : R => x in
  let layer_norm1 :=
    fun (_ : Z) (x : buffer) (_ : Z) (_ : buffer) (_ : Z) => x in
  let one : buffer := fun _ => 1%R in
  let d := ForwardPass.Data true 2 0 3 1 in
  let m := ForwardPass.Mem one one one one in
  (ForwardPass.h
     (ForwardPass.Run relu leaky_relu layer_norm1 d 4 one one m)).[30]
  = (ForwardPass.h m).[30].
Proof.
  intros relu leaky_relu layer_norm1 one d m.
  pose proof (X3_forward_writes_in_extents relu leaky_relu layer_norm1 d 4
                one one m) as Hx.
  cbv zeta in Hx.
  assert (H0 : 0 <= ForwardPass.batch_size d) by (simpl; lia).
  assert (H1 : 0 <= ForwardPass.hidden_size d) by (simpl; lia).
  assert (H2 : 0 <= 4) by lia.
  destruct (Hx H0 H1 H2 30) as [Hh _].
  apply Hh. simpl. lia.
Defined.

Lemma IterateInternal_noop (relu leaky_relu : R -> R) layer_norm1 d u h_
    h_out v_ tmp_wx tu tun m :
  ~ (0 <= ForwardPass.activation d <= 3)
  \/ ForwardPass.batch_size d = 0 \/ ForwardPass.hidden_size d = 0 ->
  ForwardPass.h
    (ForwardPass.IterateInternal relu leaky_relu layer_norm1 d u h_ h_out v_
       tmp_wx tu tun m) = ForwardPass.h m
  /\ ForwardPass.v
       (ForwardPass.IterateInternal relu leaky_relu layer_norm1 d u h_ h_out
          v_ tmp_wx tu tun m) = ForwardPass.v m.
Proof.
  intros Hcond.
  destruct (ForwardFacts.IterateInternal_cases relu leaky_relu layer_norm1
              d u h_ h_out v_ tmp_wx tu tun m) as [E | [f E]].
  - rewrite E. split; reflexivity.
  - destruct Hcond as [Hact | Hdim].
    + (* no kernel for this activation id *)
      rewrite ForwardFacts.IterateInternal_no_launch; [split; reflexivity|].
      left. unfold candidate.
      destruct (ForwardPass.activation d =? 0) eqn:E0; [lia|].
      destruct (ForwardPass.activation d =? 1) eqn:E1; [lia|].
      destruct (ForwardPass.activation d =? 2) eqn:E2; [lia|].
      destruct (ForwardPass.activation d =? 3) eqn:E3; [lia|]. reflexivity.
    + (* no thread gets past the bounds guard *)
      rewrite E. cbv zeta.
      assert (Hthread : forall wx' uh' r c s',
                0 <= r -> 0 <= c ->
                ForwardPass.PointwiseOperations f (ForwardPass.training d)
                  (ForwardPass.batch_size d) (ForwardPass.hidden_size d)
                  wx' uh' h_ h_out v_ r c s' = s').
      { intros wx' uh' r c s' Hr Hc. unfold ForwardPass.PointwiseOperations.
        assert (Hg : (r >=? ForwardPass.hidden_size d)
                     || (c >=? ForwardPass.batch_size d) = true).
        { apply orb_true_iff. rewrite !Z.geb_leb, !Z.leb_le. lia. }
        rewrite Hg. reflexivity. }
      split.
      * rewrite (launch_frame ForwardPass.h); [reflexivity|].
        intros r c s' Hr Hc. now rewrite Hthread.
      * rewrite (launch_frame ForwardPass.v); [reflexivity|].
        intros r c s' Hr Hc. now rewrite Hthread.
Qed.

(** X4.  A forward pass whose activation id is outside 0..3, or whose batch
    size or hidden size is zero, runs no thread past the bounds guard: it
    reports nothing and leaves the whole hidden-state array and the whole
    cache as they were. *)
Theorem X4_forward_silent_noop :
  forall (relu leaky_relu : R -> R) layer_norm1 d T wx u m,
    ~ (0 <= ForwardPass.activation d <= 3)
    \/ ForwardPass.batch_size d = 0 \/ ForwardPass.hidden_size d = 0 ->
    let final := ForwardPass.Run relu leaky_relu layer_norm1 d T wx u m in
    ForwardPass.h final = ForwardPass.h m
    /\ ForwardPass.v final = ForwardPass.v m.
Proof.
  intros relu leaky_relu layer_norm1 d T wx u m Hcond.
  cbv zeta. unfold ForwardPass.Run.
  induction (Z.to_nat T) as [|n IH]; cbn [for_up]; [split; reflexivity|].
  unfold ForwardPass.Run_step at 1 3.
  destruct IH as [IHh IHv].
  split.
  - etransitivity; [|exact IHh]. now apply IterateInternal_noop.
  - etransitivity; [|exact IHv]. now apply IterateInternal_noop.
Qed.

Lemma X4_forward_silent_noop_witness :
  let relu := fun x : R => Rmax 0 x in
  let leaky_relu := fun x : R => x in
  let layer_norm1 :=
    fun (_ : Z) (x : buffer) (_ : Z) (_ : buffer) (_ : Z) => x in
  let one : buffer := fun _ => 1%R in
  let m := ForwardPass.Mem one one one one in
  ForwardPass.h
    (ForwardPass.Run relu leaky_relu layer_norm1
       (ForwardPass.Data true 2 0 3 7) 4 one one m)
  = ForwardPass.h m.
Proof.
  intros relu leaky_relu layer_norm1 one m.
  apply (X4_forward_silent_noop relu leaky_relu layer_norm1
           (ForwardPass.Data true 2 0 3 7) 4 one one m).
  left. simpl. lia.
Defined.

(** * The backward kernels compute the gradient of the forward kernels *)

Open Scope R_scope.

Lemma sigmoid_derivative x :
  derivable_pt_lim sigmoid x (sigmoid x * (1 - sigmoid x)).
Proof.
  pose proof (exp_pos (- x)) as He.
  assert (Hden : derivable_pt_lim (fct_cte 1 + comp exp (- id))%F x
                   (0 + exp (- x) * - 1)).
  { apply derivable_pt_lim_plus; [apply derivable_pt_lim_const|].
    apply derivable_pt_lim_comp.
    - apply derivable_pt_lim_opp. apply derivable_pt_lim_id.
    - apply derivable_pt_lim_exp. }
  pose proof (derivable_pt_lim_div (fct_cte 1)
                (fct_cte 1 + comp exp (- id))%F x 0 _
                (derivable_pt_lim_const 1 x) Hden) as Hdiv.
  unfold plus_fct, fct_cte, comp, opp_fct, id in Hdiv.
  specialize (Hdiv ltac:(lra)).
  apply (derivable_pt_lim_ext _ sigmoid) in Hdiv.
  - replace (sigmoid x * (1 - sigmoid x))%R
      with ((0 * (1 + exp (- x)) - (0 + exp (- x) * -1) * 1)
            / Rsqr (1 + exp (- x)))%R; [exact Hdiv|].
    unfold sigmoid, Rsqr. field. lra.
  - intros y. reflexivity.
Qed.

(** The output cell as a function of the update-gate pre-activation. *)
Lemma gate_derivative_z (f : R -> R) c a hp x0 :
  derivable_pt_lim
    (fun x => sigmoid (x + c) * hp + (1 - sigmoid (x + c)) * f a)%R x0
    ((hp - f a) * (sigmoid (x0 + c) * (1 - sigmoid (x0 + c)))).
Proof.
  assert (Hs : derivable_pt_lim (comp sigmoid (id + fct_cte c)%F) x0
                 (sigmoid (x0 + c) * (1 - sigmoid (x0 + c)) * (1 + 0))).
  { apply derivable_pt_lim_comp.
    - apply derivable_pt_lim_plus;
        [apply derivable_pt_lim_id | apply derivable_pt_lim_const].
    - apply sigmoid_derivative. }
  set (ds := (sigmoid (x0 + c) * (1 - sigmoid (x0 + c)) * (1 + 0))%R) in Hs.
  pose proof (derivable_pt_lim_plus _ _ x0 _ _
                (derivable_pt_lim_mult _ _ x0 _ _ Hs
                   (derivable_pt_lim_const hp x0))
                (derivable_pt_lim_mult _ _ x0 _ _
                   (derivable_pt_lim_plus _ _ x0 _ _
                      (derivable_pt_lim_const 1 x0)
                      (derivable_pt_lim_opp _ x0 _ Hs))
                   (derivable_pt_lim_const (f a) x0))) as Hd.
  unfold plus_fct, mult_fct, fct_cte, comp, opp_fct, id in Hd.
  apply (derivable_pt_lim_ext _
           (fun x => sigmoid (x + c) * hp + (1 - sigmoid (x + c)) * f a)%R)
    in Hd.
  - replace ((hp - f a) * (sigmoid (x0 + c) * (1 - sigmoid (x0 + c))))%R
      with (ds * hp + sigmoid (x0 + c) * 0
            + ((0 + - ds) * f a + (1 + - sigmoid (x0 + c)) * 0))%R;
      [exact Hd|].
    subst ds. ring.
  - intros y. ring.
Qed.

(** The output cell as a function of the candidate pre-activation. *)
Lemma gate_derivative_a (f : R -> R) c z hp x0 l :
  derivable_pt_lim f (x0 + c) l ->
  derivable_pt_lim (fun x => z * hp + (1 - z) * f (x + c))%R x0 (l * (1 - z)).
Proof.
  intros Hf.
  assert (Hc : derivable_pt_lim (comp f (id + fct_cte c)%F) x0 (l * (1 + 0))).
  { apply derivable_pt_lim_comp; [|exact Hf].
    apply derivable_pt_lim_plus;
      [apply derivable_pt_lim_id | apply derivable_pt_lim_const]. }
  pose proof (derivable_pt_lim_plus _ _ x0 _ _
                (derivable_pt_lim_const (z * hp) x0)
                (derivable_pt_lim_mult _ _ x0 _ _
                   (derivable_pt_lim_const (1 - z) x0) Hc)) as Hd.
  unfold plus_fct, mult_fct, fct_cte, comp, id in Hd.
  apply (derivable_pt_lim_ext _ (fun x => z * hp + (1 - z) * f (x + c))%R)
    in Hd.
  - replace (l * (1 - z))%R
      with (0 + (0 * f (x0 + c) + (1 - z) * (l * (1 + 0))))%R by ring.
    exact Hd.
  - intros y. reflexivity.
Qed.

(** The output cell as a function of the previous hidden state. *)
Lemma gate_derivative_h z k x0 :
  derivable_pt_lim (fun x => z * x + (1 - z) * k)%R x0 z.
Proof.
  pose proof (derivable_pt_lim_plus _ _ x0 _ _
                (derivable_pt_lim_mult _ _ x0 _ _
                   (derivable_pt_lim_const z x0) (derivable_pt_lim_id x0))
                (derivable_pt_lim_const ((1 - z) * k) x0)) as Hd.
  unfold plus_fct, mult_fct, fct_cte, id in Hd.
  apply (derivable_pt_lim_ext _ (fun x => z * x + (1 - z) * k)%R) in Hd.
  - assert (E : 0 * x0 + z * 1 + 0 = z) by ring.
    rewrite E in Hd. exact Hd.
  - intros y. reflexivity.
Qed.

Close Scope R_scope.

(** The cells that a launch of a ligru_2_0 backward kernel writes. *)
Lemma launch_cells_2_0 d_f B H h v dhp g dwx_ m b j :
  0 <= b < B -> 0 <= j < H ->
  let m' :=
    launch (pass_gridDim B H) pass_blockDim
      (BackwardPass_2_0.PointwiseOperations d_f B H h v dhp g dwx_) m in
  let z := v.[b * (3 * H) + 1 * H + j] in
  let a := v.[b * (3 * H) + 0 * H + j] in
  let hcand := v.[b * (3 * H) + 2 * H + j] in
  let dh_total :=
    (g.[b * H + j] + (BackwardPass_2_0.dh m).[dhp + (b * H + j)])%R in
  (BackwardPass_2_0.dh m').[dhp + (b * H + j)] = (dh_total * z)%R
  /\ (BackwardPass_2_0.dwx m').[dwx_ + (b * (2 * H) + 1 * H + j)]
     = ((h.[b * H + j] - hcand) * dh_total * (z * (1 - z)))%R
  /\ (BackwardPass_2_0.dwx m').[dwx_ + (b * (2 * H) + 0 * H + j)]
     = (d_f a * (1 - z) * dh_total)%R.
Proof.
  intros Hb Hj m' z a hcand dh_total.
  assert (Hsim : gradients_of m'
                 = launch (pass_gridDim B H) pass_blockDim
                     (BackwardPass_1_0.PointwiseOperations d_f B H h v dhp g
                        dwx_) (gradients_of m))
    by apply Backward_2_0_Facts.launch_sim.
  change (BackwardPass_2_0.dh m') with (BackwardPass_1_0.dh (gradients_of m')).
  change (BackwardPass_2_0.dwx m')
    with (BackwardPass_1_0.dwx (gradients_of m')).
  rewrite Hsim.
  pose proof (in_pass_grid H B j b Hj Hb) as Hin.
  pose proof (Backward_1_0_Facts.launch_dwx d_f B H h v dhp g dwx_ _ _
                (gradients_of m) b j Hin Hb Hj) as Hdwx.
  cbv zeta in Hdwx.
  replace (b * (H * 3) + j + 1 * H) with (b * (3 * H) + 1 * H + j)
    in Hdwx by lia.
  replace (b * (H * 3) + j + 0 * H) with (b * (3 * H) + 0 * H + j)
    in Hdwx by lia.
  replace (b * (H * 3) + j + 2 * H) with (b * (3 * H) + 2 * H + j)
    in Hdwx by lia.
  replace (b * (H * 2) + j + 1 * H) with (b * (2 * H) + 1 * H + j)
    in Hdwx by lia.
  replace (b * (H * 2) + j + 0 * H) with (b * (2 * H) + 0 * H + j)
    in Hdwx by lia.
  destruct Hdwx as [Hdz Hda].
  split; [|split].
  - rewrite Backward_1_0_Facts.launch_dh by assumption.
    replace (b * (H * 3) + j + 1 * H) with (b * (3 * H) + 1 * H + j) by lia.
    reflexivity.
  - rewrite Hdz. subst z hcand dh_total. unfold gradients_of.
    cbn [BackwardPass_1_0.dh]. ring.
  - rewrite Hda. subst z a dh_total. unfold gradients_of.
    cbn [BackwardPass_1_0.dh]. ring.
Qed.

(** X5.  Forward/backward pairing of one time step, cell by cell, in exact
    real arithmetic (rounding is not part of this statement).  Let the
    forward gate kernel run in training mode, and the ligru_2_0 backward gate
    kernel read the cache it wrote and the previous hidden state.  The
    partial derivatives of the forward output cell with respect to the
    update-gate input, the candidate input and the previous hidden state are
    [(h_prev - f a) * (z * (1 - z))], [d_f a * (1 - z)] and [z]; for the
    candidate input this needs the helper [d_f] to be the derivative of [f]
    at the cached pre-activation.  As real numbers, the [dz] and [da] that
    the backward kernel stores and the value it leaves in the running
    hidden gradient are these derivatives times [dh_total]. *)
Theorem X5_backward_is_gradient_of_forward :
  forall (f d_f : R -> R) B H wx uh h_ h_out v_ (m : ForwardPass.mem)
         grad_out dh_ dwx_ (mb : BackwardPass_2_0.mem) b j,
    0 <= b < B -> 0 <= j < H ->
    h_ + B * H <= h_out \/ h_out + B * H <= h_ ->
    let forward wx' m' :=
      launch (pass_gridDim B H) pass_blockDim
        (ForwardPass.PointwiseOperations f true B H wx' uh h_ h_out v_) m' in
    let out wx' m' := (ForwardPass.h (forward wx' m')).[h_out + (b * H + j)] in
    let iz := b * (2 * H) + 1 * H + j in
    let ia := b * (2 * H) + 0 * H + j in
    let z := sigmoid (wx.[iz] + uh.[iz])%R in
    let a := (wx.[ia] + uh.[ia])%R in
    let hp := (ForwardPass.h m).[h_ + (b * H + j)] in
    let Dz := ((hp - f a) * (z * (1 - z)))%R in
    let Da := (d_f a * (1 - z))%R in
    let backward :=
      launch (pass_gridDim B H) pass_blockDim
        (BackwardPass_2_0.PointwiseOperations d_f B H
           (ptr_add (ForwardPass.h m) h_)
           (ptr_add (ForwardPass.v (forward wx m)) v_) dh_ grad_out dwx_)
        mb in
    let dh_total :=
      (grad_out.[b * H + j]
       + (BackwardPass_2_0.dh mb).[dh_ + (b * H + j)])%R in
    derivable_pt_lim (fun x => out (store wx iz x) m) wx.[iz] Dz
    /\ (derivable_pt_lim f a (d_f a) ->
        derivable_pt_lim (fun x => out (store wx ia x) m) wx.[ia] Da)
    /\ derivable_pt_lim
         (fun x =>
            out wx
              (ForwardPass.set_h
                 (store (ForwardPass.h m) (h_ + (b * H + j)) x) m)) hp z
    /\ (BackwardPass_2_0.dwx backward).[dwx_ + (b * (2 * H) + 1 * H + j)]
       = (Dz * dh_total)%R
    /\ (BackwardPass_2_0.dwx backward).[dwx_ + (b * (2 * H) + 0 * H + j)]
       = (Da * dh_total)%R
    /\ (BackwardPass_2_0.dh backward).[dh_ + (b * H + j)]
       = (z * dh_total)%R.
Proof.
  intros f d_f B H wx uh h_ h_out v_ m g dh_ dwx_ mb b j Hb Hj Hdisj
         forward out iz ia z a hp Dz Da backward dh_total.
  assert (Hiz : iz <> ia) by (subst iz ia; lia).
  assert (Hout : forall wx' m',
            out wx' m'
            = gate_spec f wx' uh H b j
                (ForwardPass.h m').[h_ + (b * H + j)]).
  { intros wx' m'. unfold out, forward.
    apply ForwardFacts.launch_h_out; [apply in_pass_grid| | |]; assumption. }
  split; [|split; [|split]].
  - apply (derivable_pt_lim_ext
             (fun x => sigmoid (x + uh.[iz]) * hp
                       + (1 - sigmoid (x + uh.[iz])) * f a)%R).
    + intros x. rewrite Hout. unfold gate_spec. cbv zeta. fold iz ia hp.
      rewrite store_eq, (store_neq wx iz x ia) by congruence. reflexivity.
    + apply (gate_derivative_z f uh.[iz] a hp wx.[iz]).
  - intros Hf.
    apply (derivable_pt_lim_ext
             (fun x => z * hp + (1 - z) * f (x + uh.[ia]))%R).
    + intros x. rewrite Hout. unfold gate_spec. cbv zeta. fold iz ia hp.
      rewrite store_eq, (store_neq wx ia x iz) by congruence. reflexivity.
    + apply gate_derivative_a. exact Hf.
  - apply (derivable_pt_lim_ext (fun x => z * x + (1 - z) * f a)%R).
    + intros x. rewrite Hout. unfold gate_spec. cbv zeta. fold iz ia.
      cbn [ForwardPass.h ForwardPass.set_h]. rewrite store_eq. reflexivity.
    + apply gate_derivative_h.
  - pose proof (ForwardMore.launch_v_train f B H wx uh h_ h_out v_ _ _ m b j
                  (in_pass_grid H B j b Hj Hb) Hb Hj) as Hv.
    cbv zeta in Hv. fold iz ia in Hv. fold (forward wx m) in Hv.
    destruct Hv as [Hvz [Hva Hvh]].
    pose proof (launch_cells_2_0 d_f B H (ptr_add (ForwardPass.h m) h_)
                  (ptr_add (ForwardPass.v (forward wx m)) v_) dh_ g dwx_ mb
                  b j Hb Hj) as Hc.
    cbv zeta in Hc. fold backward in Hc. unfold ptr_add in Hc.
    rewrite Hvz, Hva, Hvh in Hc. fold z a hp dh_total in Hc.
    destruct Hc as [Hdh [Hdz Hda]].
    split; [|split].
    + rewrite Hdz. subst Dz. ring.
    + rewrite Hda. subst Da. ring.
    + rewrite Hdh. ring.
Qed.

Lemma X5_backward_is_gradient_of_forward_witness :
  let f := fun x : R => x in
  let d_f := fun _ : R => 1%R in
  let zero : buffer := fun _ => 0%R in
  let grad_out : buffer := fun _ => 2%R in
  let m := ForwardPass.Mem zero zero zero zero in
  let mb := BackwardPass_2_0.Mem zero zero zero zero in
  let forward :=
    launch (pass_gridDim 1 1) pass_blockDim
      (ForwardPass.PointwiseOperations f true 1 1 zero zero 0 1 0) m in
  let backward :=
    launch (pass_gridDim 1 1) pass_blockDim
      (BackwardPass_2_0.PointwiseOperations d_f 1 1
         (ptr_add (ForwardPass.h m) 0)
         (ptr_add (ForwardPass.v forward) 0) 0 grad_out 0) mb in
  (BackwardPass_2_0.dh backward).[0 + (0 * 1 + 0)]
  = (sigmoid (0 + 0) * (2 + 0))%R.
Proof.
  intros f d_f zero grad_out m mb forward backward.
  pose proof (X5_backward_is_gradient_of_forward f d_f 1 1 zero zero 0 1 0 m
                grad_out 0 0 mb 0 0) as Hx.
  cbv zeta in Hx.
  assert (H0 : 0 <= 0 < 1) by lia.
  assert (H1 : 0 + 1 * 1 <= 1 \/ 1 + 1 * 1 <= 0) by (left; lia).
  destruct (Hx H0 H0 H1) as [_ [_ [_ [_ [_ Hdh]]]]].
  exact Hdh.
Defined.

(** * Further properties of the backward pass *)

Lemma fold_left_invariant {S X : Type} (P : S -> Prop) (f : S -> X -> S) l m :
  (forall x s, In x l -> P s -> P (f s x)) -> P m -> P (fold_left f l m).
Proof.
  revert m. induction l as [|x l IH]; intros m Hstep Hm; simpl; [exact Hm|].
  apply IH.
  - intros; apply Hstep; [now right | assumption].
  - apply Hstep; [now left | assumption].
Qed.

(** A property of every element of [C] and of every cell value is a property
    of every element of the result. *)
Lemma gemm_all (P : Z -> R -> Prop) ta tb m n k alpha A lda B ldb beta C
    c_off ldc :
  (forall idx, P idx C.[idx]) ->
  (forall i j, 0 <= i < m -> 0 <= j < n ->
     P (c_off + (i + j * ldc))
       (gemm_cell ta tb k alpha A lda B ldb beta C c_off ldc i j)) ->
  forall idx,
    P idx (gemm ta tb m n k alpha A lda B ldb beta C c_off ldc).[idx].
Proof.
  intros HC Hcell. unfold gemm.
  apply (fold_left_invariant (fun acc : buffer => forall idx, P idx acc.[idx])).
  - intros [i j] acc Hin Hacc idx. apply in_prod_iff in Hin.
    rewrite !in_range in Hin. cbn [fst snd]. unfold store.
    destruct (idx =? c_off + (i + j * ldc)) eqn:E; [|apply Hacc].
    apply Z.eqb_eq in E. subst idx. apply Hcell; lia.
  - exact HC.
Qed.

(** The result depends on [A] and [B] only through the entries of the
    m x k and k x n operands. *)
Lemma gemm_ext ta tb m n k alpha A1 A2 lda B1 B2 ldb beta C c_off ldc :
  (forall i l, 0 <= i < m -> 0 <= l < k ->
     op ta A1 lda i l = op ta A2 lda i l) ->
  (forall l j, 0 <= l < k -> 0 <= j < n ->
     op tb B1 ldb l j = op tb B2 ldb l j) ->
  gemm ta tb m n k alpha A1 lda B1 ldb beta C c_off ldc
  = gemm ta tb m n k alpha A2 lda B2 ldb beta C c_off ldc.
Proof.
  intros HA HB. unfold gemm. apply fold_left_ext_in.
  intros [i j] acc Hin. apply in_prod_iff in Hin. rewrite !in_range in Hin.
  cbn [fst snd]. f_equal. unfold gemm_cell. cbv zeta. f_equal. f_equal.
  apply sum_upto_ext. intros l Hl.
  rewrite HA, HB by lia. reflexivity.
Qed.

Lemma for_downM_invariant {S : Type} (P : S -> Prop) n
    (body : Z -> S -> outcome S) m m' :
  (forall i s s', 0 <= i < Z.of_nat n -> P s -> body i s = Ok s' -> P s') ->
  P m -> for_downM n body m = Ok m' -> P m'.
Proof.
  revert m. induction n as [|n IH]; intros m Hstep Hm; simpl.
  - intros E. inversion E. now subst.
  - destruct (body (Z.of_nat n) m) as [s|msg] eqn:Hb; simpl; [|discriminate].
    apply IH.
    + intros i s0 s' Hi. apply Hstep. lia.
    + apply (Hstep (Z.of_nat n) m s); [lia | assumption | assumption].
Qed.

Lemma for_downM_ext_lt {S : Type} n (f g : Z -> S -> outcome S) m :
  (forall i s, 0 <= i < Z.of_nat n -> f i s = g i s) ->
  for_downM n f m = for_downM n g m.
Proof.
  intros Hfg. revert m. induction n as [|n IH]; intros m; simpl.
  - reflexivity.
  - rewrite Hfg by lia. destruct (g (Z.of_nat n) m); simpl; [|reflexivity].
    apply IH. intros i s Hi. apply Hfg. lia.
Qed.

Module Backward_1_0_More.
Import BackwardPass_1_0.

(** A thread reads [h], [v] and [grad_out] only at the cells of the grid. *)
Lemma PointwiseOperations_inputs d_f B H h1 h2 v1 v2 dhp g1 g2 dwx_ r c m :
  0 <= r -> 0 <= c ->
  (forall k, 0 <= k < B * H -> h1.[k] = h2.[k]) ->
  (forall k, 0 <= k < B * H * 3 -> v1.[k] = v2.[k]) ->
  (forall k, 0 <= k < B * H -> g1.[k] = g2.[k]) ->
  PointwiseOperations d_f B H h1 v1 dhp g1 dwx_ r c m
  = PointwiseOperations d_f B H h2 v2 dhp g2 dwx_ r c m.
Proof.
  intros Hr Hc Hh Hv Hg. unfold PointwiseOperations.
  destruct ((r >=? H) || (c >=? B)) eqn:Hguard; [reflexivity|].
  apply guard_false in Hguard.
  rewrite (Hg (c * H + r)), (Hh (c * H + r)) by nia.
  rewrite (Hv (c * (H * 3) + r + 1 * H)),
          (Hv (c * (H * 3) + r + 0 * H)),
          (Hv (c * (H * 3) + r + 2 * H)) by nia.
  reflexivity.
Qed.

(** A thread writes [dh] and [dwx] only inside the step's rows. *)
Lemma PointwiseOperations_frame d_f B H h v dhp g dwx_ r c m :
  0 <= r -> 0 <= c ->
  (forall k, ~ (dhp <= k < dhp + B * H) ->
     (dh (PointwiseOperations d_f B H h v dhp g dwx_ r c m)).[k] = (dh m).[k])
  /\ (forall k, ~ (dwx_ <= k < dwx_ + B * H * 2) ->
        (dwx (PointwiseOperations d_f B H h v dhp g dwx_ r c m)).[k]
        = (dwx m).[k]).
Proof.
  intros Hr Hc. split; intros k Hk.
  - rewrite Backward_1_0_Facts.PointwiseOperations_dh.
    destruct ((r >=? H) || (c >=? B)) eqn:Hg; [reflexivity|].
    apply guard_false in Hg. apply store_neq. nia.
  - rewrite Backward_1_0_Facts.PointwiseOperations_dwx.
    destruct ((r >=? H) || (c >=? B)) eqn:Hg; [reflexivity|].
    apply guard_false in Hg. cbv zeta. rewrite !store_neq by nia.
    reflexivity.
Qed.

Section Engine.

Variables d_relu d_leaky_relu d_tanh d_sin : R -> R.
Variable cuda_arch : Z.
Variable T : scalar_t.

Local Abbreviation gate_kernel :=
  (gate_kernel d_relu d_leaky_relu d_tanh d_sin cuda_arch T).
Local Abbreviation Run_step :=
  (Run_step d_relu d_leaky_relu d_tanh d_sin cuda_arch T).
Local Abbreviation Run_scan :=
  (Run_scan d_relu d_leaky_relu d_tanh d_sin cuda_arch T).
Local Abbreviation Run := (Run d_relu d_leaky_relu d_tanh d_sin cuda_arch T).

Lemma gate_kernel_inputs d h1 h2 v1 v2 g1 g2 dh_ dwx_ m :
  (forall k, 0 <= k < batch_size d * hidden_size d -> h1.[k] = h2.[k]) ->
  (forall k, 0 <= k < batch_size d * hidden_size d * 3 -> v1.[k] = v2.[k]) ->
  (forall k, 0 <= k < batch_size d * hidden_size d -> g1.[k] = g2.[k]) ->
  gate_kernel d h1 v1 g1 dh_ dwx_ m = gate_kernel d h2 v2 g2 dh_ dwx_ m.
Proof.
  intros Hh Hv Hg. unfold BackwardPass_1_0.gate_kernel.
  destruct (activation d =? 0);
    [|destruct (activation d =? 1);
      [|destruct (activation d =? 2);
        [|destruct (activation d =? 3); [|reflexivity]]]];
    (apply Backward_1_0_Facts.launchM_ext; intros r c s Hr Hc;
     unfold PointwiseOperationsReLU, PointwiseOperationsLeakyReLU,
            PointwiseOperationsSin, PointwiseOperationsTanh;
     destruct (fp16_overload cuda_arch T); [reflexivity|]; f_equal;
     apply PointwiseOperations_inputs; assumption).
Qed.

(** When the dispatch does not abort, either nothing ran or the generic
    kernel of some derivative ran over the whole grid. *)
Lemma gate_kernel_result d h v g dh_ dwx_ m m1 :
  gate_kernel d h v g dh_ dwx_ m = Ok m1 ->
  m1 = m
  \/ exists d_f,
       m1 = launch (pass_gridDim (batch_size d) (hidden_size d)) pass_blockDim
              (PointwiseOperations d_f (batch_size d) (hidden_size d) h v dh_
                 g dwx_) m.
Proof.
  destruct (fp16_overload cuda_arch T) eqn:Hfp;
    destruct (derivative d_relu d_leaky_relu d_tanh d_sin (activation d))
      as [d_f|] eqn:Hd.
  - (* half overloads: either an abort or an empty grid *)
    unfold BackwardPass_1_0.gate_kernel, derivative in *.
    assert (Hk : forall k : Z -> Z -> mem -> outcome mem,
               (forall r c s, k r c s = device_assert_fail
                  "FP16 is not supported on compute capability < 7.0.") ->
               forall gd bl, launchM gd bl k m = Ok m1 -> m1 = m).
    { intros k Hk gd bl. unfold launchM.
      destruct (threads gd bl) as [|x l]; simpl.
      - intros E. now inversion E.
      - rewrite Hk, fold_left_abort. discriminate. }
    intros E. left. revert E.
    destruct (activation d =? 0);
      [|destruct (activation d =? 1);
        [|destruct (activation d =? 2);
          [|destruct (activation d =? 3); [|discriminate]]]];
      (apply Hk; intros r c s;
       unfold PointwiseOperationsReLU, PointwiseOperationsLeakyReLU,
              PointwiseOperationsSin, PointwiseOperationsTanh;
       rewrite Hfp; reflexivity).
  - rewrite Backward_1_0_Facts.gate_kernel_none by assumption.
    intros E. left. now inversion E.
  - rewrite (Backward_1_0_Facts.gate_kernel_generic _ _ _ _ _ _ _ _ _ _ _ _
               _ d_f Hfp Hd).
    intros E. right. exists d_f. now inversion E.
  - rewrite Backward_1_0_Facts.gate_kernel_none by assumption.
    intros E. left. now inversion E.
Qed.

(** What the dispatch leaves outside the step's rows. *)
Lemma gate_kernel_frame d h v g dh_ dwx_ m m1 :
  gate_kernel d h v g dh_ dwx_ m = Ok m1 ->
  (forall k, ~ (dh_ <= k < dh_ + batch_size d * hidden_size d) ->
     (dh m1).[k] = (dh m).[k])
  /\ (forall k, ~ (dwx_ <= k < dwx_ + batch_size d * hidden_size d * 2) ->
        (dwx m1).[k] = (dwx m).[k]).
Proof.
  intros E. destruct (gate_kernel_result _ _ _ _ _ _ _ _ E) as [-> | [d_f ->]];
    [split; reflexivity|].
  split; intros k Hk.
  - apply (launch_frame (fun s => (dh s).[k])). intros r c s Hr Hc.
    now apply PointwiseOperations_frame.
  - apply (launch_frame (fun s => (dwx s).[k])). intros r c s Hr Hc.
    now apply PointwiseOperations_frame.
Qed.

Lemma recurrent_gemm_frame d u_t dh_ dwx_ m k :
  ~ (dh_ <= k < dh_ + batch_size d * hidden_size d) ->
  (dh (recurrent_gemm d u_t dh_ dwx_ m)).[k] = (dh m).[k].
Proof.
  intros Hk. unfold recurrent_gemm. cbn [dh set_dh].
  apply gemm_frame. intros i j Hi Hj. nia.
Qed.

Lemma Run_step_inputs d Tn u1 u2 h1 h2 v1 v2 g1 g2 i m :
  let NH := batch_size d * hidden_size d in
  0 <= i < Tn ->
  (forall k, 0 <= k < hidden_size d * 2 * hidden_size d -> u1.[k] = u2.[k]) ->
  (forall k, 0 <= k < Tn * NH -> h1.[k] = h2.[k]) ->
  (forall k, 0 <= k < Tn * (NH * 3) -> v1.[k] = v2.[k]) ->
  (forall k, NH <= k < (Tn + 1) * NH -> g1.[k] = g2.[k]) ->
  Run_step d u1 h1 v1 g1 i m = Run_step d u2 h2 v2 g2 i m.
Proof.
  intros NH Hi Hu Hh Hv Hg.
  unfold BackwardPass_1_0.Run_step, BackwardPass_1_0.IterateInternal.
  fold NH.
  rewrite (gate_kernel_inputs d (ptr_add h1 (i * NH)) (ptr_add h2 (i * NH))
             (ptr_add v1 (i * NH * 3)) (ptr_add v2 (i * NH * 3))
             (ptr_add g1 ((i + 1) * NH)) (ptr_add g2 ((i + 1) * NH))).
  - destruct (gate_kernel d (ptr_add h2 (i * NH)) (ptr_add v2 (i * NH * 3))
                (ptr_add g2 ((i + 1) * NH)) 0 (i * NH * 2) m) as [m1|msg];
      simpl; [|reflexivity].
    f_equal. unfold recurrent_gemm. f_equal. apply gemm_ext.
    + intros i' l Hi' Hl. unfold op. apply Hu. nia.
    + reflexivity.
  - intros k Hk. unfold ptr_add. fold NH in Hk. apply Hh. nia.
  - intros k Hk. unfold ptr_add. fold NH in Hk. apply Hv. nia.
  - intros k Hk. unfold ptr_add. fold NH in Hk. apply Hg. nia.
Qed.

Lemma Run_inputs d Tn wx1 wx2 u1 u2 h1 h2 v1 v2 g1 g2 m :
  let NH := batch_size d * hidden_size d in
  (forall k, 0 <= k < hidden_size d * 2 * hidden_size d -> u1.[k] = u2.[k]) ->
  (forall k, 0 <= k < Tn * NH -> h1.[k] = h2.[k]) ->
  (forall k, 0 <= k < Tn * (NH * 3) -> v1.[k] = v2.[k]) ->
  (forall k, NH <= k < (Tn + 1) * NH -> g1.[k] = g2.[k]) ->
  Run d Tn wx1 u1 h1 v1 g1 m = Run d Tn wx2 u2 h2 v2 g2 m.
Proof.
  intros NH Hu Hh Hv Hg.
  unfold BackwardPass_1_0.Run, BackwardPass_1_0.Run_scan.
  rewrite (for_downM_ext_lt (Z.to_nat Tn) (Run_step d u1 h1 v1 g1)
             (Run_step d u2 h2 v2 g2)).
  - destruct (for_downM (Z.to_nat Tn) (Run_step d u2 h2 v2 g2) m)
      as [m1|msg]; simpl; [|reflexivity].
    f_equal. unfold Run_reduce. f_equal. apply gemm_ext.
    + reflexivity.
    + intros l j Hl Hj. unfold op. apply Hh. fold NH. nia.
  - intros i s Hi. apply (Run_step_inputs d Tn); try assumption. lia.
Qed.

(** What one step and the whole scan leave alone. *)
Lemma Run_step_frame d u h v g i m m1 :
  let NH := batch_size d * hidden_size d in
  Run_step d u h v g i m = Ok m1 ->
  (forall k, ~ (0 <= k < NH) -> (dh m1).[k] = (dh m).[k])
  /\ (forall k, ~ (i * (NH * 2) <= k < (i + 1) * (NH * 2)) ->
        (dwx m1).[k] = (dwx m).[k])
  /\ du m1 = du m.
Proof.
  intros NH.
  unfold BackwardPass_1_0.Run_step, BackwardPass_1_0.IterateInternal.
  fold NH.
  destruct (gate_kernel _ _ _ _ _ _ _) as [m'|msg] eqn:Hk; simpl;
    [|discriminate].
  intros E. inversion E. subst m1. clear E.
  destruct (gate_kernel_frame _ _ _ _ _ _ _ _ Hk) as [Fdh Fdwx].
  split; [|split].
  - intros k Hk'. rewrite recurrent_gemm_frame by (fold NH; lia).
    apply Fdh. fold NH. lia.
  - intros k Hk'. cbn [dwx recurrent_gemm set_dh]. apply Fdwx. fold NH. lia.
  - cbn [du recurrent_gemm set_dh].
    apply (Backward_1_0_Facts.gate_kernel_du _ _ _ _ _ _ _ _ _ _ _ _ _ _ Hk).
Qed.

Lemma for_downM_frame d u h v g n m m1 :
  let NH := batch_size d * hidden_size d in
  for_downM n (Run_step d u h v g) m = Ok m1 ->
  (forall k, ~ (0 <= k < NH) -> (dh m1).[k] = (dh m).[k])
  /\ (forall k, ~ (0 <= k < Z.of_nat n * (NH * 2)) ->
        (dwx m1).[k] = (dwx m).[k])
  /\ du m1 = du m.
Proof.
  intros NH.
  apply (for_downM_invariant
           (fun s =>
              (forall k, ~ (0 <= k < NH) -> (dh s).[k] = (dh m).[k])
              /\ (forall k, ~ (0 <= k < Z.of_nat n * (NH * 2)) ->
                    (dwx s).[k] = (dwx m).[k])
              /\ du s = du m)).
  - intros i s s' Hi [P1 [P2 P3]] Hs.
    destruct (Run_step_frame _ _ _ _ _ _ _ _ Hs) as [F1 [F2 F3]].
    fold NH in F1, F2. split; [|split].
    + intros k Hk. rewrite F1, P1 by assumption. reflexivity.
    + intros k Hk. rewrite F2, P2; [reflexivity | assumption |].
      destruct (Z_lt_le_dec NH 0); nia.
    + congruence.
  - repeat split.
Qed.

End Engine.

End Backward_1_0_More.

(** X6.  The ligru_1_0 backward pass reads its inputs only inside their
    extents: the outcome depends on [u] through its [2H x H] entries only, on
    [h] through rows 0..T-1 only (never the last hidden state), on the cache
    through its [T, B, 3H] extent, on [grad_out] through rows 1..T, and not
    at all on [wx]. *)
Theorem X6_backward_reads_in_extents :
  forall (d_relu d_leaky_relu d_tanh d_sin : R -> R) cuda_arch ty d T
         wx1 wx2 u1 u2 h1 h2 v1 v2 g1 g2 m,
    let H := BackwardPass_1_0.hidden_size d in
    let NH := BackwardPass_1_0.batch_size d * H in
    (forall k, 0 <= k < H * 2 * H -> u1.[k] = u2.[k]) ->
    (forall k, 0 <= k < T * NH -> h1.[k] = h2.[k]) ->
    (forall k, 0 <= k < T * (NH * 3) -> v1.[k] = v2.[k]) ->
    (forall k, NH <= k < (T + 1) * NH -> g1.[k] = g2.[k]) ->
    BackwardPass_1_0.Run d_relu d_leaky_relu d_tanh d_sin cuda_arch ty d T
      wx1 u1 h1 v1 g1 m
    = BackwardPass_1_0.Run d_relu d_leaky_relu d_tanh d_sin cuda_arch ty d T
        wx2 u2 h2 v2 g2 m.
Proof.
  intros. now apply Backward_1_0_More.Run_inputs.
Qed.

(** X7.  With the generic templates the ligru_1_0 backward pass returns,
    and it writes only inside the extents of its outputs: [dh] inside
    [B, H], [dwx] inside [T, B, 2H] and [du] inside [H, 2H]; every other
    element of the three arrays is left as it was. *)
Theorem X7_backward_writes_in_extents :
  forall (d_relu d_leaky_relu d_tanh d_sin : R -> R) cuda_arch ty d T
         wx u h v g m,
    BackwardPass_1_0.fp16_overload cuda_arch ty = false ->
    let H := BackwardPass_1_0.hidden_size d in
    let NH := BackwardPass_1_0.batch_size d * H in
    0 <= T ->
    exists m',
      BackwardPass_1_0.Run d_relu d_leaky_relu d_tanh d_sin cuda_arch ty d T
        wx u h v g m = Ok m'
      /\ forall k,
           (~ (0 <= k < NH) ->
            (BackwardPass_1_0.dh m').[k] = (BackwardPass_1_0.dh m).[k])
           /\ (~ (0 <= k < T * (NH * 2)) ->
               (BackwardPass_1_0.dwx m').[k] = (BackwardPass_1_0.dwx m).[k])
           /\ (~ (0 <= k < H * (2 * H)) ->
               (BackwardPass_1_0.du m').[k] = (BackwardPass_1_0.du m).[k]).
Proof.
  intros d_relu d_leaky_relu d_tanh d_sin cuda_arch ty d T wx u h v g m Hfp
         H NH HT.
  destruct (Backward_1_0_Facts.Run_scan_ok d_relu d_leaky_relu d_tanh d_sin
              cuda_arch ty d T u h v g m Hfp) as [m1 Hscan].
  exists (BackwardPass_1_0.Run_reduce d T h m1). split.
  - unfold BackwardPass_1_0.Run. rewrite Hscan. reflexivity.
  - unfold BackwardPass_1_0.Run_scan in Hscan.
    destruct (Backward_1_0_More.for_downM_frame _ _ _ _ _ _ _ _ _ _ _ _ _ _
                Hscan) as [F1 [F2 F3]].
    fold H NH in F1, F2. rewrite Z2Nat.id in F2 by lia.
    intros k. unfold BackwardPass_1_0.Run_reduce.
    cbn [BackwardPass_1_0.dh BackwardPass_1_0.dwx BackwardPass_1_0.du
         BackwardPass_1_0.set_du].
    split; [apply F1 | split; [apply F2|]].
    intros Hk. rewrite gemm_frame; [now rewrite F3|].
    intros i j Hi Hj. fold H. nia.
Qed.


Lemma X6_backward_reads_in_extents_witness :
  let d_relu := fun x : R => 1%R in
  let zero : buffer := fun _ => 0%R in
  let one : buffer := fun _ => 1%R in
  let last_row : buffer := fun k => if 24 <=? k then 7%R else 1%R in
  let d := BackwardPass_1_0.Data 2 0 3 3 in
  let m := BackwardPass_1_0.Mem zero zero zero in
  BackwardPass_1_0.Run d_relu d_relu d_relu d_relu 800 Float d 4 zero one
    last_row one one m
  = BackwardPass_1_0.Run d_relu d_relu d_relu d_relu 800 Float d 4 one one
      one one one m.
Proof.
  intros d_relu zero one last_row d m.
  apply X6_backward_reads_in_extents; try reflexivity.
  intros k Hk. unfold last_row, one. simpl in Hk.
  destruct (24 <=? k) eqn:E; [|reflexivity].
  apply Z.leb_le in E. lia.
Defined.

Lemma X7_backward_writes_in_extents_witness :
  let d_relu := fun x : R => 1%R in
  let one : buffer := fun _ => 1%R in
  let d := BackwardPass_1_0.Data 2 0 3 3 in
  let m := BackwardPass_1_0.Mem one one one in
  exists m',
    BackwardPass_1_0.Run d_relu d_relu d_relu d_relu 800 Half d 4 one one one
      one one m = Ok m'
    /\ (BackwardPass_1_0.dwx m').[48] = (BackwardPass_1_0.dwx m).[48].
Proof.
  intros d_relu one d m.
  destruct (X7_backward_writes_in_extents d_relu d_relu d_relu d_relu 800
              Half d 4 one one one one one m eq_refl) as [m' [Hrun Hframe]].
  - lia.
  - exists m'. split; [exact Hrun|].
    destruct (Hframe 48) as [_ [Hdwx _]]. apply Hdwx. simpl. lia.
Defined.

Module Backward_1_0_Zero.
Import BackwardPass_1_0.

(** All three gradient arrays are zero everywhere. *)
Lemma PointwiseOperations_zero d_f B H h v dhp g dwx_ r c m :
  0 <= r -> 0 <= c ->
  (forall k, 0 <= k < B * H -> g.[k] = 0%R) ->
  (forall k, (dh m).[k] = 0%R) -> (forall k, (dwx m).[k] = 0%R) ->
  (forall k, (dh (PointwiseOperations d_f B H h v dhp g dwx_ r c m)).[k]
             = 0%R)
  /\ (forall k, (dwx (PointwiseOperations d_f B H h v dhp g dwx_ r c m)).[k]
                = 0%R).
Proof.
  intros Hr Hc Hg Hdh Hdwx. split; intros k.
  - rewrite Backward_1_0_Facts.PointwiseOperations_dh.
    destruct ((r >=? H) || (c >=? B)) eqn:Hguard; [apply Hdh|].
    apply guard_false in Hguard. unfold store.
    destruct (k =? dhp + (c * H + r)); [|apply Hdh].
    rewrite Hg, Hdh by nia. ring.
  - rewrite Backward_1_0_Facts.PointwiseOperations_dwx.
    destruct ((r >=? H) || (c >=? B)) eqn:Hguard; [apply Hdwx|].
    apply guard_false in Hguard. cbv zeta. unfold store.
    rewrite Hg, Hdh by nia.
    destruct (k =? dwx_ + (c * (H * 2) + r + 0 * H)); [ring|].
    destruct (k =? dwx_ + (c * (H * 2) + r + 1 * H)); [ring|].
    apply Hdwx.
Qed.

Lemma recurrent_gemm_zero d u_t dh_ dwx_ m :
  (forall k, (dh m).[k] = 0%R) -> (forall k, (dwx m).[k] = 0%R) ->
  forall k, (dh (recurrent_gemm d u_t dh_ dwx_ m)).[k] = 0%R.
Proof.
  intros Hdh Hdwx. unfold recurrent_gemm. cbn [dh set_dh].
  apply (gemm_all (fun _ x => x = 0%R)); [exact Hdh|].
  intros i j Hi Hj. unfold gemm_cell. cbv zeta.
  rewrite sum_upto_zero, Hdh; [lra|].
  intros l. unfold op, ptr_add. rewrite Hdwx. ring.
Qed.

Lemma Run_reduce_zero d Tn h m :
  (forall k, (du m).[k] = 0%R) -> (forall k, (dwx m).[k] = 0%R) ->
  forall k, (du (Run_reduce d Tn h m)).[k] = 0%R.
Proof.
  intros Hdu Hdwx. unfold Run_reduce. cbn [du set_du].
  apply (gemm_all (fun _ x => x = 0%R)); [exact Hdu|].
  intros i j Hi Hj. unfold gemm_cell. cbv zeta.
  rewrite sum_upto_zero, Hdu; [lra|].
  intros l. unfold op. rewrite Hdwx. ring.
Qed.

Section Engine.

Variables d_relu d_leaky_relu d_tanh d_sin : R -> R.
Variable cuda_arch : Z.
Variable T : scalar_t.

Local Abbreviation gate_kernel :=
  (gate_kernel d_relu d_leaky_relu d_tanh d_sin cuda_arch T).
Local Abbreviation Run_step :=
  (Run_step d_relu d_leaky_relu d_tanh d_sin cuda_arch T).
Local Abbreviation Run := (Run d_relu d_leaky_relu d_tanh d_sin cuda_arch T).
Local Abbreviation deriv := (derivative d_relu d_leaky_relu d_tanh d_sin).

Lemma gate_kernel_zero d h v g dh_ dwx_ m m1 :
  deriv (activation d) = None
  \/ (forall k, 0 <= k < batch_size d * hidden_size d -> g.[k] = 0%R) ->
  all_zero m -> gate_kernel d h v g dh_ dwx_ m = Ok m1 -> all_zero m1.
Proof.
  intros Hcond Hm E.
  destruct Hcond as [Hnone | Hg].
  - rewrite Backward_1_0_Facts.gate_kernel_none in E by assumption.
    inversion E. now subst.
  - destruct (Backward_1_0_More.gate_kernel_result _ _ _ _ _ _ _ _ _ _ _ _
                _ _ E) as [-> | [d_f ->]]; [exact Hm|].
    unfold launch.
    apply (fold_left_invariant all_zero); [|exact Hm].
    intros [r c] s Hin [Hdh [Hdwx Hdu]]. apply in_threads in Hin.
    cbn [fst snd].
    destruct (PointwiseOperations_zero d_f (batch_size d) (hidden_size d) h v
                dh_ g dwx_ r c s) as [Z1 Z2]; try assumption; try lia.
    split; [exact Z1 | split; [exact Z2|]].
    rewrite Backward_1_0_Facts.PointwiseOperations_du. exact Hdu.
Qed.

Lemma Run_step_zero d u h v g i m m1 :
  deriv (activation d) = None
  \/ (forall k, 0 <= k < batch_size d * hidden_size d ->
                g.[(i + 1) * (batch_size d * hidden_size d) + k] = 0%R) ->
  all_zero m -> Run_step d u h v g i m = Ok m1 -> all_zero m1.
Proof.
  intros Hcond Hm.
  unfold BackwardPass_1_0.Run_step, BackwardPass_1_0.IterateInternal.
  destruct (gate_kernel _ _ _ _ _ _ _) as [m'|msg] eqn:Hk; simpl;
    [|discriminate].
  intros E. inversion E. subst m1. clear E.
  assert (Hm' : all_zero m').
  { apply (gate_kernel_zero _ _ _ _ _ _ _ _ Hcond Hm Hk). }
  destruct Hm' as [Hdh [Hdwx Hdu]].
  split; [|split].
  - now apply recurrent_gemm_zero.
  - exact Hdwx.
  - exact Hdu.
Qed.

Lemma Run_zero d Tn wx u h v g m m1 :
  deriv (activation d) = None
  \/ (forall k, batch_size d * hidden_size d <= k
                < (Tn + 1) * (batch_size d * hidden_size d) -> g.[k] = 0%R) ->
  all_zero m -> Run d Tn wx u h v g m = Ok m1 -> all_zero m1.
Proof.
  intros Hcond Hm.
  unfold BackwardPass_1_0.Run, BackwardPass_1_0.Run_scan.
  destruct (for_downM (Z.to_nat Tn) (Run_step d u h v g) m) as [m'|msg]
    eqn:Hscan; simpl; [|discriminate].
  intros E. inversion E. subst m1. clear E.
  assert (Hm' : all_zero m').
  { refine (for_downM_invariant all_zero _ _ _ _ _ Hm Hscan).
    intros i s s' Hi Hs. apply Run_step_zero; [|exact Hs].
    destruct Hcond as [Hnone | Hg]; [now left | right].
    intros k Hk. apply Hg. nia. }
  destruct Hm' as [Hdh [Hdwx Hdu]].
  split; [exact Hdh | split; [exact Hdwx|]].
  now apply Run_reduce_zero.
Qed.

End Engine.

End Backward_1_0_Zero.

(** Without a kernel to launch the scan cannot abort. *)
Lemma Run_scan_no_kernel (d_relu d_leaky_relu d_tanh d_sin : R -> R)
    cuda_arch ty d n u h v g m :
  derivative d_relu d_leaky_relu d_tanh d_sin (BackwardPass_1_0.activation d)
  = None ->
  exists m1,
    BackwardPass_1_0.Run_scan d_relu d_leaky_relu d_tanh d_sin cuda_arch ty d
      n u h v g m = Ok m1.
Proof.
  intros Hd. unfold BackwardPass_1_0.Run_scan.
  generalize (Z.to_nat n) as k. intros k. revert m.
  induction k as [|k IH]; intros m; simpl.
  - eexists. reflexivity.
  - unfold BackwardPass_1_0.Run_step at 1, BackwardPass_1_0.IterateInternal.
    rewrite Backward_1_0_Facts.gate_kernel_none by exact Hd.
    simpl. apply IH.
Qed.

Lemma derivative_none (d_relu d_leaky_relu d_tanh d_sin : R -> R) act :
  ~ (0 <= act <= 3) ->
  derivative d_relu d_leaky_relu d_tanh d_sin act = None.
Proof.
  intros Hact. unfold derivative.
  destruct (act =? 0) eqn:E0; [lia|].
  destruct (act =? 1) eqn:E1; [lia|].
  destruct (act =? 2) eqn:E2; [lia|].
  destruct (act =? 3) eqn:E3; [lia|]. reflexivity.
Qed.



(** X9.  An activation id outside 0..3 is not reported by the backward
    entry.  No gate kernel is launched, so the entry returns normally, also
    for half precision below compute capability 7.0, and the [du], [dwx] and
    [dh] it returns are zero everywhere, whatever [grad_out] is. *)
Theorem X9_backward_unknown_activation_returns_zeros :
  forall (d_relu d_leaky_relu d_tanh d_sin : R -> R) cuda_arch
         wx u h cache grad_out act,
    ~ (0 <= act <= 3) ->
    exists du dwx dh,
      Pytorch.ligru_1_0_backward d_relu d_leaky_relu d_tanh d_sin cuda_arch
        wx u h cache grad_out act = Ok (du, dwx, dh)
      /\ forall k,
           (Pytorch.data du).[k] = 0%R /\ (Pytorch.data dwx).[k] = 0%R
           /\ (Pytorch.data dh).[k] = 0%R.
Proof.
  intros d_relu d_leaky_relu d_tanh d_sin cuda_arch wx u h cache grad_out act
         Hact.
  unfold Pytorch.ligru_1_0_backward.
  set (d := BackwardPass_1_0.Data _ _ _ _).
  set (m0 := BackwardPass_1_0.Mem _ _ _).
  assert (Hd : derivative d_relu d_leaky_relu d_tanh d_sin
                 (BackwardPass_1_0.activation d) = None)
    by (apply derivative_none; exact Hact).
  destruct (Run_scan_no_kernel d_relu d_leaky_relu d_tanh d_sin cuda_arch
              (Pytorch.scalar_type wx) d (Pytorch.size wx 0)
              (Pytorch.data u) (Pytorch.data h) (Pytorch.data cache)
              (Pytorch.data grad_out) m0 Hd) as [m1 Hscan].
  assert (Hrun : BackwardPass_1_0.Run d_relu d_leaky_relu d_tanh d_sin
                   cuda_arch (Pytorch.scalar_type wx) d (Pytorch.size wx 0)
                   (Pytorch.data wx) (Pytorch.data u) (Pytorch.data h)
                   (Pytorch.data cache) (Pytorch.data grad_out) m0
                 = Ok (BackwardPass_1_0.Run_reduce d (Pytorch.size wx 0)
                         (Pytorch.data h) m1)).
  { unfold BackwardPass_1_0.Run. rewrite Hscan. reflexivity. }
  rewrite Hrun. cbn [bind].
  do 3 eexists. split; [reflexivity|].
  assert (Hz : all_zero
                 (BackwardPass_1_0.Run_reduce d (Pytorch.size wx 0)
                    (Pytorch.data h) m1)).
  { apply (Backward_1_0_Zero.Run_zero d_relu d_leaky_relu d_tanh d_sin
             cuda_arch (Pytorch.scalar_type wx) d (Pytorch.size wx 0)
             (Pytorch.data wx) (Pytorch.data u) (Pytorch.data h)
             (Pytorch.data cache) (Pytorch.data grad_out) m0 _
             (or_introl Hd)); [|exact Hrun].
    repeat split. }
  destruct Hz as [Hdh [Hdwx Hdu]].
  intros k. cbn [Pytorch.data Pytorch.with_data]. auto.
Qed.

Lemma X9_backward_unknown_activation_returns_zeros_witness :
  let d_relu := fun x : R => 1%R in
  let one : buffer := fun _ => 1%R in
  let wx := Pytorch.MkTensor [4; 2; 6] Half one in
  let t := Pytorch.MkTensor [] Half one in
  exists du dwx dh,
    Pytorch.ligru_1_0_backward d_relu d_relu d_relu d_relu 600 wx t t t t 4
    = Ok (du, dwx, dh)
    /\ forall k,
         (Pytorch.data du).[k] = 0%R /\ (Pytorch.data dwx).[k] = 0%R
         /\ (Pytorch.data dh).[k] = 0%R.
Proof.
  intros d_relu one wx t.
  apply X9_backward_unknown_activation_returns_zeros. lia.
Defined.

(** ** Thread schedules *)

Lemma fold_left_permutation {S X : Type} (f : S -> X -> S) (P : X -> Prop)
    (l l' : list X) :
  Permutation l l' ->
  (forall x, In x l -> P x) ->
  (forall x y s, P x -> P y -> f (f s x) y = f (f s y) x) ->
  forall s, fold_left f l s = fold_left f l' s.
Proof.
  intros Hperm. induction Hperm as [|x l l' _ IH|x y l|l l' l'' H1 IH1 H2 IH2];
    intros HP Hcomm s; simpl.
  - reflexivity.
  - apply IH; [|exact Hcomm]. intros z Hz. apply HP. now right.
  - f_equal. apply Hcomm; apply HP; simpl; auto.
  - rewrite IH1 by assumption. apply IH2; [|exact Hcomm].
    intros z Hz. apply HP. apply (Permutation_in z (Permutation_sym H1) Hz).
Qed.

(** Two distinct threads inside the guard own cells of different rows of the
    [B x (k*H)] arrays. *)
Lemma thread_cells_apart H r1 c1 r2 c2 :
  0 <= r1 < H -> 0 <= r2 < H -> (r1, c1) <> (r2, c2) ->
  (c1 = c2 /\ r1 <> r2) \/ c1 * H + H <= c2 * H \/ c2 * H + H <= c1 * H.
Proof.
  intros H1 H2 Hne.
  destruct (Z.eq_dec c1 c2) as [->|Hc].
  - left. split; [reflexivity|]. intros ->. now apply Hne.
  - right. destruct (Z.lt_ge_cases c1 c2); [left|right]; nia.
Qed.

Lemma forward_threads_commute f Training B H wx uh h_ h_out v_ x y m :
  h_ + B * H <= h_out \/ h_out + B * H <= h_ ->
  0 <= fst x /\ 0 <= snd x -> 0 <= fst y /\ 0 <= snd y ->
  ForwardPass.PointwiseOperations f Training B H wx uh h_ h_out v_
    (fst y) (snd y)
    (ForwardPass.PointwiseOperations f Training B H wx uh h_ h_out v_
       (fst x) (snd x) m)
  = ForwardPass.PointwiseOperations f Training B H wx uh h_ h_out v_
      (fst x) (snd x)
      (ForwardPass.PointwiseOperations f Training B H wx uh h_ h_out v_
         (fst y) (snd y) m).
Proof.
  destruct x as [r1 c1], y as [r2 c2]. cbn [fst snd].
  intros Hdisj [Hr1 Hc1] [Hr2 Hc2].
  destruct (Z.eq_dec r1 r2) as [Er|Er];
    [destruct (Z.eq_dec c1 c2) as [Ec|Ec]; [subst; reflexivity|]|].
  all: unfold ForwardPass.PointwiseOperations.
  all: destruct ((r1 >=? H) || (c1 >=? B)) eqn:G1;
    destruct ((r2 >=? H) || (c2 >=? B)) eqn:G2;
    rewrite ?G1, ?G2; try reflexivity.
  all: apply guard_false in G1; apply guard_false in G2.
  all: assert (Hne : (r1, c1) <> (r2, c2)) by congruence.
  all: pose proof (thread_cells_apart H r1 c1 r2 c2 ltac:(lia) ltac:(lia) Hne)
    as Hap.
  all: assert (HB1 : c1 * H + H <= B * H) by nia.
  all: assert (HB2 : c2 * H + H <= B * H) by nia.
  all: assert (HP1 : 0 <= c1 * H) by nia.
  all: assert (HP2 : 0 <= c2 * H) by nia.
  all: destruct Training; unfold ForwardPass.set_h, ForwardPass.set_v;
    cbn [ForwardPass.h ForwardPass.v ForwardPass.tmp_uh
         ForwardPass.tmp_uh_norm].
  all: f_equal.
  all: try (rewrite !store_neq by lia).
  all: apply functional_extensionality; intros k; split_stores.
Qed.

Lemma backward_1_0_threads_commute d_f B H h v dh_ g dwx_ x y m :
  0 <= fst x /\ 0 <= snd x -> 0 <= fst y /\ 0 <= snd y ->
  BackwardPass_1_0.PointwiseOperations d_f B H h v dh_ g dwx_ (fst y) (snd y)
    (BackwardPass_1_0.PointwiseOperations d_f B H h v dh_ g dwx_
       (fst x) (snd x) m)
  = BackwardPass_1_0.PointwiseOperations d_f B H h v dh_ g dwx_
      (fst x) (snd x)
      (BackwardPass_1_0.PointwiseOperations d_f B H h v dh_ g dwx_
         (fst y) (snd y) m).
Proof.
  destruct x as [r1 c1], y as [r2 c2]. cbn [fst snd].
  intros [Hr1 Hc1] [Hr2 Hc2].
  destruct (Z.eq_dec r1 r2) as [Er|Er];
    [destruct (Z.eq_dec c1 c2) as [Ec|Ec]; [subst; reflexivity|]|].
  all: unfold BackwardPass_1_0.PointwiseOperations.
  all: destruct ((r1 >=? H) || (c1 >=? B)) eqn:G1;
    destruct ((r2 >=? H) || (c2 >=? B)) eqn:G2;
    rewrite ?G1, ?G2; try reflexivity.
  all: apply guard_false in G1; apply guard_false in G2.
  all: assert (Hne : (r1, c1) <> (r2, c2)) by congruence.
  all: pose proof (thread_cells_apart H r1 c1 r2 c2 ltac:(lia) ltac:(lia) Hne)
    as Hap.
  all: unfold BackwardPass_1_0.set_dh, BackwardPass_1_0.set_dwx;
    cbn [BackwardPass_1_0.dh BackwardPass_1_0.dwx BackwardPass_1_0.du].
  all: f_equal.
  all: try (rewrite !store_neq by lia).
  all: apply functional_extensionality; intros k; split_stores.
Qed.

Lemma backward_2_0_threads_commute d_f B H h v dh_ g dwx_ x y m :
  0 <= fst x /\ 0 <= snd x -> 0 <= fst y /\ 0 <= snd y ->
  BackwardPass_2_0.PointwiseOperations d_f B H h v dh_ g dwx_ (fst y) (snd y)
    (BackwardPass_2_0.PointwiseOperations d_f B H h v dh_ g dwx_
       (fst x) (snd x) m)
  = BackwardPass_2_0.PointwiseOperations d_f B H h v dh_ g dwx_
      (fst x) (snd x)
      (BackwardPass_2_0.PointwiseOperations d_f B H h v dh_ g dwx_
         (fst y) (snd y) m).
Proof.
  destruct x as [r1 c1], y as [r2 c2]. cbn [fst snd].
  intros [Hr1 Hc1] [Hr2 Hc2].
  destruct (Z.eq_dec r1 r2) as [Er|Er];
    [destruct (Z.eq_dec c1 c2) as [Ec|Ec]; [subst; reflexivity|]|].
  all: unfold BackwardPass_2_0.PointwiseOperations.
  all: destruct ((r1 >=? H) || (c1 >=? B)) eqn:G1;
    destruct ((r2 >=? H) || (c2 >=? B)) eqn:G2;
    rewrite ?G1, ?G2; try reflexivity.
  all: apply guard_false in G1; apply guard_false in G2.
  all: assert (Hne : (r1, c1) <> (r2, c2)) by congruence.
  all: pose proof (thread_cells_apart H r1 c1 r2 c2 ltac:(lia) ltac:(lia) Hne)
    as Hap.
  all: unfold BackwardPass_2_0.set_dh, BackwardPass_2_0.set_dwx;
    cbn [BackwardPass_2_0.dh BackwardPass_2_0.dwx BackwardPass_2_0.du
         BackwardPass_2_0.tmp_dwx].
  all: f_equal.
  all: try (rewrite !store_neq by lia).
  all: apply functional_extensionality; intros k; split_stores.
Qed.

Lemma threads_nonneg g bd x :
  In x (threads g bd) -> 0 <= fst x /\ 0 <= snd x.
Proof.
  destruct x as [r c]. intros Hin. apply in_threads in Hin. cbn [fst snd]. lia.
Qed.

(** X10.  The result of a forward gate-kernel launch does not depend on the
    order in which its threads run: running the thread bodies in any
    permutation of the grid gives the memory the launch gives, provided the
    [B * H] cells read at [h] and written at [h_out] do not overlap (in [Run]
    they are consecutive rows).  Each thread reads and writes only cells that
    no other thread of the launch writes. *)
Theorem X10_forward_launch_schedule_independent :
  forall (f : R -> R) Training B H wx uh h_ h_out v_ gridDim blockDim
         (schedule : list (Z * Z)) (m : ForwardPass.mem),
    h_ + B * H <= h_out \/ h_out + B * H <= h_ ->
    Permutation schedule (threads gridDim blockDim) ->
    fold_left
      (fun s rc =>
         ForwardPass.PointwiseOperations f Training B H wx uh h_ h_out v_
           (fst rc) (snd rc) s) schedule m
    = launch gridDim blockDim
        (ForwardPass.PointwiseOperations f Training B H wx uh h_ h_out v_) m.
Proof.
  intros f Training B H wx uh h_ h_out v_ g bd l m Hdisj Hperm.
  unfold launch.
  apply (fold_left_permutation _ (fun x => 0 <= fst x /\ 0 <= snd x) l
           (threads g bd) Hperm).
  - intros x Hx. apply (threads_nonneg g bd).
    apply (Permutation_in x Hperm Hx).
  - intros x y s Hx Hy. apply forward_threads_commute; assumption.
Qed.

Lemma X10_forward_launch_schedule_independent_witness :
  let zero : buffer := fun _ => 0%R in
  let m := ForwardPass.Mem zero zero zero zero in
  fold_left
    (fun s rc =>
       ForwardPass.PointwiseOperations tanh true 2 3 zero zero 0 6 0
         (fst rc) (snd rc) s)
    (rev (threads (pass_gridDim 2 3) pass_blockDim)) m
  = launch (pass_gridDim 2 3) pass_blockDim
      (ForwardPass.PointwiseOperations tanh true 2 3 zero zero 0 6 0) m.
Proof.
  intros zero m.
  apply X10_forward_launch_schedule_independent.
  - left. lia.
  - apply Permutation_sym, Permutation_rev.
Defined.

(** X11.  The result of a backward gate-kernel launch (ligru_1_0 generic
    kernels and ligru_2_0 kernels) does not depend on the order in which its
    threads run: every thread reads and updates its own cell of [dh] and
    writes its own two cells of [dwx]. *)
Theorem X11_backward_launch_schedule_independent :
  forall (d_f : R -> R) B H h v dh_ grad_out dwx_ gridDim blockDim
         (schedule : list (Z * Z)),
    Permutation schedule (threads gridDim blockDim) ->
    (forall m : BackwardPass_1_0.mem,
        fold_left
          (fun s rc =>
             BackwardPass_1_0.PointwiseOperations d_f B H h v dh_ grad_out
               dwx_ (fst rc) (snd rc) s) schedule m
        = launch gridDim blockDim
            (BackwardPass_1_0.PointwiseOperations d_f B H h v dh_ grad_out
               dwx_) m)
    /\ (forall m : BackwardPass_2_0.mem,
           fold_left
             (fun s rc =>
                BackwardPass_2_0.PointwiseOperations d_f B H h v dh_ grad_out
                  dwx_ (fst rc) (snd rc) s) schedule m
           = launch gridDim blockDim
               (BackwardPass_2_0.PointwiseOperations d_f B H h v dh_ grad_out
                  dwx_) m).
Proof.
  intros d_f B H h v dh_ g dwx_ gd bd l Hperm.
  assert (HP : forall x, In x l -> 0 <= fst x /\ 0 <= snd x).
  { intros x Hx. apply (threads_nonneg gd bd).
    apply (Permutation_in x Hperm Hx). }
  split; intros m; unfold launch.
  - apply (fold_left_permutation _ (fun x => 0 <= fst x /\ 0 <= snd x) l
             (threads gd bd) Hperm HP).
    intros x y s Hx Hy. apply backward_1_0_threads_commute; assumption.
  - apply (fold_left_permutation _ (fun x => 0 <= fst x /\ 0 <= snd x) l
             (threads gd bd) Hperm HP).
    intros x y s Hx Hy. apply backward_2_0_threads_commute; assumption.
Qed.

Lemma X11_backward_launch_schedule_independent_witness :
  let one : buffer := fun _ => 1%R in
  let m := BackwardPass_1_0.Mem one one one in
  fold_left
    (fun s rc =>
       BackwardPass_1_0.PointwiseOperations cos 2 3 one one 0 one 0
         (fst rc) (snd rc) s)
    (rev (threads (pass_gridDim 2 3) pass_blockDim)) m
  = launch (pass_gridDim 2 3) pass_blockDim
      (BackwardPass_1_0.PointwiseOperations cos 2 3 one one 0 one 0) m.
Proof.
  intros one m.
  apply (X11_backward_launch_schedule_independent cos 2 3 one one 0 one 0
           (pass_gridDim 2 3) pass_blockDim
           (rev (threads (pass_gridDim 2 3) pass_blockDim))).
  apply Permutation_sym, Permutation_rev.
Defined.

(** ** Range of the hidden states *)

Lemma gate_spec_between f wx uh H b j hp lo hi :
  (lo <= hp <= hi)%R -> (lo <= f (wx.[b * (2 * H) + 0 * H + j]
                                  + uh.[b * (2 * H) + 0 * H + j])%R <= hi)%R ->
  (lo <= gate_spec f wx uh H b j hp <= hi)%R.
Proof.
  intros Hhp Hf. unfold gate_spec. cbv zeta.
  pose proof (sigmoid_bounds (wx.[b * (2 * H) + 1 * H + j]
                              + uh.[b * (2 * H) + 1 * H + j])%R) as Hz.
  set (z := sigmoid _) in *. set (c := f _) in *.
  split; nra.
Qed.

(** X12.  The hidden states never leave the range of their inputs: when the
    gate kernel is launched (activation id 0..3, not sin in inference) and
    the candidate activation takes its values in [[lo, hi]], an initial
    hidden state in [[lo, hi]] keeps every entry of every row of the
    returned sequence in [[lo, hi]], whatever the inputs, the weights and the
    layer-norm co-pass are.  For tanh and sin this is [[-1, 1]]. *)
Theorem X12_hidden_states_stay_in_range :
  forall (relu leaky_relu : R -> R) layer_norm1 d T wx u m f (lo hi : R),
    candidate relu leaky_relu (ForwardPass.activation d) = Some f ->
    ForwardPass.training d = true \/ ForwardPass.activation d <> 2 ->
    (forall x, lo <= f x <= hi)%R ->
    let B := ForwardPass.batch_size d in
    let H := ForwardPass.hidden_size d in
    let NH := B * H in
    (forall b j, 0 <= b < B -> 0 <= j < H ->
                 (lo <= (ForwardPass.h m).[b * H + j] <= hi)%R) ->
    forall t b j,
      0 <= t <= T -> 0 <= b < B -> 0 <= j < H ->
      (lo <= (ForwardPass.h
                (ForwardPass.Run relu leaky_relu layer_norm1 d T wx u m))
             .[t * NH + (b * H + j)] <= hi)%R.
Proof.
  intros relu leaky_relu layer_norm1 d T wx u m f lo hi Hf Hsup Hrange B H NH
         Hinit t b j Ht Hb Hj.
  unfold ForwardPass.Run.
  assert (Hgen : forall (n : nat) t,
            0 <= t <= Z.of_nat n ->
            (lo <= (ForwardPass.h
                      (for_up n
                         (ForwardPass.Run_step relu leaky_relu layer_norm1 d
                            wx u) m)).[t * NH + (b * H + j)] <= hi)%R).
  { induction n as [|n IH]; intros t' Ht'.
    - simpl. assert (t' = 0) by lia. subst t'.
      replace (0 * NH + (b * H + j)) with (b * H + j) by lia.
      apply Hinit; assumption.
    - cbn [for_up].
      destruct (Z.eq_dec t' (Z.of_nat n + 1)) as [->|Hne].
      + pose proof (ForwardFacts.Run_step_h_out relu leaky_relu layer_norm1 d
                      wx u (Z.of_nat n)
                      (for_up n
                         (ForwardPass.Run_step relu leaky_relu layer_norm1 d
                            wx u) m) f b j Hf Hsup Hb Hj) as Hout.
        cbv zeta in Hout. fold B H NH in Hout. rewrite Hout.
        apply gate_spec_between; [apply IH; lia | apply Hrange].
      + rewrite ForwardFacts.Run_step_h_frame; [apply IH; lia|].
        cbv zeta. fold B H NH. subst NH. nia. }
  apply Hgen. lia.
Qed.

Lemma X12_hidden_states_stay_in_range_witness :
  let relu := fun x : R => Rmax 0 x in
  let leaky_relu := fun x : R => x in
  let layer_norm1 :=
    fun (_ : Z) (x : buffer) (_ : Z) (_ : buffer) (_ : Z) => x in
  let zero : buffer := fun _ => 0%R in
  let one : buffer := fun _ => 1%R in
  let d := ForwardPass.Data true 2 0 3 2 in
  let m := ForwardPass.Mem zero zero zero zero in
  (-1 <= (ForwardPass.h
            (ForwardPass.Run relu leaky_relu layer_norm1 d 4 one one m))
         .[4 * (2 * 3) + (1 * 3 + 2)] <= 1)%R.
Proof.
  intros relu leaky_relu layer_norm1 zero one d m.
  pose proof (X12_hidden_states_stay_in_range relu leaky_relu layer_norm1 d 4
                one one m sin (-1) 1 eq_refl (or_introl eq_refl) SIN_bound)
    as Hx.
  cbv zeta in Hx.
  assert (Hinit : forall b j : Z,
             0 <= b < ForwardPass.batch_size d ->
             0 <= j < ForwardPass.hidden_size d ->
             (-1 <= (ForwardPass.h m).[b * ForwardPass.hidden_size d + j]
              <= 1)%R).
  { intros b j _ _. unfold m, zero. cbn [ForwardPass.h]. lra. }
  assert (H4 : 0 <= 4 <= 4) by lia.
  assert (H1 : 0 <= 1 < ForwardPass.batch_size d) by (cbn; lia).
  assert (H2 : 0 <= 2 < ForwardPass.hidden_size d) by (cbn; lia).
  exact (Hx Hinit 4 1 2 H4 H1 H2).
Defined.

(** ** ligru_2_0: what the backward pass writes *)

Module Backward_2_0_More.
Import BackwardPass_2_0.

Section Engine.

Variables d_relu d_leaky_relu d_tanh d_sin : R -> R.
Variable layer_norm1 : Z -> buffer -> Z -> buffer -> Z -> buffer.

Local Abbreviation gate_kernel :=
  (gate_kernel d_relu d_leaky_relu d_tanh d_sin).
Local Abbreviation Run_step :=
  (Run_step d_relu d_leaky_relu d_tanh d_sin layer_norm1).
Local Abbreviation deriv := (derivative d_relu d_leaky_relu d_tanh d_sin).

Lemma gate_kernel_frame_2_0 d h v g dh_ dwx_ m :
  (forall k, ~ (dh_ <= k < dh_ + batch_size d * hidden_size d) ->
     (dh (gate_kernel d h v g dh_ dwx_ m)).[k] = (dh m).[k])
  /\ (forall k, ~ (dwx_ <= k < dwx_ + batch_size d * hidden_size d * 2) ->
        (dwx (gate_kernel d h v g dh_ dwx_ m)).[k] = (dwx m).[k]).
Proof.
  pose proof (Backward_2_0_Facts.gate_kernel_cases d_relu d_leaky_relu d_tanh
                d_sin d h v g dh_ dwx_ m) as Hc.
  destruct (deriv (activation d)) as [d_f|]; rewrite Hc;
    [|split; reflexivity].
  split; intros k Hk.
  - change (BackwardPass_1_0.dh
              (gradients_of
                 (launch (pass_gridDim (batch_size d) (hidden_size d))
                    pass_blockDim
                    (PointwiseOperations d_f (batch_size d) (hidden_size d)
                       h v dh_ g dwx_) m)) k
            = BackwardPass_1_0.dh (gradients_of m) k).
    rewrite Backward_2_0_Facts.launch_sim.
    apply (launch_frame (fun s => (BackwardPass_1_0.dh s).[k])).
    intros r c s Hr Hc'.
    now apply Backward_1_0_More.PointwiseOperations_frame.
  - change (BackwardPass_1_0.dwx
              (gradients_of
                 (launch (pass_gridDim (batch_size d) (hidden_size d))
                    pass_blockDim
                    (PointwiseOperations d_f (batch_size d) (hidden_size d)
                       h v dh_ g dwx_) m)) k
            = BackwardPass_1_0.dwx (gradients_of m) k).
    rewrite Backward_2_0_Facts.launch_sim.
    apply (launch_frame (fun s => (BackwardPass_1_0.dwx s).[k])).
    intros r c s Hr Hc'.
    now apply Backward_1_0_More.PointwiseOperations_frame.
Qed.

Lemma Run_step_frame_2_0 d u h v g i m :
  let NH := batch_size d * hidden_size d in
  (forall k, ~ (0 <= k < NH) -> (dh (Run_step d u h v g i m)).[k] = (dh m).[k])
  /\ (forall k, ~ (i * (NH * 2) <= k < (i + 1) * (NH * 2)) ->
        (dwx (Run_step d u h v g i m)).[k] = (dwx m).[k]).
Proof.
  intros NH.
  unfold BackwardPass_2_0.Run_step, BackwardPass_2_0.IterateInternal.
  fold NH. cbn [dh dwx set_dh set_tmp_dwx].
  destruct (gate_kernel_frame_2_0 d (ptr_add h (i * NH))
              (ptr_add v (i * NH * 3)) (ptr_add g ((i + 1) * NH)) 0
              (i * NH * 2) m) as [Fdh Fdwx].
  fold NH in Fdh, Fdwx.
  split; intros k Hk.
  - rewrite gemm_frame by (intros a b Ha Hb; fold NH; nia).
    apply Fdh. lia.
  - apply Fdwx. lia.
Qed.

Lemma for_down_frame_2_0 d u h v g n m :
  let NH := batch_size d * hidden_size d in
  (forall k, ~ (0 <= k < NH) ->
     (dh (for_down n (Run_step d u h v g) m)).[k] = (dh m).[k])
  /\ (forall k, ~ (0 <= k < Z.of_nat n * (NH * 2)) ->
        (dwx (for_down n (Run_step d u h v g) m)).[k] = (dwx m).[k]).
Proof.
  intros NH. revert m. induction n as [|n IH]; intros m;
    [split; reflexivity|].
  cbn [for_down].
  destruct (IH (Run_step d u h v g (Z.of_nat n) m)) as [F1 F2].
  destruct (Run_step_frame_2_0 d u h v g (Z.of_nat n) m) as [S1 S2].
  fold NH in S1, S2.
  split; intros k Hk.
  - rewrite F1 by exact Hk. now apply S1.
  - rewrite F2 by nia. apply S2. nia.
Qed.

End Engine.

End Backward_2_0_More.

(** X13.  Whatever the layer-norm co-pass does, the ligru_2_0 backward pass
    writes [dh] only inside [B, H], [dwx] only inside [T, B, 2H] and [du]
    only inside [H, 2H]: the co-pass output goes to [tmp_dwx] and nowhere
    else. *)
Theorem X13_backward_2_0_writes_in_extents :
  forall (d_relu d_leaky_relu d_tanh d_sin : R -> R) layer_norm1 d T
         wx u h v g m,
    let H := BackwardPass_2_0.hidden_size d in
    let NH := BackwardPass_2_0.batch_size d * H in
    0 <= T ->
    let m' :=
      BackwardPass_2_0.Run d_relu d_leaky_relu d_tanh d_sin layer_norm1 d T
        wx u h v g m in
    forall k,
      (~ (0 <= k < NH) ->
       (BackwardPass_2_0.dh m').[k] = (BackwardPass_2_0.dh m).[k])
      /\ (~ (0 <= k < T * (NH * 2)) ->
          (BackwardPass_2_0.dwx m').[k] = (BackwardPass_2_0.dwx m).[k])
      /\ (~ (0 <= k < H * (2 * H)) ->
          (BackwardPass_2_0.du m').[k] = (BackwardPass_2_0.du m).[k]).
Proof.
  intros d_relu d_leaky_relu d_tanh d_sin layer_norm1 d T wx u h v g m H NH HT
         m' k.
  subst m'. unfold BackwardPass_2_0.Run, BackwardPass_2_0.Run_reduce.
  cbn [BackwardPass_2_0.dh BackwardPass_2_0.dwx BackwardPass_2_0.du
       BackwardPass_2_0.set_du].
  unfold BackwardPass_2_0.Run_scan at 1 2.
  destruct (Backward_2_0_More.for_down_frame_2_0 d_relu d_leaky_relu d_tanh
              d_sin layer_norm1 d u h v g (Z.to_nat T) m) as [F1 F2].
  fold H NH in F1, F2. rewrite Z2Nat.id in F2 by lia.
  split; [apply F1 | split; [apply F2|]].
  intros Hk. rewrite gemm_frame by (intros i j Hi Hj; fold H; nia).
  apply (f_equal (fun b : buffer => b k)).
  apply Backward_2_0_Facts.Run_scan_du_2_0.
Qed.

Lemma X13_backward_2_0_writes_in_extents_witness :
  let d_relu := fun x : R => 1%R in
  let layer_norm1 :=
    fun (_ : Z) (x : buffer) (_ : Z) (_ : buffer) (_ : Z) => x in
  let one : buffer := fun _ => 1%R in
  let d := BackwardPass_2_0.Data 2 0 3 3 in
  let m := BackwardPass_2_0.Mem one one one one in
  (BackwardPass_2_0.dwx
     (BackwardPass_2_0.Run d_relu d_relu d_relu d_relu layer_norm1 d 4 one one
        one one one m)).[48]
  = (BackwardPass_2_0.dwx m).[48].
Proof.
  intros d_relu layer_norm1 one d m.
  pose proof (X13_backward_2_0_writes_in_extents d_relu d_relu d_relu d_relu
                layer_norm1 d 4 one one one one one m) as Hx.
  cbv zeta in Hx.
  assert (H0 : 0 <= 4) by lia.
  destruct (Hx H0 48) as [_ [Hdwx _]].
  apply Hdwx. cbn. lia.
Defined.

(** ** Causality of the forward pass *)

Module ForwardCausal.
Import ForwardPass.

Lemma PointwiseOperations_wx f Tr B H wx1 wx2 uh h_ h_out v_ r c m :
  0 <= r -> 0 <= c ->
  (forall k, 0 <= k < B * H * 2 -> wx1.[k] = wx2.[k]) ->
  PointwiseOperations f Tr B H wx1 uh h_ h_out v_ r c m
  = PointwiseOperations f Tr B H wx2 uh h_ h_out v_ r c m.
Proof.
  intros Hr Hc Hwx. unfold PointwiseOperations.
  destruct ((r >=? H) || (c >=? B)) eqn:Hg; [reflexivity|].
  apply guard_false in Hg. cbv zeta.
  rewrite (Hwx (c * (H * 2) + r + 0 * H)) by nia.
  rewrite (Hwx (c * (H * 2) + r + 1 * H)) by nia.
  reflexivity.
Qed.

Section Engine.

Variables relu leaky_relu : R -> R.
Variable layer_norm1 : Z -> buffer -> Z -> buffer -> Z -> buffer.

Local Abbreviation IterateInternal :=
  (IterateInternal relu leaky_relu layer_norm1).
Local Abbreviation Run_step := (Run_step relu leaky_relu layer_norm1).

Lemma IterateInternal_wx d u h_ h_out v_ wx1 wx2 tu tun m :
  (forall k, 0 <= k < batch_size d * hidden_size d * 2 -> wx1.[k] = wx2.[k]) ->
  IterateInternal d u h_ h_out v_ wx1 tu tun m
  = IterateInternal d u h_ h_out v_ wx2 tu tun m.
Proof.
  intros Hwx. unfold ForwardPass.IterateInternal. cbv zeta.
  unfold PointwiseOperationsReLU, PointwiseOperationsLeakyReLU,
    PointwiseOperationsSin, PointwiseOperationsTanh.
  destruct (training d);
    repeat match goal with
           | |- context [activation d =? ?n] => destruct (activation d =? n)
           end;
    try reflexivity;
    apply launch_ext; intros r c s Hr Hc;
    apply PointwiseOperations_wx; assumption.
Qed.

(** The first [n] steps read only the first [n] rows of [wx]. *)
Lemma for_up_wx d wx1 wx2 u n m :
  let NH := batch_size d * hidden_size d in
  0 <= NH ->
  (forall k, 0 <= k < Z.of_nat n * (NH * 2) -> wx1.[k] = wx2.[k]) ->
  for_up n (Run_step d wx1 u) m = for_up n (Run_step d wx2 u) m.
Proof.
  intros NH HNH. induction n as [|n IH]; intros Hwx; [reflexivity|].
  cbn [for_up]. rewrite IH by (intros k Hk; apply Hwx; nia).
  unfold ForwardPass.Run_step. fold NH.
  apply IterateInternal_wx. fold NH.
  intros k Hk. unfold ptr_add. apply Hwx. nia.
Qed.

End Engine.

End ForwardCausal.

(** X14.  The forward pass is causal: rows [0 .. t] of the hidden-state
    sequence and rows [0 .. t-1] of the cache depend only on rows
    [0 .. t-1] of [wx].  Two inputs that agree on their first [t] time steps
    give the same hidden states up to [h_t], whatever comes later. *)
Theorem X14_forward_is_causal :
  forall (relu leaky_relu : R -> R) layer_norm1 d T wx1 wx2 u m t,
    let B := ForwardPass.batch_size d in
    let H := ForwardPass.hidden_size d in
    let NH := B * H in
    0 <= B -> 0 <= H -> 0 <= t <= T ->
    (forall k, 0 <= k < t * (NH * 2) -> wx1.[k] = wx2.[k]) ->
    let final1 := ForwardPass.Run relu leaky_relu layer_norm1 d T wx1 u m in
    let final2 := ForwardPass.Run relu leaky_relu layer_norm1 d T wx2 u m in
    (forall k, k < (t + 1) * NH ->
               (ForwardPass.h final1).[k] = (ForwardPass.h final2).[k])
    /\ (forall k, k < t * (NH * 3) ->
                  (ForwardPass.v final1).[k] = (ForwardPass.v final2).[k]).
Proof.
  intros relu leaky_relu layer_norm1 d T wx1 wx2 u m t B H NH HB HH Ht Hwx
         final1 final2.
  assert (HNH : 0 <= ForwardPass.batch_size d * ForwardPass.hidden_size d)
    by (fold B H; nia).
  assert (Hle : (Z.to_nat t <= Z.to_nat T)%nat) by lia.
  assert (Hpre : for_up (Z.to_nat t)
                   (ForwardPass.Run_step relu leaky_relu layer_norm1 d wx1 u) m
                 = for_up (Z.to_nat t)
                     (ForwardPass.Run_step relu leaky_relu layer_norm1 d wx2 u)
                     m).
  { apply ForwardCausal.for_up_wx; [exact HNH|].
    intros k Hk. apply Hwx. fold B H NH in Hk. lia. }
  subst final1 final2. unfold ForwardPass.Run. split; intros k Hk.
  - rewrite !(ForwardFacts.for_up_h_stable relu leaky_relu layer_norm1 d _ u
                (Z.to_nat t) (Z.to_nat T) m k HNH Hle)
      by (fold B H NH; lia).
    now rewrite Hpre.
  - rewrite !(ForwardMore.for_up_v_stable relu leaky_relu layer_norm1 d _ u
                (Z.to_nat t) (Z.to_nat T) m k HNH Hle)
      by (fold B H NH; lia).
    now rewrite Hpre.
Qed.

Lemma X14_forward_is_causal_witness :
  let relu := fun x : R => Rmax 0 x in
  let leaky_relu := fun x : R => x in
  let layer_norm1 :=
    fun (_ : Z) (x : buffer) (_ : Z) (_ : buffer) (_ : Z) => x in
  let one : buffer := fun _ => 1%R in
  let late : buffer := fun k => if k <? 24 then 1%R else 9%R in
  let d := ForwardPass.Data true 2 0 3 3 in
  let m := ForwardPass.Mem one one one one in
  (ForwardPass.h
     (ForwardPass.Run relu leaky_relu layer_norm1 d 4 one one m)).[17]
  = (ForwardPass.h
       (ForwardPass.Run relu leaky_relu layer_norm1 d 4 late one m)).[17].
Proof.
  intros relu leaky_relu layer_norm1 one late d m.
  pose proof (X14_forward_is_causal relu leaky_relu layer_norm1 d 4 one late
                one m 2) as Hx.
  cbv zeta in Hx.
  assert (HB : 0 <= ForwardPass.batch_size d) by (cbn; lia).
  assert (HH : 0 <= ForwardPass.hidden_size d) by (cbn; lia).
  assert (Ht : 0 <= 2 <= 4) by lia.
  assert (Hwx : forall k : Z,
             0 <= k
             < 2 * (ForwardPass.batch_size d * ForwardPass.hidden_size d * 2) ->
             one.[k] = late.[k]).
  { intros k Hk. unfold one, late. cbn in Hk.
    destruct (k <? 24) eqn:E; [reflexivity|].
    apply Z.ltb_ge in E. lia. }
  destruct (Hx HB HH Ht Hwx) as [Hh _].
  apply Hh. cbn. lia.
Defined.

(** ** The reverse scan of the backward pass *)

Module Backward_1_0_Causal.
Import BackwardPass_1_0.

Section Engine.

Variables d_relu d_leaky_relu d_tanh d_sin : R -> R.
Variable cuda_arch : Z.
Variable T : scalar_t.

Local Abbreviation Run_step :=
  (Run_step d_relu d_leaky_relu d_tanh d_sin cuda_arch T).

(** Step [i] reads row [i] of [h] and of the cache and row [i + 1] of
    [grad_out]. *)
Lemma Run_step_rows d u h1 h2 v1 v2 g1 g2 i m :
  let NH := batch_size d * hidden_size d in
  (forall k, 0 <= k < NH -> h1.[i * NH + k] = h2.[i * NH + k]) ->
  (forall k, 0 <= k < NH * 3 -> v1.[i * NH * 3 + k] = v2.[i * NH * 3 + k]) ->
  (forall k, 0 <= k < NH -> g1.[(i + 1) * NH + k] = g2.[(i + 1) * NH + k]) ->
  Run_step d u h1 v1 g1 i m = Run_step d u h2 v2 g2 i m.
Proof.
  intros NH Hh Hv Hg.
  unfold BackwardPass_1_0.Run_step, BackwardPass_1_0.IterateInternal.
  fold NH.
  rewrite (Backward_1_0_More.gate_kernel_inputs d_relu d_leaky_relu d_tanh
             d_sin cuda_arch T d
             (ptr_add h1 (i * NH)) (ptr_add h2 (i * NH))
             (ptr_add v1 (i * NH * 3)) (ptr_add v2 (i * NH * 3))
             (ptr_add g1 ((i + 1) * NH)) (ptr_add g2 ((i + 1) * NH)));
    [reflexivity| | |]; fold NH; intros k Hk; unfold ptr_add; auto.
Qed.

Lemma for_downM_rows d u h1 h2 v1 v2 g1 g2 t n :
  let NH := batch_size d * hidden_size d in
  0 <= NH -> 0 <= t ->
  (forall k, t * NH <= k < Z.of_nat n * NH -> h1.[k] = h2.[k]) ->
  (forall k, t * (NH * 3) <= k < Z.of_nat n * (NH * 3) -> v1.[k] = v2.[k]) ->
  (forall k, (t + 1) * NH <= k < (Z.of_nat n + 1) * NH -> g1.[k] = g2.[k]) ->
  forall m m1 m2,
    for_downM n (Run_step d u h1 v1 g1) m = Ok m1 ->
    for_downM n (Run_step d u h2 v2 g2) m = Ok m2 ->
    forall k, t * (NH * 2) <= k -> (dwx m1).[k] = (dwx m2).[k].
Proof.
  intros NH HNH Ht. induction n as [|n IH]; intros Hh Hv Hg m m1 m2 E1 E2 k Hk.
  - simpl in E1, E2. congruence.
  - destruct (Z_lt_le_dec (Z.of_nat n) t) as [Hlt | Hge].
    + destruct (Backward_1_0_More.for_downM_frame _ _ _ _ _ _ _ _ _ _ _ _ _ _
                  E1) as [_ [F1 _]].
      destruct (Backward_1_0_More.for_downM_frame _ _ _ _ _ _ _ _ _ _ _ _ _ _
                  E2) as [_ [F2 _]].
      fold NH in F1, F2. rewrite F1, F2 by nia. reflexivity.
    + cbn [for_downM] in E1, E2.
      rewrite (Run_step_rows d u h1 h2 v1 v2 g1 g2 (Z.of_nat n) m) in E1.
      * destruct (Run_step d u h2 v2 g2 (Z.of_nat n) m) as [s|msg];
          [|discriminate].
        cbn [bind] in E1, E2.
        apply (IH ltac:(intros; apply Hh; nia) ltac:(intros; apply Hv; nia)
                 ltac:(intros; apply Hg; nia) s m1 m2 E1 E2 k Hk).
      * fold NH. intros j Hj. apply Hh. nia.
      * fold NH. intros j Hj. apply Hv. nia.
      * fold NH. intros j Hj. apply Hg. nia.
Qed.

End Engine.

End Backward_1_0_Causal.

(** X15.  The backward scan runs from the last time step to the first, and
    gradients flow only backwards in time: with the generic templates both
    passes return, and rows [t .. T-1] of the returned [dwx] depend only on
    rows [t .. T-1] of [h] and of the cache and on rows [t+1 .. T] of
    [grad_out].  Changing the hidden states, the cache or the incoming
    gradient of earlier time steps leaves them as they are. *)
Theorem X15_backward_flows_back_in_time :
  forall (d_relu d_leaky_relu d_tanh d_sin : R -> R) cuda_arch ty d T
         wx1 wx2 u h1 h2 v1 v2 g1 g2 m t,
    BackwardPass_1_0.fp16_overload cuda_arch ty = false ->
    let B := BackwardPass_1_0.batch_size d in
    let H := BackwardPass_1_0.hidden_size d in
    let NH := B * H in
    0 <= B -> 0 <= H -> 0 <= t <= T ->
    (forall k, t * NH <= k < T * NH -> h1.[k] = h2.[k]) ->
    (forall k, t * (NH * 3) <= k < T * (NH * 3) -> v1.[k] = v2.[k]) ->
    (forall k, (t + 1) * NH <= k < (T + 1) * NH -> g1.[k] = g2.[k]) ->
    exists m1 m2,
      BackwardPass_1_0.Run d_relu d_leaky_relu d_tanh d_sin cuda_arch ty d T
        wx1 u h1 v1 g1 m = Ok m1
      /\ BackwardPass_1_0.Run d_relu d_leaky_relu d_tanh d_sin cuda_arch ty d
           T wx2 u h2 v2 g2 m = Ok m2
      /\ forall k, t * (NH * 2) <= k ->
                   (BackwardPass_1_0.dwx m1).[k]
                   = (BackwardPass_1_0.dwx m2).[k].
Proof.
  intros d_relu d_leaky_relu d_tanh d_sin cuda_arch ty d T wx1 wx2 u h1 h2
         v1 v2 g1 g2 m t Hfp B H NH HB HH Ht Hh Hv Hg.
  destruct (Backward_1_0_Facts.Run_scan_ok d_relu d_leaky_relu d_tanh d_sin
              cuda_arch ty d T u h1 v1 g1 m Hfp) as [s1 S1].
  destruct (Backward_1_0_Facts.Run_scan_ok d_relu d_leaky_relu d_tanh d_sin
              cuda_arch ty d T u h2 v2 g2 m Hfp) as [s2 S2].
  exists (BackwardPass_1_0.Run_reduce d T h1 s1),
         (BackwardPass_1_0.Run_reduce d T h2 s2).
  split; [unfold BackwardPass_1_0.Run; rewrite S1; reflexivity|].
  split; [unfold BackwardPass_1_0.Run; rewrite S2; reflexivity|].
  intros k Hk. unfold BackwardPass_1_0.Run_reduce.
  cbn [BackwardPass_1_0.dwx BackwardPass_1_0.set_du].
  unfold BackwardPass_1_0.Run_scan in S1, S2.
  assert (HNH : 0 <= NH) by (subst NH; nia).
  apply (Backward_1_0_Causal.for_downM_rows d_relu d_leaky_relu d_tanh d_sin
           cuda_arch ty d u h1 h2 v1 v2 g1 g2 t (Z.to_nat T) HNH
           ltac:(lia)
           ltac:(intros j Hj; apply Hh; fold B H NH in Hj; lia)
           ltac:(intros j Hj; apply Hv; fold B H NH in Hj; lia)
           ltac:(intros j Hj; apply Hg; fold B H NH in Hj; lia)
           m s1 s2 S1 S2 k Hk).
Qed.

Lemma X15_backward_flows_back_in_time_witness :
  let d_relu := fun x : R => 1%R in
  let one : buffer := fun _ => 1%R in
  let early : buffer := fun k => if k <? 12 then 9%R else 1%R in
  let d := BackwardPass_1_0.Data 2 0 3 3 in
  let m := BackwardPass_1_0.Mem one one one in
  exists m1 m2,
    BackwardPass_1_0.Run d_relu d_relu d_relu d_relu 800 Float d 4 one one
      one one one m = Ok m1
    /\ BackwardPass_1_0.Run d_relu d_relu d_relu d_relu 800 Float d 4 one one
         early early early m = Ok m2
    /\ forall k, 2 * (2 * 3 * 2) <= k ->
                 (BackwardPass_1_0.dwx m1).[k] = (BackwardPass_1_0.dwx m2).[k].
Proof.
  intros d_relu one early d m.
  pose proof (X15_backward_flows_back_in_time d_relu d_relu d_relu d_relu 800
                Float d 4 one one one one early one early one early m 2
                eq_refl) as Hx.
  cbv zeta in Hx.
  assert (HB : 0 <= BackwardPass_1_0.batch_size d) by (cbn; lia).
  assert (HH : 0 <= BackwardPass_1_0.hidden_size d) by (cbn; lia).
  assert (Ht : 0 <= 2 <= 4) by lia.
  assert (Hge : forall k : Z, 12 <= k -> one.[k] = early.[k]).
  { intros k Hk. unfold one, early.
    destruct (k <? 12) eqn:E; [|reflexivity].
    apply Z.ltb_lt in E. lia. }
  apply (Hx HB HH Ht); intros k Hk; apply Hge; cbn in Hk; lia.
Defined.

(** * A backward step inside the reverse scan *)

Lemma for_downM_split {S : Type} (n k : nat) (body : Z -> S -> outcome S) s :
  (k <= n)%nat ->
  for_downM n body s
  = (s' <- for_downM_until n k body s ;; for_downM k body s').
Proof.
  intros Hkn. unfold for_downM_until.
  replace n with ((n - k) + k)%nat at 1 by lia.
  generalize (n - k)%nat as c. intros c. revert s.
  induction c as [|c IH]; intros s; [reflexivity|].
  cbn [for_downM Nat.add].
  replace (Z.of_nat (c + k)) with (Z.of_nat c + Z.of_nat k) by lia.
  destruct (body (Z.of_nat c + Z.of_nat k) s) as [s1|msg]; [|reflexivity].
  cbn [bind]. apply IH.
Qed.

Lemma for_down_split {S : Type} (n k : nat) (body : Z -> S -> S) s :
  (k <= n)%nat ->
  for_down n body s = for_down k body (for_down_until n k body s).
Proof.
  intros Hkn. unfold for_down_until.
  replace n with ((n - k) + k)%nat at 1 by lia.
  generalize (n - k)%nat as c. intros c. revert s.
  induction c as [|c IH]; intros s; [reflexivity|].
  cbn [for_down Nat.add].
  replace (Z.of_nat (c + k)) with (Z.of_nat c + Z.of_nat k) by lia.
  apply IH.
Qed.

(** A cell of [dh += U . X_t], with [X_t] the [B, 2H] row at [X + off]. *)
Lemma recurrent_cell H B (u X : buffer) off (C : buffer) c_off b j :
  0 <= b < B -> 0 <= j < H ->
  (gemm CUBLAS_OP_N CUBLAS_OP_N H B (H * 2) 1 u H (ptr_add X off) (H * 2) 1 C
     c_off H).[c_off + (b * H + j)]
  = (C.[c_off + (b * H + j)]
     + sum_upto (Z.to_nat (2 * H))
         (fun l => u.[l * H + j] * X.[off + (b * (2 * H) + l)]))%R.
Proof.
  intros Hb Hj.
  replace (c_off + (b * H + j)) with (c_off + (j + b * H)) by lia.
  rewrite gemm_at by lia. unfold gemm_cell, op, ptr_add. cbv zeta.
  replace (H * 2) with (2 * H) by lia.
  rewrite (sum_upto_ext _ _
             (fun l => (u.[l * H + j] * X.[off + (b * (2 * H) + l)])%R)).
  - lra.
  - intros l _. f_equal; f_equal; lia.
Qed.

Module Backward_1_0_Scan.
Import BackwardPass_1_0.

Section Engine.

Variables d_relu d_leaky_relu d_tanh d_sin : R -> R.
Variable cuda_arch : Z.
Variable T : scalar_t.

Local Abbreviation Run_step :=
  (Run_step d_relu d_leaky_relu d_tanh d_sin cuda_arch T).

Lemma Run_step_ok d u h v g i m :
  fp16_overload cuda_arch T = false ->
  exists m1, Run_step d u h v g i m = Ok m1.
Proof.
  intros Hfp.
  unfold BackwardPass_1_0.Run_step, BackwardPass_1_0.IterateInternal.
  destruct (Backward_1_0_Facts.gate_kernel_ok d_relu d_leaky_relu d_tanh d_sin
              cuda_arch T d
              (ptr_add h (i * (batch_size d * hidden_size d)))
              (ptr_add v (i * (batch_size d * hidden_size d) * 3))
              (ptr_add g ((i + 1) * (batch_size d * hidden_size d)))
              0 (i * (batch_size d * hidden_size d) * 2) m Hfp) as [m' ->].
  eexists. reflexivity.
Qed.

Lemma for_downM_until_ok d u h v g n k m :
  fp16_overload cuda_arch T = false ->
  exists m1, for_downM_until n k (Run_step d u h v g) m = Ok m1.
Proof.
  intros Hfp. unfold for_downM_until.
  generalize (n - k)%nat as c. intros c. revert m.
  induction c as [|c IH]; intros m; [eexists; reflexivity|].
  cbn [for_downM].
  destruct (Run_step_ok d u h v g (Z.of_nat c + Z.of_nat k) m Hfp) as [m' ->].
  cbn [bind]. apply IH.
Qed.

End Engine.

End Backward_1_0_Scan.

(** C3.  Every iteration [i] of the reverse loop of [Run] (activation id in
    0..3), run on the memory [s] that the iterations [T-1 .. i+1] leave:
    the gate kernel comes first and, for every batch index [b] and hidden
    index [j], sets the running hidden gradient to [(grad_out + dh) * z],
    where [grad_out] is read in row [i+1], and [z], [a], [hcand] in row [i]
    of the cache and [h] in row [i]; it stores [dz] in slot 1 and [da] in
    slot 0 of row [i] of [dwx].  Only then is the recurrent-weight
    contribution added to the running hidden gradient: [U . dwx_i] in
    ligru_1_0 (generic templates), and in ligru_2_0 [U . tmp_dwx_i], the
    row after the layer-norm co-pass.  The remaining iterations and the
    final reduction leave row [i] of [dwx] as the kernel wrote it. *)
Theorem C3_backward_step :
  (forall (d_relu d_leaky_relu d_tanh d_sin : R -> R) cuda_arch ty d T wx u h
          v grad_out m d_f i,
      BackwardPass_1_0.fp16_overload cuda_arch ty = false ->
      derivative d_relu d_leaky_relu d_tanh d_sin
        (BackwardPass_1_0.activation d) = Some d_f ->
      let B := BackwardPass_1_0.batch_size d in
      let H := BackwardPass_1_0.hidden_size d in
      let NH := B * H in
      0 <= i < T ->
      let step :=
        BackwardPass_1_0.Run_step d_relu d_leaky_relu d_tanh d_sin cuda_arch
          ty d u h v grad_out in
      exists s k s' final,
        for_downM_until (Z.to_nat T) (Z.to_nat (i + 1)) step m = Ok s
        /\ BackwardPass_1_0.gate_kernel d_relu d_leaky_relu d_tanh d_sin
             cuda_arch ty d (ptr_add h (i * NH)) (ptr_add v (i * NH * 3))
             (ptr_add grad_out ((i + 1) * NH)) 0 (i * NH * 2) s = Ok k
        /\ step i s = Ok s'
        /\ s' = BackwardPass_1_0.recurrent_gemm d u 0 (i * NH * 2) k
        /\ BackwardPass_1_0.Run_scan d_relu d_leaky_relu d_tanh d_sin
             cuda_arch ty d T u h v grad_out m
           = for_downM (Z.to_nat i) step s'
        /\ BackwardPass_1_0.Run d_relu d_leaky_relu d_tanh d_sin cuda_arch ty
             d T wx u h v grad_out m = Ok final
        /\ forall b j, 0 <= b < B -> 0 <= j < H ->
             let z := v.[i * NH * 3 + (b * (3 * H) + 1 * H + j)] in
             let a := v.[i * NH * 3 + (b * (3 * H) + 0 * H + j)] in
             let hcand := v.[i * NH * 3 + (b * (3 * H) + 2 * H + j)] in
             let h_i := h.[i * NH + (b * H + j)] in
             let dh_total :=
               (grad_out.[(i + 1) * NH + (b * H + j)]
                + (BackwardPass_1_0.dh s).[b * H + j])%R in
             (BackwardPass_1_0.dh k).[b * H + j] = (dh_total * z)%R
             /\ (BackwardPass_1_0.dwx k)
                  .[i * NH * 2 + (b * (2 * H) + 1 * H + j)]
                = ((h_i - hcand) * z * ((1 - z) * dh_total))%R
             /\ (BackwardPass_1_0.dwx k)
                  .[i * NH * 2 + (b * (2 * H) + 0 * H + j)]
                = (d_f a * ((1 - z) * dh_total))%R
             /\ (BackwardPass_1_0.dh s').[b * H + j]
                = ((BackwardPass_1_0.dh k).[b * H + j]
                   + sum_upto (Z.to_nat (2 * H))
                       (fun l => u.[l * H + j]
                                 * (BackwardPass_1_0.dwx k)
                                     .[i * NH * 2 + (b * (2 * H) + l)]))%R
             /\ forall l, 0 <= l < 2 * H ->
                  (BackwardPass_1_0.dwx final).[i * NH * 2 + (b * (2 * H) + l)]
                  = (BackwardPass_1_0.dwx k).[i * NH * 2 + (b * (2 * H) + l)])
  /\ (forall (d_relu d_leaky_relu d_tanh d_sin : R -> R) layer_norm1 d T wx u
             h v grad_out m d_f i,
        derivative d_relu d_leaky_relu d_tanh d_sin
          (BackwardPass_2_0.activation d) = Some d_f ->
        let B := BackwardPass_2_0.batch_size d in
        let H := BackwardPass_2_0.hidden_size d in
        let NH := B * H in
        0 <= i < T ->
        let step :=
          BackwardPass_2_0.Run_step d_relu d_leaky_relu d_tanh d_sin
            layer_norm1 d u h v grad_out in
        let s := for_down_until (Z.to_nat T) (Z.to_nat (i + 1)) step m in
        let k :=
          BackwardPass_2_0.gate_kernel d_relu d_leaky_relu d_tanh d_sin d
            (ptr_add h (i * NH)) (ptr_add v (i * NH * 3))
            (ptr_add grad_out ((i + 1) * NH)) 0 (i * NH * 2) s in
        let tmp_dwx' :=
          layer_norm1 B (BackwardPass_2_0.dwx k) (i * NH * 2)
            (BackwardPass_2_0.tmp_dwx k) (i * NH * 2) in
        let s' := step i s in
        let final :=
          BackwardPass_2_0.Run d_relu d_leaky_relu d_tanh d_sin layer_norm1 d
            T wx u h v grad_out m in
        BackwardPass_2_0.Run_scan d_relu d_leaky_relu d_tanh d_sin
          layer_norm1 d T u h v grad_out m
        = for_down (Z.to_nat i) step s'
        /\ BackwardPass_2_0.tmp_dwx s' = tmp_dwx'
        /\ BackwardPass_2_0.dwx s' = BackwardPass_2_0.dwx k
        /\ forall b j, 0 <= b < B -> 0 <= j < H ->
             let z := v.[i * NH * 3 + (b * (3 * H) + 1 * H + j)] in
             let a := v.[i * NH * 3 + (b * (3 * H) + 0 * H + j)] in
             let hcand := v.[i * NH * 3 + (b * (3 * H) + 2 * H + j)] in
             let h_i := h.[i * NH + (b * H + j)] in
             let dh_total :=
               (grad_out.[(i + 1) * NH + (b * H + j)]
                + (BackwardPass_2_0.dh s).[b * H + j])%R in
             (BackwardPass_2_0.dh k).[b * H + j] = (dh_total * z)%R
             /\ (BackwardPass_2_0.dwx k)
                  .[i * NH * 2 + (b * (2 * H) + 1 * H + j)]
                = ((h_i - hcand) * dh_total * (z * (1 - z)))%R
             /\ (BackwardPass_2_0.dwx k)
                  .[i * NH * 2 + (b * (2 * H) + 0 * H + j)]
                = (d_f a * (1 - z) * dh_total)%R
             /\ (BackwardPass_2_0.dh s').[b * H + j]
                = ((BackwardPass_2_0.dh k).[b * H + j]
                   + sum_upto (Z.to_nat (2 * H))
                       (fun l => u.[l * H + j]
                                 * tmp_dwx'.[i * NH * 2 + (b * (2 * H) + l)]))%R
             /\ forall l, 0 <= l < 2 * H ->
                  (BackwardPass_2_0.dwx final).[i * NH * 2 + (b * (2 * H) + l)]
                  = (BackwardPass_2_0.dwx k).[i * NH * 2 + (b * (2 * H) + l)]).
Proof.
  split.
  {
    intros d_relu d_leaky_relu d_tanh d_sin cuda_arch ty d T wx u h v g m d_f i
           Hfp Hd B H NH Hi step.
    destruct (Backward_1_0_Scan.for_downM_until_ok d_relu d_leaky_relu d_tanh
                d_sin cuda_arch ty d u h v g (Z.to_nat T) (Z.to_nat (i + 1))
                m Hfp) as [s Hs].
    fold step in Hs.
    destruct (proj1 backward_step_cells d_relu d_leaky_relu d_tanh d_sin
                cuda_arch ty d u (ptr_add h (i * NH)) (ptr_add v (i * NH * 3))
                (ptr_add g ((i + 1) * NH)) 0 (i * NH * 2) s d_f Hfp Hd)
      as [k [Hk [Hit Hcells]]].
    fold B H in Hcells.
    assert (Hstep : step i s
                    = Ok (BackwardPass_1_0.recurrent_gemm d u 0 (i * NH * 2)
                            k)) by exact Hit.
    assert (Hscan : BackwardPass_1_0.Run_scan d_relu d_leaky_relu d_tanh d_sin
                      cuda_arch ty d T u h v g m
                    = for_downM (Z.to_nat i) step
                        (BackwardPass_1_0.recurrent_gemm d u 0 (i * NH * 2)
                           k)).
    { unfold BackwardPass_1_0.Run_scan. fold step.
      rewrite (for_downM_split (Z.to_nat T) (Z.to_nat (i + 1))) by lia.
      rewrite Hs. cbn [bind].
      replace (Z.to_nat (i + 1)) with (S (Z.to_nat i)) by lia.
      cbn [for_downM]. rewrite Z2Nat.id by lia. rewrite Hstep. reflexivity. }
    destruct (Backward_1_0_Facts.Run_scan_ok d_relu d_leaky_relu d_tanh d_sin
                cuda_arch ty d T u h v g m Hfp) as [e He].
    exists s, k, (BackwardPass_1_0.recurrent_gemm d u 0 (i * NH * 2) k),
      (BackwardPass_1_0.Run_reduce d T h e).
    split; [exact Hs|]. split; [exact Hk|]. split; [exact Hstep|].
    split; [reflexivity|]. split; [exact Hscan|].
    split; [unfold BackwardPass_1_0.Run; rewrite He; reflexivity|].
    intros b j Hb Hj z a hcand h_i dh_total.
    destruct (Hcells b j Hb Hj) as [C1 [C2 [C3 C4]]].
    unfold ptr_add in C1, C2, C3. rewrite !Z.add_0_l in C1.
    split; [exact C1|]. split; [exact C2|]. split; [exact C3|]. split.
    - unfold BackwardPass_1_0.recurrent_gemm.
      cbn [BackwardPass_1_0.dh BackwardPass_1_0.set_dh]. fold B H.
      pose proof (recurrent_cell H B u (BackwardPass_1_0.dwx k) (i * NH * 2)
                    (BackwardPass_1_0.dh k) 0 b j Hb Hj) as Hc.
      rewrite !Z.add_0_l in Hc. exact Hc.
    - intros l Hl. rewrite Hscan in He.
      destruct (Backward_1_0_More.for_downM_frame _ _ _ _ _ _ _ _ _ _ _ _ _ _
                  He) as [_ [F _]].
      fold B H NH in F.
      unfold BackwardPass_1_0.Run_reduce.
      cbn [BackwardPass_1_0.dwx BackwardPass_1_0.set_du].
      rewrite F by (rewrite Z2Nat.id by lia; nia).
      reflexivity.
  }
  intros d_relu d_leaky_relu d_tanh d_sin layer_norm1 d T wx u h v g m d_f i
         Hd B H NH Hi step s k tmp_dwx' s' final.
  destruct (proj2 backward_step_cells d_relu d_leaky_relu d_tanh d_sin
              layer_norm1 d u (ptr_add h (i * NH)) (ptr_add v (i * NH * 3))
              (ptr_add g ((i + 1) * NH)) 0 (i * NH * 2) (i * NH * 2) s d_f Hd)
    as [Hit Hcells].
  fold B H in Hit, Hcells. fold k in Hit, Hcells.
  assert (Hstep : s'
                  = BackwardPass_2_0.set_dh
                      (gemm CUBLAS_OP_N CUBLAS_OP_N H B (H * 2) 1 u H
                         (ptr_add tmp_dwx' (i * NH * 2)) (H * 2) 1
                         (BackwardPass_2_0.dh k) 0 H)
                      (BackwardPass_2_0.set_tmp_dwx tmp_dwx' k))
    by exact Hit.
  assert (Hscan : BackwardPass_2_0.Run_scan d_relu d_leaky_relu d_tanh d_sin
                    layer_norm1 d T u h v g m
                  = for_down (Z.to_nat i) step s').
  { unfold BackwardPass_2_0.Run_scan. fold step.
    rewrite (for_down_split (Z.to_nat T) (Z.to_nat (i + 1))) by lia.
    fold s. replace (Z.to_nat (i + 1)) with (S (Z.to_nat i)) by lia.
    cbn [for_down]. rewrite Z2Nat.id by lia. reflexivity. }
  split; [exact Hscan|].
  split; [rewrite Hstep; reflexivity|].
  split; [rewrite Hstep; reflexivity|].
  intros b j Hb Hj z a hcand h_i dh_total.
  destruct (Hcells b j Hb Hj) as [C1 [C2 C3]].
  unfold ptr_add in C1, C2, C3. rewrite !Z.add_0_l in C1.
  split; [exact C1|]. split; [exact C2|]. split; [exact C3|]. split.
  - rewrite Hstep. cbn [BackwardPass_2_0.dh BackwardPass_2_0.set_dh].
    pose proof (recurrent_cell H B u tmp_dwx' (i * NH * 2)
                  (BackwardPass_2_0.dh k) 0 b j Hb Hj) as Hc.
    rewrite !Z.add_0_l in Hc. exact Hc.
  - intros l Hl.
    unfold final, BackwardPass_2_0.Run, BackwardPass_2_0.Run_reduce.
    cbn [BackwardPass_2_0.dwx BackwardPass_2_0.set_du].
    rewrite Hscan.
    destruct (Backward_2_0_More.for_down_frame_2_0 d_relu d_leaky_relu d_tanh
                d_sin layer_norm1 d u h v g (Z.to_nat i) s') as [_ F].
    fold B H NH in F. fold step in F.
    rewrite F by (rewrite Z2Nat.id by lia; nia).
    rewrite Hstep. reflexivity.
Qed.

Lemma C3_backward_step_witness :
  let d_relu := fun x : R => 1%R in
  let zero : buffer := fun _ => 0%R in
  let one : buffer := fun _ => 1%R in
  let d := BackwardPass_1_0.Data 2 0 3 1 in
  let m := BackwardPass_1_0.Mem zero zero one in
  let step :=
    BackwardPass_1_0.Run_step d_relu d_relu d_relu d_relu 800 Half d one one
      one one in
  exists s k final,
    for_downM_until (Z.to_nat 4) (Z.to_nat (2 + 1)) step m = Ok s
    /\ BackwardPass_1_0.Run d_relu d_relu d_relu d_relu 800 Half d 4 zero one
         one one one m = Ok final
    /\ (BackwardPass_1_0.dh k).[1 * 3 + 2]
       = ((one.[(2 + 1) * (2 * 3) + (1 * 3 + 2)]
           + (BackwardPass_1_0.dh s).[1 * 3 + 2])
          * one.[2 * (2 * 3) * 3 + (1 * (3 * 3) + 1 * 3 + 2)])%R.
Proof.
  intros d_relu zero one d m step.
  assert (Hi : 0 <= 2 < 4) by lia.
  destruct (proj1 C3_backward_step d_relu d_relu d_relu d_relu 800 Half d 4
              zero one one one one m d_relu 2 eq_refl eq_refl Hi)
    as [s [k [s' [final [Hs [_ [_ [_ [_ [Hrun Hcells]]]]]]]]]].
  exists s, k, final.
  split; [exact Hs|]. split; [exact Hrun|].
  assert (Hb : 0 <= 1 < BackwardPass_1_0.batch_size d) by (cbn; lia).
  assert (Hj : 0 <= 2 < BackwardPass_1_0.hidden_size d) by (cbn; lia).
  destruct (Hcells 1 2 Hb Hj) as [C1 _]. exact C1.
Defined.
